(** * A boundary-tag heap allocator (heap.c): shallow embedding and properties

    The C program manages a region obtained with [sbrk].  Every chunk starts
    with a 4-byte [info] tag (size and flag bits), ends with a copy of that
    tag, and a free chunk keeps two 8-byte links in its payload.  The
    embedding follows the source function by function over a byte-addressed
    memory; [int] is 32-bit two's complement, [size_t] and pointers are 64-bit
    unsigned, as the source's own comment requires (H_PS = 8, H_IS = 4). *)

From stdpp Require Import gmap list strings.
From Stdlib Require Import ZArith Lia.

Local Open Scope Z_scope.

(** ** Machine integers *)

Module CInt.

(** Value of a C expression converted to [int]. *)
Definition to_int (x : Z) : Z := (x + 2 ^ 31) mod 2 ^ 32 - 2 ^ 31.

(** Value of a C expression converted to [size_t] (or to a pointer). *)
Definition to_size (x : Z) : Z := x mod 2 ^ 64.

Definition int_range (x : Z) : Prop := - 2 ^ 31 <= x < 2 ^ 31.
Definition size_range (x : Z) : Prop := 0 <= x < 2 ^ 64.

(** Arithmetic on two [int] operands. *)
Definition iadd (x y : Z) : Z := to_int (x + y).
Definition isub (x y : Z) : Z := to_int (x - y).
Definition imul (x y : Z) : Z := to_int (x * y).
Definition idiv (x y : Z) : Z := to_int (Z.quot x y).

(** Arithmetic once an operand is a [size_t]: the other operand is
    converted and the result wraps at 64 bits. *)
Definition sadd (x y : Z) : Z := to_size (to_size x + to_size y).
Definition ssub (x y : Z) : Z := to_size (to_size x - to_size y).
Definition smul (x y : Z) : Z := to_size (to_size x * to_size y).
Definition sdiv (x y : Z) : Z := to_size x / to_size y.
Definition sltb (x y : Z) : bool := to_size x <? to_size y.

(** C's [!] on an [int]. *)
Definition lnot (x : Z) : Z := if x =? 0 then 1 else 0.

End CInt.
Export CInt.

(** ** Byte-addressed memory *)

Module Mem.

(** A cell holds one byte; a cell that was never written reads as zero,
    which is what a page fresh from the kernel holds. *)
Definition load8 (m : gmap Z Z) (a : Z) : Z := default 0 (m !! a) mod 256.

Definition store8 (m : gmap Z Z) (a v : Z) : gmap Z Z := <[a := v mod 256]> m.

(** Little-endian unsigned load and store of [n] bytes. *)
Fixpoint loadN (n : nat) (m : gmap Z Z) (a : Z) : Z :=
  match n with
  | O => 0
  | S k => load8 m a + 256 * loadN k m (a + 1)
  end.

Fixpoint storeN (n : nat) (m : gmap Z Z) (a v : Z) : gmap Z Z :=
  match n with
  | O => m
  | S k => storeN k (store8 m a v) (a + 1) (v / 256)
  end.

(** An [info] is an [int]; a link is a pointer. *)
Definition load_info (m : gmap Z Z) (a : Z) : Z := to_int (loadN 4 m a).
Definition store_info (m : gmap Z Z) (a v : Z) : gmap Z Z := storeN 4 m a v.
Definition load_ptr (m : gmap Z Z) (a : Z) : Z := loadN 8 m a.
Definition store_ptr (m : gmap Z Z) (a v : Z) : gmap Z Z := storeN 8 m a v.

(** [memset(p, c, n)], [memcpy(q, p, n)]: byte loops, lowest address
    first. *)
Fixpoint memset_loop (k : nat) (m : gmap Z Z) (p c : Z) : gmap Z Z :=
  match k with
  | O => m
  | S k' => memset_loop k' (store8 m p c) (p + 1) c
  end.
Definition memset (m : gmap Z Z) (p c n : Z) : gmap Z Z :=
  memset_loop (Z.to_nat n) m p c.

Fixpoint memcpy_loop (k : nat) (m : gmap Z Z) (q p : Z) : gmap Z Z :=
  match k with
  | O => m
  | S k' => memcpy_loop k' (store8 m q (load8 m p)) (q + 1) (p + 1)
  end.
Definition memcpy (m : gmap Z Z) (q p n : Z) : gmap Z Z :=
  memcpy_loop (Z.to_nat n) m q p.

(** [strlen(s)]: bytes before the first zero byte.  Only cells that were
    written can be non-zero, so the scan meets a zero within
    [size m + 1] steps. *)
Fixpoint strlen_loop (k : nat) (m : gmap Z Z) (s : Z) : Z :=
  match k with
  | O => 0
  | S k' => if load8 m s =? 0 then 0 else 1 + strlen_loop k' m (s + 1)
  end.
Definition strlen (m : gmap Z Z) (s : Z) : Z := strlen_loop (S (size m)) m s.

(** [strcpy(d, s)]: the bytes of [s] and its terminator; the two regions
    must not overlap, as strcpy(3) demands. *)
Definition strcpy (m : gmap Z Z) (d s : Z) : gmap Z Z :=
  memcpy m d s (strlen m s + 1).

End Mem.
Export Mem.

(** ** The allocator *)

(** What the process is given from outside: where the loader put the static
    [FreeList] node, what [getpagesize()] answers, and whether [DEBUG] is in
    the environment. *)
Record image := Image {
  FreeList : Z;
  sys_pagesize : Z;
  env_DEBUG : bool
}.

(** Calls into the kernel and the C library, recorded as they are made:
    the break moving, text written to standard output (format strings as
    the source spells them), and the block operations of string.h. *)
Inductive parg := PInt (z : Z) | PPtr (p : Z) | PStr (s : string).
Inductive event :=
| Sbrk (incr : Z)
| Printf (fmt : string) (args : list parg)
| Putchar (c : Z)
| Memset (p c n : Z)
| Memcpy (q p n : Z)
| Strcpy (d s : Z).

(** The globals of heap.c, the memory, the program break kept by the
    kernel, and the calls made so far (latest first). *)
Record state := State {
  mem : gmap Z Z;
  brk : Z;
  BASE : Z;
  HWM : Z;
  PAGE_SIZE : Z;
  debug : Z;
  trace : list event
}.

Definition with_mem (s : state) (m : gmap Z Z) : state :=
  State m (brk s) (BASE s) (HWM s) (PAGE_SIZE s) (debug s) (trace s).

Definition emit (s : state) (e : event) : state :=
  State (mem s) (brk s) (BASE s) (HWM s) (PAGE_SIZE s) (debug s) (e :: trace s).

(** [sbrk(incr)] moves the break and answers the old one.  The source never
    tests the answer, and the model lets every request succeed. *)
Definition sbrk (s : state) (incr : Z) : state * Z :=
  (State (mem s) (brk s + incr) (BASE s) (HWM s) (PAGE_SIZE s) (debug s)
         (Sbrk incr :: trace s),
   brk s).

Definition H_PS : Z := 8.
Definition H_IS : Z := 4.
Definition H_MINPAYLOAD : Z := 2 * H_PS.
Definition H_MINCHUNK : Z := H_MINPAYLOAD + 2 * H_IS.
Definition H_FREE : Z := 1.
Definition H_SIZEMASK : Z := Z.lnot 7.

Definition PTR_ADD (p i : Z) : Z := to_size (p + i).
Definition PTR_DIFF (a b : Z) : Z := a - b.

(** Field addresses of the packed [struct chunk]. *)
Definition header_of (c : Z) : Z := c.
Definition prev_of (c : Z) : Z := c + 4.
Definition next_of (c : Z) : Z := c + 12.

Definition init (im : image) (s : state) : state :=
  if negb (BASE s =? 0) then s
  else
    let dbg := if env_DEBUG im then 1 else 0 in
    let m := store_info (mem s) (header_of (FreeList im)) 0 in
    let m := store_ptr m (prev_of (FreeList im)) (FreeList im) in
    let m := store_ptr m (next_of (FreeList im)) (FreeList im) in
    let '(s1, b) := sbrk (with_mem s m) 0 in
    State (mem s1) (brk s1) b b (sys_pagesize im) dbg (trace s1).

Definition ck_size (m : gmap Z Z) (c : Z) : Z :=
  Z.land (load_info m (header_of c)) H_SIZEMASK.

Definition ck_payloadSize (m : gmap Z Z) (c : Z) : Z :=
  to_int (ssub (ck_size m c) (2 * H_IS)).

Definition ck_footerAddr (m : gmap Z Z) (c : Z) : Z :=
  let size := Z.land (load_info m (header_of c)) H_SIZEMASK in
  PTR_ADD c (ssub size H_IS).

Definition ck_setInfo (m : gmap Z Z) (c i : Z) : gmap Z Z :=
  let m := store_info m (header_of c) i in
  let foot := ck_footerAddr m c in
  store_info m foot i.

(** Where [ck_setInfo c i] puts the footer, read off the tag alone. *)
Definition footer_for (c i : Z) : Z :=
  PTR_ADD c (ssub (Z.land (to_int i) H_SIZEMASK) H_IS).

Definition fl_insert (m : gmap Z Z) (l c : Z) : gmap Z Z :=
  let m := store_ptr m (prev_of c) l in
  let m := store_ptr m (next_of c) (load_ptr m (next_of l)) in
  let m := store_ptr m (prev_of (load_ptr m (next_of l))) c in
  store_ptr m (next_of l) c.

Definition fl_remove (m : gmap Z Z) (c : Z) : gmap Z Z :=
  let m := store_ptr m (next_of (load_ptr m (prev_of c))) (load_ptr m (next_of c)) in
  store_ptr m (prev_of (load_ptr m (next_of c))) (load_ptr m (prev_of c)).

(** [fl_size] walks until it is back at [l]; on a list that never comes
    back the C loop does not end, and the model runs out of fuel. *)
Fixpoint fl_size_loop (fuel : nat) (m : gmap Z Z) (l p size : Z) : option Z :=
  match fuel with
  | O => None
  | S k =>
      if negb (p =? l) then fl_size_loop k m l (load_ptr m (next_of p)) (iadd size 1)
      else Some size
  end.

Definition fl_size (fuel : nat) (m : gmap Z Z) (l : Z) : option Z :=
  fl_size_loop fuel m l (load_ptr m (next_of l)) 0.

Definition grow (im : image) (s : state) (delta l : Z) : state * Z :=
  let s := init im s in
  let delta := to_int (sadd delta (4 * H_IS)) in
  let delta := imul (idiv (isub (iadd delta (PAGE_SIZE s)) 1) (PAGE_SIZE s)) (PAGE_SIZE s) in
  let '(s, c) := sbrk s delta in
  let '(s, hwm) := sbrk s 0 in
  let s := State (mem s) (brk s) (BASE s) hwm (PAGE_SIZE s) (debug s) (trace s) in
  let m := store_info (mem s) c 0 in
  let end_ := PTR_ADD (HWM s) (to_size (- H_IS)) in
  let m := store_info m end_ 0 in
  let c := PTR_ADD c H_IS in
  let size := to_int (PTR_DIFF end_ c) in
  let m := ck_setInfo m c (Z.lor size H_FREE) in
  let m := fl_insert m l c in
  (with_mem s m, c).

Definition ck_split (im : image) (s : state) (c paysize : Z) : state * Z :=
  let s := emit s (Printf "ck_split entered!\n" []) in
  if negb (sltb paysize H_MINPAYLOAD) then
    let CHUNK_SIZE := ck_size (mem s) c in
    let paysize := to_int (smul (sdiv (ssub (sadd paysize H_PS) 1) H_PS) H_PS) in
    let size_c := to_int (sadd paysize (2 * H_IS)) in
    let size_d := isub CHUNK_SIZE size_c in
    if sltb size_d H_MINCHUNK then (s, 0)
    else
      let m := ck_setInfo (mem s) c size_c in
      let end_c := ck_footerAddr m c in
      let d := PTR_ADD end_c H_IS in
      let m := ck_setInfo m d (Z.lor size_d H_FREE) in
      let m := fl_insert m (FreeList im) d in
      (with_mem s m, d)
  else (s, 0).

(** The call at the end passes the merged chunk as the list and the list
    anchor as the chunk, as the source does. *)
Definition ck_merge (im : image) (m : gmap Z Z) (c1 c2 : Z) : gmap Z Z :=
  let m := fl_remove m c1 in
  let m := fl_remove m c2 in
  let sum := c1 in
  let totalSize := iadd (ck_size m c1) (ck_size m c2) in
  let m := ck_setInfo m sum (Z.lor totalSize H_FREE) in
  fl_insert m sum (FreeList im).

(** Locals of [fl_findBestFit]. *)
Record bf_locals := BF {
  bf_bestSoFar : Z;
  bf_p : Z;
  bf_excess : Z;
  bf_bestExcess : Z
}.

(** One pass through the body of the [while]: the if-chain either returns
    [p] (exact match) or falls through with the locals updated. *)
Definition bf_chain (m : gmap Z Z) (targetPayload : Z) (v : bf_locals) : Z + bf_locals :=
  let p := bf_p v in
  if ck_payloadSize m p <? targetPayload then
    inr (BF (bf_bestSoFar v) (load_ptr m (next_of p)) (bf_excess v) (bf_bestExcess v))
  else if ck_payloadSize m p =? targetPayload then
    inl p
  else
    let excess := isub (ck_payloadSize m p) targetPayload in
    if (lnot (bf_bestExcess v) =? 1) || (excess <? bf_bestExcess v) then
      let bestExcess := isub (ck_payloadSize m (bf_bestSoFar v)) targetPayload in
      inr (BF p (load_ptr m (next_of p)) excess bestExcess)
    else
      inr (BF (bf_bestSoFar v) (load_ptr m (next_of p)) excess (bf_bestExcess v)).

(** The statement after the if-chain, still inside the loop body, is
    [return bestSoFar]: no path goes back to the loop test, so the [while]
    is entered at most once. *)
Definition fl_findBestFit (m : gmap Z Z) (l targetPayload : Z) : Z :=
  let v := BF l (load_ptr m (next_of l)) 0 0 in
  if negb (bf_p v =? l) then
    match bf_chain m targetPayload v with
    | inl r => r
    | inr v' => bf_bestSoFar v'
    end
  else bf_bestSoFar v.

Definition hmalloc (im : image) (s : state) (size : Z) : state * Z :=
  let s := init im s in
  let size := if sltb size H_MINPAYLOAD then to_int H_MINPAYLOAD else size in
  let found := fl_findBestFit (mem s) (FreeList im) size in
  let '(s, found) :=
    if load_info (mem s) (header_of found) =? 0 then grow im s size (FreeList im)
    else (fst (ck_split im s found size), found) in
  let m := ck_setInfo (mem s) found (ck_size (mem s) found) in
  let m := fl_remove m found in
  (with_mem s m, PTR_ADD found H_IS).

Definition hcalloc (im : image) (s : state) (count size : Z) : state * Z :=
  let s := init im s in
  let n := imul count size in
  let '(s, p) := hmalloc im s n in
  let s := emit s (Memset p 0 (to_size n)) in
  (with_mem s (memset (mem s) p 0 (to_size n)), p).

Definition ck_print (s : state) (c : Z) : state :=
  let m := mem s in
  let size := Z.land (load_info m (header_of c)) H_SIZEMASK in
  let paySize := ck_payloadSize m c in
  let foot := ck_footerAddr m c in
  let f := Z.land (load_info m (header_of c)) H_FREE in
  let s := emit s (Printf "%schunk @%p, size %d (payload %d), %svalid."
                     [PStr (if negb (f =? 0) then "Free " else "Working ");
                      PPtr c; PInt size; PInt paySize;
                      PStr (if load_info m (header_of c) =? load_info m foot
                            then EmptyString else "in")]) in
  let s := if negb (load_info m (header_of c) =? load_info m foot)
           then emit s (Printf " (head: %d, foot: %d)\n"
                          [PInt (load_info m (header_of c)); PInt (load_info m foot)])
           else s in
  emit s (Putchar 10).

(** The test of [hfree] is [!(theChunk->header) & H_FREE]: [!] applies to
    the header before [&] does. *)
Definition hfree (im : image) (s : state) (m : Z) : state :=
  let s := init im s in
  let theChunk := PTR_ADD m (to_size (- H_IS)) in
  if negb (Z.land (lnot (load_info (mem s) (header_of theChunk))) H_FREE =? 0) then
    let s := ck_print s theChunk in
    let size := ck_size (mem s) theChunk in
    let mm := ck_setInfo (mem s) theChunk (Z.lor size H_FREE) in
    let mm := fl_insert mm (FreeList im) theChunk in
    with_mem s mm
  else
    emit s (Printf "Cannot free a chunk that's already free\n" []).

Definition hrealloc (im : image) (s : state) (p size : Z) : state * Z :=
  let s := init im s in
  let c := PTR_ADD p (to_size (- H_IS)) in
  if ck_payloadSize (mem s) c <? size then
    let '(s, q) := hmalloc im s size in
    let s := emit s (Memcpy q p (to_size size)) in
    let s := with_mem s (memcpy (mem s) q p (to_size size)) in
    let s := hfree im s p in
    (s, q)
  else (s, p).

Definition hstrdup (im : image) (s : state) (str : Z) : state * Z :=
  let n := strlen (mem s) str in
  let '(s, q) := hmalloc im s (to_int n) in
  let s := emit s (Strcpy q str) in
  (with_mem s (strcpy (mem s) q str), q).

(** [fl_print]: the count from [fl_size], then one numbered line for each
    chunk met along the [next] links.  Like [fl_size] it does not return on
    a list that never comes back to the anchor. *)
Fixpoint fl_print_loop (fuel : nat) (s : state) (l p i : Z) : option state :=
  match fuel with
  | O => None
  | S k =>
      if negb (p =? l) then
        let s := emit s (Printf " %d. " [PInt i]) in
        let s := ck_print s p in
        fl_print_loop k s l (load_ptr (mem s) (next_of p)) (iadd i 1)
      else Some s
  end.

Definition fl_print (fuel : nat) (im : image) (s : state) : option state :=
  let s := init im s in
  match fl_size fuel (mem s) (FreeList im) with
  | None => None
  | Some n =>
      let s := emit s (Printf "Free list contains %d chunks:\n" [PInt n]) in
      fl_print_loop fuel s (FreeList im)
        (load_ptr (mem s) (next_of (FreeList im))) 0
  end.

(** The inner loop of [hprint]: chunk after chunk until a word whose size
    bits are zero; the answer is the state and that word's address. *)
Fixpoint hprint_chunks (fuel : nat) (s : state) (p : Z) : option (state * Z) :=
  match fuel with
  | O => None
  | S k =>
      let i := ck_size (mem s) p in
      if negb (i =? 0) then
        let s := emit s (Printf "%p: " [PPtr p]) in
        let s := ck_print s p in
        hprint_chunks k s (PTR_ADD p i)
      else Some (s, p)
  end.

(** The outer loop of [hprint].  When the word at [p] is not zero the body
    does nothing and [p] stays where it is. *)
Fixpoint hprint_loop (fuel : nat) (s : state) (p : Z) : option state :=
  match fuel with
  | O => None
  | S k =>
      if p <? HWM s then
        let i := load_info (mem s) p in
        if i =? 0 then
          let s := emit s (Printf "%p: base dummy\n" [PPtr p]) in
          let p := PTR_ADD p H_IS in
          match hprint_chunks k s p with
          | None => None
          | Some (s, p) =>
              let s := emit s (Printf "%p: top dummy\n" [PPtr p]) in
              hprint_loop k s (PTR_ADD p H_IS)
          end
        else hprint_loop k s p
      else Some s
  end.

Definition hprint (fuel : nat) (im : image) (s : state) : option state :=
  let s := init im s in
  hprint_loop fuel s (BASE s).

(** The chunks on a list, in the order [fl_print] and [fl_size] meet them:
    from [l->next] along the [next] links until [l] comes round again. *)
Fixpoint fl_chunks_loop (fuel : nat) (m : gmap Z Z) (l p : Z) : option (list Z) :=
  match fuel with
  | O => None
  | S k =>
      if negb (p =? l)
      then option_map (cons p) (fl_chunks_loop k m l (load_ptr m (next_of p)))
      else Some []
  end.

Definition fl_chunks (fuel : nat) (m : gmap Z Z) (l : Z) : option (list Z) :=
  fl_chunks_loop fuel m l (load_ptr m (next_of l)).

(** The payload pointer handed to the caller, and back. *)
Definition payload_of (c : Z) : Z := PTR_ADD c H_IS.
Definition chunk_of (p : Z) : Z := PTR_ADD p (to_size (- H_IS)).

(** ** What [hmalloc] relies on when it is called *)

(** The first chunk of the free list, if there is one, lies above the
    anchor inside the claimed region, is at least a minimum chunk, has the
    anchor as its [prev], and its successor does not overlap it. *)
Definition head_ok (im : image) (s : state) : Prop :=
  let X := load_ptr (mem s) (next_of (FreeList im)) in
  let N := load_ptr (mem s) (next_of X) in
  X = FreeList im \/
  (FreeList im + 20 <= X /\
   H_MINCHUNK <= ck_size (mem s) X /\
   X + ck_size (mem s) X <= brk s /\
   load_ptr (mem s) (prev_of X) = FreeList im /\
   (N = FreeList im \/
    (FreeList im + 20 <= N /\ (N + 20 <= X \/ X + ck_size (mem s) X <= N)))).

(** [init] has run, the page size is a positive multiple of 8, the anchor
    is a zero-tagged node below the break, and the break leaves room. *)
Definition heap_ready (im : image) (s : state) : Prop :=
  BASE s <> 0 /\
  0 < PAGE_SIZE s /\ (8 | PAGE_SIZE s) /\
  0 <= FreeList im /\ FreeList im + 20 <= brk s /\
  brk s + 2 ^ 31 <= 2 ^ 64 /\
  load_info (mem s) (header_of (FreeList im)) = 0 /\
  head_ok im s.

(** ** Predicates on lists of nodes *)

(** Two list nodes (a tag and two links, 20 bytes each) that do not
    overlap. *)
Definition apart (a b : Z) : Prop := a + 20 <= b \/ b + 20 <= a.

Fixpoint all_apart (xs : list Z) : Prop :=
  match xs with
  | [] => True
  | x :: r => Forall (apart x) r /\ all_apart r
  end.

(** [xs] are the nodes met from [p] along the [next] links until [l]. *)
Fixpoint chain (m : gmap Z Z) (l p : Z) (xs : list Z) : Prop :=
  match xs with
  | [] => p = l
  | x :: r => p = x /\ x <> l /\ chain m l (load_ptr m (next_of x)) r
  end.

(** ** The heap as a list of segments *)

(** Chunks laid end to end from [p], each of positive size, up to the word
    [q] whose size bits are zero. *)
Fixpoint row (m : gmap Z Z) (p : Z) (cs : list Z) (q : Z) : Prop :=
  match cs with
  | [] => p = q /\ ck_size m q = 0
  | c :: r => p = c /\ 0 < ck_size m c /\ row m (c + ck_size m c) r q
  end.

(** A segment: a zero word at [seg_base], a row of chunks behind it, and
    the word at [seg_top] that ends the row. *)
Record segment := Segment {
  seg_base : Z;
  seg_chunks : list Z;
  seg_top : Z
}.

(** Segments side by side from [p] up to [hwm]. *)
Fixpoint segments (m : gmap Z Z) (p : Z) (segs : list segment) (hwm : Z) : Prop :=
  match segs with
  | [] => p = hwm
  | g :: r =>
      p = seg_base g /\ p < hwm /\ load_info m p = 0 /\
      row m (p + 4) (seg_chunks g) (seg_top g) /\
      segments m (seg_top g + 4) r hwm
  end.

(** ** What the two dumps write, for given lists *)

(** The lines of [fl_print] for the chunks [xs], numbered from [i]. *)
Fixpoint listing (s : state) (i : Z) (xs : list Z) : state :=
  match xs with
  | [] => s
  | x :: r => listing (ck_print (emit s (Printf " %d. " [PInt i])) x) (i + 1) r
  end.

(** The lines of [hprint] for a row of chunks, and for a list of
    segments. *)
Fixpoint print_row (s : state) (cs : list Z) : state :=
  match cs with
  | [] => s
  | c :: r => print_row (ck_print (emit s (Printf "%p: " [PPtr c])) c) r
  end.

Fixpoint print_segments (s : state) (segs : list segment) : state :=
  match segs with
  | [] => s
  | g :: r =>
      let s := emit s (Printf "%p: base dummy\n" [PPtr (seg_base g)]) in
      let s := print_row s (seg_chunks g) in
      let s := emit s (Printf "%p: top dummy\n" [PPtr (seg_top g)]) in
      print_segments s r
  end.

Definition chunk_count (segs : list segment) : nat :=
  length (concat (map seg_chunks segs)).

(** ** Calls through the public interface *)

Inductive call :=
| Hmalloc (size : Z)
| Hcalloc (count size : Z)
| Hrealloc (p size : Z)
| Hfree (p : Z)
| Hstrdup (str : Z).

Definition run_call (im : image) (s : state) (c : call) : state :=
  match c with
  | Hmalloc n => fst (hmalloc im s n)
  | Hcalloc k n => fst (hcalloc im s k n)
  | Hrealloc p n => fst (hrealloc im s p n)
  | Hfree p => hfree im s p
  | Hstrdup str => fst (hstrdup im s str)
  end.

Definition run_calls (im : image) (s : state) (cs : list call) : state :=
  fold_left (run_call im) cs s.

(** Initialised, and nothing on the free list. *)
Definition quiet (im : image) (s : state) : Prop :=
  heap_ready im s /\ load_ptr (mem s) (next_of (FreeList im)) = FreeList im.

(** What a caller owes.  A size is not negative and leaves room in an
    [int] and above the break; a pointer given back carries a non-zero tag,
    and the one given to [hrealloc] lies between the anchor and the
    break. *)
Definition size_ok (s : state) (n : Z) : Prop :=
  0 <= n /\ n + 32 + PAGE_SIZE s < 2 ^ 31 /\ brk s + 2 ^ 32 <= 2 ^ 64.

Definition call_ok (im : image) (s : state) (c : call) : Prop :=
  match c with
  | Hmalloc n => size_ok s n
  | Hcalloc k n => size_ok s (imul k n)
  | Hrealloc p n =>
      size_ok s n /\ FreeList im + 24 <= p <= brk s /\
      load_info (mem s) (header_of (chunk_of p)) <> 0
  | Hfree p => load_info (mem s) (header_of (chunk_of p)) <> 0
  | Hstrdup str => size_ok s (strlen (mem s) str)
  end.

Fixpoint calls_ok (im : image) (s : state) (cs : list call) : Prop :=
  match cs with
  | [] => True
  | c :: r => call_ok im s c /\ calls_ok im (run_call im s c) r
  end.

(** ** Concrete processes used as test inputs *)

Module Scenario.

(** [FreeList] at 0x601060, 4096-byte pages, initial break at 0x602000. *)
Definition im0 : image := Image 6295648 4096 false.
Definition FL0 : Z := FreeList im0.

(** Before the first call: nothing initialised, memory never written. *)
Definition fresh : state := State ∅ 6299648 0 0 0 0 [].

(** After a first [hmalloc(16)]: one page claimed at 0x602000, the free
    list empty.  The chunks of the heaps below are laid out in that page. *)
Definition arena : state := fst (hmalloc im0 fresh 16).


(** Tag [c] as a free chunk of [sz] bytes and put it on the free list. *)
Definition put_free (m : gmap Z Z) (c sz : Z) : gmap Z Z :=
  fl_insert (ck_setInfo m c (Z.lor sz H_FREE)) FL0 c.

(** Three free chunks side by side, payload capacities 16, 64 and 128. *)
Definition c16 : Z := 6299652.
Definition c64 : Z := c16 + 24.
Definition c128 : Z := c64 + 72.

(** Listed smallest first, and listed largest first. *)
Definition heap_small_first : gmap Z Z :=
  put_free (put_free (put_free (mem arena) c128 136) c64 72) c16 24.
Definition heap_large_first : gmap Z Z :=
  put_free (put_free (put_free (mem arena) c16 24) c64 72) c128 136.

(** Two adjacent free chunks (24 and 72 bytes), the lower one at the head
    of the list, and the same two with the upper one at the head. *)
Definition heap_pair_low_first : gmap Z Z :=
  put_free (put_free (mem arena) c64 72) c16 24.
Definition heap_pair_high_first : gmap Z Z :=
  put_free (put_free (mem arena) c16 24) c64 72.

(** One in-use chunk of 24 bytes (payload 16), free list empty. *)
Definition heap_one_small : state :=
  with_mem arena (ck_setInfo (mem arena) c16 24).

(** One free chunk filling the page, on the free list. *)
Definition heap_one_page : state :=
  with_mem arena (put_free (mem arena) c16 4088).

(** A string of 4080 letters 'a' at 0x401000, heap not yet initialised. *)
Definition str4080 : Z := 4198400.
Definition fresh_with_string : state :=
  State (memset ∅ str4080 97 4080) 6299648 0 0 0 0 [].

(** The two letters of the string hi and its terminator, in the block of
    [arena]. *)
Definition arena_text : state :=
  with_mem arena
    (store8 (store8 (store8 (mem arena) 6299656 104) 6299657 105) 6299658 0).

End Scenario.

(** ** Basic facts about the integers and the memory *)

Section IntFacts.

Lemma to_int_id x : int_range x -> to_int x = x.
Proof.
  unfold int_range, to_int. intros H.
  rewrite Z.mod_small by lia. lia.
Qed.

Lemma to_int_range x : int_range (to_int x).
Proof.
  unfold int_range, to_int.
  pose proof (Z.mod_pos_bound (x + 2 ^ 31) (2 ^ 32)). lia.
Qed.

Lemma to_int_mod x : to_int (x mod 2 ^ 32) = to_int x.
Proof.
  unfold to_int.
  rewrite Zplus_mod_idemp_l. reflexivity.
Qed.

Lemma to_int_to_size x : to_int (to_size x) = to_int x.
Proof.
  unfold to_int, to_size.
  f_equal.
  rewrite <- (Zplus_mod_idemp_l x), <- (Zplus_mod_idemp_l (x mod 2 ^ 64)).
  f_equal. f_equal.
  apply Z.mod_mod_divide. exists (2 ^ 32). reflexivity.
Qed.

Lemma to_size_id x : size_range x -> to_size x = x.
Proof. unfold size_range, to_size. intros H. apply Z.mod_small. lia. Qed.

Lemma to_size_range x : size_range (to_size x).
Proof. unfold size_range, to_size. apply Z.mod_pos_bound. lia. Qed.

Lemma to_size_add_l x y : to_size (to_size x + y) = to_size (x + y).
Proof. unfold to_size. apply Zplus_mod_idemp_l. Qed.

Lemma to_size_add_r x y : to_size (x + to_size y) = to_size (x + y).
Proof. unfold to_size. apply Zplus_mod_idemp_r. Qed.

Lemma to_size_sub_l x y : to_size (to_size x - y) = to_size (x - y).
Proof. unfold to_size. apply Zminus_mod_idemp_l. Qed.

Lemma to_size_sub_r x y : to_size (x - to_size y) = to_size (x - y).
Proof. unfold to_size. apply Zminus_mod_idemp_r. Qed.

(** A pointer moved by a converted (possibly negative) offset. *)
Lemma PTR_ADD_to_size p i : PTR_ADD p (to_size i) = to_size (p + i).
Proof. unfold PTR_ADD. apply to_size_add_r. Qed.

Lemma PTR_ADD_small p i : size_range (p + i) -> PTR_ADD p i = p + i.
Proof. intros H. unfold PTR_ADD. by apply to_size_id. Qed.

Lemma ssub_to_size x y : ssub x y = to_size (x - y).
Proof. unfold ssub. by rewrite to_size_sub_l, to_size_sub_r. Qed.

Lemma sadd_to_size x y : sadd x y = to_size (x + y).
Proof. unfold sadd. by rewrite to_size_add_l, to_size_add_r. Qed.

(** Masking with [H_SIZEMASK] rounds down to a multiple of 8; setting
    [H_FREE] adds one to an even tag. *)
Lemma land_sizemask x : Z.land x H_SIZEMASK = 8 * (x / 8).
Proof.
  unfold H_SIZEMASK. change 7 with (Z.ones 3).
  rewrite <- Z.ldiff_land, Z.ldiff_ones_r by lia.
  rewrite Z.shiftl_mul_pow2, Z.shiftr_div_pow2 by lia.
  change (2 ^ 3) with 8. lia.
Qed.

Lemma land_free x : Z.land x H_FREE = x mod 2.
Proof. unfold H_FREE. change 1 with (Z.ones 1). by rewrite Z.land_ones by lia. Qed.

Lemma lor_free x : Z.lor x H_FREE = x + 1 - x mod 2.
Proof.
  pose proof (Z.add_lor_land x H_FREE) as H.
  rewrite land_free in H. unfold H_FREE in *. lia.
Qed.

Lemma sizemask_mult8 x : (8 | x) -> Z.land x H_SIZEMASK = x.
Proof. intros [k ->]. rewrite land_sizemask, Z.div_mul by lia. lia. Qed.

Lemma lor_free_mult8 x : (8 | x) -> Z.lor x H_FREE = x + 1.
Proof.
  intros [k ->]. rewrite lor_free.
  replace (k * 8) with ((k * 4) * 2) by lia. rewrite Z.mod_mul by lia. lia.
Qed.

Lemma sizemask_free_mult8 x : (8 | x) -> Z.land (x + 1) H_SIZEMASK = x.
Proof.
  intros [k ->]. rewrite land_sizemask.
  rewrite Z.add_comm, Z.div_add by lia. change (1 / 8) with 0. lia.
Qed.

Lemma sizemask_range x : int_range x -> int_range (Z.land x H_SIZEMASK).
Proof.
  unfold int_range. intros H. rewrite land_sizemask.
  pose proof (Z.mul_div_le x 8). pose proof (Z.mod_pos_bound x 8).
  pose proof (Z.div_mod x 8).
  assert (- 2 ^ 31 = 8 * (- 2 ^ 28)) as Hm by reflexivity.
  assert (- 2 ^ 28 <= x / 8) by (apply Z.div_le_lower_bound; lia).
  lia.
Qed.

End IntFacts.
Section MemFacts.

Implicit Types (m : gmap Z Z) (a b v : Z) (n k : nat).

Lemma load8_store8_same m a v : load8 (store8 m a v) a = v mod 256.
Proof. unfold load8, store8. rewrite lookup_insert_eq. simpl. apply Z.mod_mod. lia. Qed.

Lemma load8_range m a : 0 <= load8 m a < 256.
Proof. unfold load8. apply Z.mod_pos_bound. lia. Qed.

Lemma load8_store8_other m a b v : a <> b -> load8 (store8 m a v) b = load8 m b.
Proof. intros H. unfold load8, store8. by rewrite lookup_insert_ne. Qed.

Lemma load8_storeN_other n : forall m a b v,
  b < a \/ a + Z.of_nat n <= b -> load8 (storeN n m a v) b = load8 m b.
Proof.
  induction n as [|n IH]; intros m a b v H; simpl; [done|].
  rewrite IH by lia. apply load8_store8_other. lia.
Qed.

(** A store leaves every load from a disjoint range alone. *)
Lemma loadN_storeN_other k : forall n m a b v,
  b + Z.of_nat k <= a \/ a + Z.of_nat n <= b ->
  loadN k (storeN n m a v) b = loadN k m b.
Proof.
  induction k as [|k IH]; intros n m a b v H; simpl; [done|].
  rewrite IH by lia. rewrite load8_storeN_other by lia. done.
Qed.

Lemma loadN_store8_other k : forall m a b v,
  a < b \/ b + Z.of_nat k <= a ->
  loadN k (store8 m a v) b = loadN k m b.
Proof.
  induction k as [|k IH]; intros m a b v H; simpl; [done|].
  rewrite IH by lia. rewrite load8_store8_other by lia. done.
Qed.

(** Reading back what was just stored gives the low [8 n] bits. *)
Lemma loadN_storeN_same n : forall m a v,
  loadN n (storeN n m a v) a = v mod 256 ^ Z.of_nat n.
Proof.
  induction n as [|n IH]; intros m a v.
  - simpl. by rewrite Z.mod_1_r.
  - cbn [loadN storeN].
    rewrite load8_storeN_other by lia.
    rewrite load8_store8_same, IH.
    rewrite Nat2Z.inj_succ, Z.pow_succ_r by lia.
    rewrite Z.rem_mul_r by lia. done.
Qed.

Lemma loadN_range n : forall m a, 0 <= loadN n m a < 256 ^ Z.of_nat n.
Proof.
  induction n as [|n IH]; intros m a; simpl loadN.
  - simpl. lia.
  - rewrite Nat2Z.inj_succ, Z.pow_succ_r by lia.
    specialize (IH m (a + 1)). pose proof (load8_range m a). lia.
Qed.

Lemma load_ptr_range m a : size_range (load_ptr m a).
Proof. apply (loadN_range 8). Qed.

Lemma load_info_range m a : int_range (load_info m a).
Proof. apply to_int_range. Qed.

Lemma load_info_store_info_same m a v :
  load_info (store_info m a v) a = to_int v.
Proof.
  unfold load_info, store_info. rewrite loadN_storeN_same.
  change (256 ^ Z.of_nat 4) with (2 ^ 32). apply to_int_mod.
Qed.

Lemma load_ptr_store_ptr_same m a v :
  load_ptr (store_ptr m a v) a = to_size v.
Proof. unfold load_ptr, store_ptr. by rewrite loadN_storeN_same. Qed.

Lemma load_info_store_info_other m a b v :
  b + 4 <= a \/ a + 4 <= b -> load_info (store_info m a v) b = load_info m b.
Proof.
  intros H. unfold load_info, store_info.
  by rewrite loadN_storeN_other by (simpl; lia).
Qed.

Lemma load_info_store_ptr_other m a b v :
  b + 4 <= a \/ a + 8 <= b -> load_info (store_ptr m a v) b = load_info m b.
Proof.
  intros H. unfold load_info, store_ptr.
  by rewrite loadN_storeN_other by (simpl; lia).
Qed.

Lemma load_ptr_store_info_other m a b v :
  b + 8 <= a \/ a + 4 <= b -> load_ptr (store_info m a v) b = load_ptr m b.
Proof.
  intros H. unfold load_ptr, store_info.
  by rewrite loadN_storeN_other by (simpl; lia).
Qed.

Lemma load_ptr_store_ptr_other m a b v :
  b + 8 <= a \/ a + 8 <= b -> load_ptr (store_ptr m a v) b = load_ptr m b.
Proof.
  intros H. unfold load_ptr, store_ptr.
  by rewrite loadN_storeN_other by (simpl; lia).
Qed.

End MemFacts.

(** ** Chunk tags *)

Section TagFacts.

Implicit Types (m : gmap Z Z) (c i : Z).

Lemma ck_size_range m c : int_range (ck_size m c).
Proof. apply sizemask_range, to_int_range. Qed.

Lemma ck_size_mult8 m c : (8 | ck_size m c).
Proof. unfold ck_size. rewrite land_sizemask. by exists (load_info m (header_of c) / 8); lia. Qed.

Lemma footer_for_apart c i :
  size_range c -> c + 4 <= footer_for c i \/ footer_for c i + 4 <= c.
Proof.
  intros Hc. unfold footer_for, PTR_ADD, H_IS.
  rewrite ssub_to_size, to_size_add_r, land_sizemask.
  unfold to_size, size_range in *.
  set (k := to_int i / 8).
  pose proof (Z.div_mod (c + (8 * k - 4)) (2 ^ 64) ltac:(lia)) as Hdm.
  pose proof (Z.mod_pos_bound (c + (8 * k - 4)) (2 ^ 64) ltac:(lia)) as Hb.
  set (j := (c + (8 * k - 4)) / 2 ^ 64) in *.
  set (f := (c + (8 * k - 4)) mod 2 ^ 64) in *.
  change (2 ^ 64) with (8 * 2 ^ 61) in Hdm.
  lia.
Qed.

Lemma ck_footerAddr_store m c i :
  ck_footerAddr (store_info m (header_of c) i) c = footer_for c i.
Proof. unfold ck_footerAddr, footer_for. by rewrite load_info_store_info_same. Qed.

Lemma ck_setInfo_unfold m c i :
  ck_setInfo m c i = store_info (store_info m (header_of c) i) (footer_for c i) i.
Proof. unfold ck_setInfo. by rewrite ck_footerAddr_store. Qed.

(** [ck_setInfo] leaves the same tag in the header and in the footer that
    [ck_footerAddr] then finds. *)
Lemma ck_setInfo_sync m c i :
  size_range c ->
  load_info (ck_setInfo m c i) (header_of c) = to_int i /\
  ck_footerAddr (ck_setInfo m c i) c = footer_for c i /\
  load_info (ck_setInfo m c i) (footer_for c i) = to_int i.
Proof.
  intros Hc. pose proof (footer_for_apart c i Hc) as Hap.
  rewrite ck_setInfo_unfold. unfold header_of in *.
  assert (load_info (store_info (store_info m c i) (footer_for c i) i) c = to_int i) as Hh.
  { rewrite load_info_store_info_other by lia. apply load_info_store_info_same. }
  split; [done|]. split.
  - unfold ck_footerAddr, header_of. by rewrite Hh.
  - apply load_info_store_info_same.
Qed.

(** For a tag whose footer address does not wrap, the two stores. *)
Lemma footer_for_small c i :
  int_range i -> size_range (c + Z.land i H_SIZEMASK - 4) ->
  footer_for c i = c + Z.land i H_SIZEMASK - 4.
Proof.
  intros Hi Hr. unfold footer_for, PTR_ADD, H_IS.
  rewrite ssub_to_size, to_size_add_r, to_int_id by done.
  rewrite <- (to_size_id (c + Z.land i H_SIZEMASK - 4)) by done.
  f_equal. lia.
Qed.

Lemma ck_setInfo_small m c i :
  int_range i -> size_range (c + Z.land i H_SIZEMASK - 4) ->
  ck_setInfo m c i = store_info (store_info m c i) (c + Z.land i H_SIZEMASK - 4) i.
Proof. intros Hi Hr. by rewrite ck_setInfo_unfold, footer_for_small. Qed.

Lemma sizemask_tag sz f : (8 | sz) -> 0 <= f < 8 -> Z.land (sz + f) H_SIZEMASK = sz.
Proof.
  intros [k ->] Hf. rewrite land_sizemask.
  rewrite Z.add_comm, Z.div_add by lia. rewrite Z.div_small by lia. lia.
Qed.

(** A tag made of a size and flag bits: header at [c], footer in the last
    four bytes of the chunk. *)
Lemma ck_setInfo_tag m c sz f :
  (8 | sz) -> 0 <= f < 8 -> int_range (sz + f) -> size_range (c + sz - 4) ->
  ck_setInfo m c (sz + f) = store_info (store_info m c (sz + f)) (c + sz - 4) (sz + f).
Proof.
  intros H8 Hf Hi Hr.
  pose proof (sizemask_tag sz f H8 Hf) as E.
  rewrite ck_setInfo_small; rewrite ?E; done.
Qed.

Lemma ck_size_store m c sz f :
  (8 | sz) -> 0 <= f < 8 -> int_range (sz + f) ->
  load_info m (header_of c) = sz + f -> ck_size m c = sz.
Proof. intros H8 Hf Hi Hh. unfold ck_size. rewrite Hh. by apply sizemask_tag. Qed.

Lemma ck_setInfo_plain m c sz :
  (8 | sz) -> int_range sz -> size_range (c + sz - 4) ->
  ck_setInfo m c sz = store_info (store_info m c sz) (c + sz - 4) sz.
Proof.
  intros H8 Hi Hr. pose proof (ck_setInfo_tag m c sz 0 H8) as H.
  rewrite Z.add_0_r in H. apply H; [lia|done|done].
Qed.

End TagFacts.

(** ** Tactics for reading through a chain of stores *)

Section StoreChains.

Implicit Types (m : gmap Z Z) (a b v : Z).

Lemma load_info_store_info_eq m a b v :
  a = b -> int_range v -> load_info (store_info m a v) b = v.
Proof. intros -> Hv. by rewrite load_info_store_info_same, to_int_id. Qed.

Lemma load_ptr_store_ptr_eq m a b v :
  a = b -> size_range v -> load_ptr (store_ptr m a v) b = v.
Proof. intros -> Hv. by rewrite load_ptr_store_ptr_same, to_size_id. Qed.

Lemma store_info_congr m m' a a' v v' :
  m = m' -> a = a' -> v = v' -> store_info m a v = store_info m' a' v'.
Proof. by intros -> -> ->. Qed.

Lemma store_ptr_congr m m' a a' v v' :
  m = m' -> a = a' -> v = v' -> store_ptr m a v = store_ptr m' a' v'.
Proof. by intros -> -> ->. Qed.

End StoreChains.

Ltac range_solve := unfold int_range, size_range in *; lia.

Ltac mem_step :=
  first
    [ rewrite load_info_store_info_eq by range_solve
    | rewrite load_ptr_store_ptr_eq by range_solve
    | rewrite load_info_store_info_other by lia
    | rewrite load_info_store_ptr_other by lia
    | rewrite load_ptr_store_info_other by lia
    | rewrite load_ptr_store_ptr_other by lia ].

Ltac mem_simpl := repeat mem_step.

(** Two chains of the same stores, equal up to arithmetic on the addresses
    and the values. *)
Ltac chain_eq :=
  repeat first [ apply store_info_congr | apply store_ptr_congr ];
  first [ reflexivity | lia ].

(** ** Rounding a request up to whole pages *)

Section Pages.

Lemma page_round_spec P d :
  0 < P -> 0 <= d -> d + P < 2 ^ 31 ->
  imul (idiv (isub (iadd d P) 1) P) P = P * ((d + P - 1) / P).
Proof.
  intros HP Hd Hb. unfold imul, idiv, isub, iadd.
  rewrite (to_int_id (d + P)) by range_solve.
  rewrite (to_int_id (d + P - 1)) by range_solve.
  rewrite Z.quot_div_nonneg by lia.
  pose proof (Z.mul_div_le (d + P - 1) P HP).
  pose proof (Z.div_pos (d + P - 1) P ltac:(lia) HP).
  rewrite (to_int_id ((d + P - 1) / P)) by (unfold int_range; nia).
  rewrite to_int_id by (unfold int_range; nia). lia.
Qed.

Lemma page_round_bounds P d :
  0 < P -> 0 <= d ->
  d <= P * ((d + P - 1) / P) < d + P.
Proof.
  intros HP Hd.
  pose proof (Z.div_mod (d + P - 1) P ltac:(lia)).
  pose proof (Z.mod_pos_bound (d + P - 1) P HP). lia.
Qed.

Lemma init_live im s : BASE s <> 0 -> init im s = s.
Proof.
  intros H. unfold init.
  destruct (Z.eqb_spec (BASE s) 0) as [|_]; [done|]. done.
Qed.

(** The first [init] of a process leaves an empty list: the anchor is its
    own successor and predecessor, its tag is zero, and BASE and HWM are
    the break. *)
Lemma init_fresh im s :
  BASE s = 0 -> size_range (FreeList im) ->
  let s0 := init im s in
  BASE s0 = brk s /\ HWM s0 = brk s /\ brk s0 = brk s /\
  PAGE_SIZE s0 = sys_pagesize im /\
  trace s0 = Sbrk 0 :: trace s /\
  load_info (mem s0) (header_of (FreeList im)) = 0 /\
  load_ptr (mem s0) (prev_of (FreeList im)) = FreeList im /\
  load_ptr (mem s0) (next_of (FreeList im)) = FreeList im.
Proof.
  intros H0 Hfl. unfold init. rewrite H0.
  cbn [Z.eqb negb sbrk with_mem mem brk BASE HWM PAGE_SIZE debug trace].
  unfold header_of, prev_of, next_of.
  repeat split; try (rewrite ?Z.add_0_r; done); mem_simpl; done.
Qed.

(** A process that has not called the allocator yet is ready for its first
    request once [init] has run, whatever its memory holds. *)
Lemma fresh_ready im s :
  BASE s = 0 ->
  0 < sys_pagesize im -> (8 | sys_pagesize im) ->
  0 <= FreeList im -> FreeList im + 20 <= brk s -> brk s + 2 ^ 31 <= 2 ^ 64 ->
  heap_ready im (init im s).
Proof.
  intros H0 HP HP8 Hfl Hb Hbrk.
  assert (size_range (FreeList im)) as Hr.
  { pose proof (Z.pow_lt_mono_r 2 31 64). range_solve. }
  destruct (init_fresh im s H0 Hr) as (E1 & E2 & E3 & E4 & E5 & E6 & E7 & E8).
  unfold heap_ready, head_ok. rewrite E1, E3, E4, E6, E8.
  repeat split; first [done | lia | by left].
Qed.

Lemma init_idem im s : BASE (init im s) <> 0 -> init im (init im s) = init im s.
Proof. apply init_live. Qed.

Lemma hmalloc_after_init im s size :
  BASE (init im s) <> 0 -> hmalloc im s size = hmalloc im (init im s) size.
Proof. intros H. unfold hmalloc at 2. by rewrite init_live. Qed.

End Pages.

(** ** The test of [hfree] *)

Section Release.

Variables (im : image) (s : state) (p : Z).

(** [!header & H_FREE] is non-zero only for a zero header. *)
Lemma hfree_test_zero h : Z.land (lnot h) H_FREE <> 0 <-> h = 0.
Proof.
  unfold lnot. destruct (Z.eqb_spec h 0) as [->|Hne].
  - split; [done|]. intros _. by vm_compute.
  - split; [|done]. intros H. by vm_compute in H.
Qed.

(** Every chunk with a non-zero tag, in use or free, is turned away: the
    message is printed and nothing else changes. *)
Lemma hfree_nonzero_header :
  BASE s <> 0 ->
  load_info (mem s) (header_of (chunk_of p)) <> 0 ->
  hfree im s p = emit s (Printf "Cannot free a chunk that's already free\n" []).
Proof.
  intros Hlive Hh. unfold hfree. rewrite init_live by done.
  fold (chunk_of p).
  destruct (Z.eqb_spec (Z.land (lnot (load_info (mem s) (header_of (chunk_of p)))) H_FREE) 0)
    as [_|Hne]; [done|].
  apply hfree_test_zero in Hne. done.
Qed.

End Release.

(** ** The search of the free list *)

Section BestFit.

Variables (m : gmap Z Z) (l target : Z).

(** The search looks at the first chunk of the list and at nothing else. *)
Lemma fl_findBestFit_head :
  fl_findBestFit m l target =
    let X := load_ptr m (next_of l) in
    if (X =? l) || (ck_payloadSize m X <? target) then l else X.
Proof.
  unfold fl_findBestFit, bf_chain. cbn [bf_p bf_bestSoFar bf_bestExcess bf_excess].
  cbv zeta.
  destruct (Z.eqb_spec (load_ptr m (next_of l)) l) as [E|NE]; cbn [negb orb]; [done|].
  destruct (Z.ltb_spec (ck_payloadSize m (load_ptr m (next_of l))) target); [done|].
  destruct (Z.eqb_spec (ck_payloadSize m (load_ptr m (next_of l))) target); [done|].
  done.
Qed.

End BestFit.

(** ** Requests below the minimum payload *)

Section Clamp.

Variables (im : image) (s : state).

Lemma hmalloc_clamp size :
  0 <= size < H_MINPAYLOAD -> hmalloc im s size = hmalloc im s H_MINPAYLOAD.
Proof.
  intros Hs. unfold hmalloc.
  assert (sltb size H_MINPAYLOAD = true) as ->.
  { unfold sltb, H_MINPAYLOAD, H_PS in *. rewrite !to_size_id by range_solve. lia. }
  assert (sltb H_MINPAYLOAD H_MINPAYLOAD = false) as ->.
  { unfold sltb. lia. }
  reflexivity.
Qed.

Lemma hmalloc_max size :
  0 <= size < 2 ^ 64 -> hmalloc im s size = hmalloc im s (Z.max size H_MINPAYLOAD).
Proof.
  intros Hs. destruct (Z.lt_ge_cases size H_MINPAYLOAD).
  - rewrite Z.max_r by lia. apply hmalloc_clamp. lia.
  - by rewrite Z.max_l by lia.
Qed.

End Clamp.

(** ** The head of the free list *)

Section ListHead.

Variables (m : gmap Z Z) (l : Z).

Lemma fl_chunks_head fuel xs :
  fl_chunks fuel m l = Some xs ->
  let X := load_ptr m (next_of l) in
  (X = l /\ xs = []) \/ (X <> l /\ exists xs', xs = X :: xs').
Proof.
  unfold fl_chunks. destruct fuel as [|k]; [done|]. cbn [fl_chunks_loop].
  destruct (Z.eqb_spec (load_ptr m (next_of l)) l) as [E|NE]; cbn [negb].
  - intros [= <-]. by left.
  - destruct (fl_chunks_loop k m l _) as [ys|]; [|done].
    intros [= <-]. right. eauto.
Qed.


End ListHead.

(** ** A request that no free chunk serves: the break moves *)

Section GrowPath.

Variables (im : image) (s : state) (size : Z).

Hypothesis Hlive : BASE s <> 0.
Hypothesis Hpage : 0 < PAGE_SIZE s.
Hypothesis Hpage8 : (8 | PAGE_SIZE s).
Hypothesis Hsize : 16 <= size.
Hypothesis Hint : size + 16 + PAGE_SIZE s < 2 ^ 31.
Hypothesis Hfl : 0 <= FreeList im /\ FreeList im + 20 <= brk s.
Hypothesis Hbrk : brk s + 2 ^ 31 <= 2 ^ 64.
Hypothesis Hfirst :
  let X := load_ptr (mem s) (next_of (FreeList im)) in
  X = FreeList im \/ (FreeList im + 20 <= X /\ X + 20 <= brk s).

Lemma grow_run :
  let B := brk s in
  let D := PAGE_SIZE s * ((size + 16 + PAGE_SIZE s - 1) / PAGE_SIZE s) in
  let X := load_ptr (mem s) (next_of (FreeList im)) in
  let m1 := store_info (store_info (mem s) B 0) (B + D - 4) 0 in
  let m2 := store_info (store_info m1 (B + 4) (D - 7)) (B + D - 8) (D - 7) in
  let m3 := store_ptr (store_ptr m2 (B + 8) (FreeList im)) (B + 16) X in
  let m4 := store_ptr (store_ptr m3 (X + 4) (B + 4)) (FreeList im + 12) (B + 4) in
  grow im s size (FreeList im) =
    (State m4 (B + D) (BASE s) (B + D) (PAGE_SIZE s) (debug s)
           (Sbrk 0 :: Sbrk D :: trace s), B + 4).
Proof.
  intros B D X m1 m2 m3 m4.
  pose proof (page_round_bounds (PAGE_SIZE s) (size + 16) Hpage ltac:(lia)) as HD.
  fold D in HD.
  assert (8 | D) as HD8.
  { destruct Hpage8 as [k Hk]. exists (k * ((size + 16 + PAGE_SIZE s - 1) / PAGE_SIZE s)).
    unfold D. rewrite Hk at 1. lia. }
  unfold grow. rewrite init_live by done.
  assert (to_int (sadd size (4 * H_IS)) = size + 16) as ->.
  { rewrite sadd_to_size, to_int_to_size. apply to_int_id. unfold H_IS. range_solve. }
  rewrite page_round_spec by lia. fold D.
  cbn [sbrk mem brk BASE HWM PAGE_SIZE debug trace]. fold B.
  rewrite Z.add_0_r.
  rewrite PTR_ADD_to_size, (to_size_id (B + D + - H_IS)) by (unfold H_IS; range_solve).
  rewrite (PTR_ADD_small B H_IS) by (unfold H_IS; range_solve).
  unfold PTR_DIFF, H_IS.
  replace (B + D + - (4) - (B + 4)) with (D - 8) by lia.
  replace (B + D + - (4)) with (B + D - 4) by lia.
  rewrite (to_int_id (D - 8)) by range_solve.
  assert (8 | D - 8) as HD8' by (destruct HD8 as [k ->]; exists (k - 1); lia).
  rewrite lor_free_mult8 by done.
  rewrite ck_setInfo_tag by (done || range_solve).
  unfold fl_insert, with_mem, next_of, prev_of.
  cbn [mem brk BASE HWM PAGE_SIZE debug trace].
  assert (size_range X) as HX.
  { apply load_ptr_range. }
  unfold next_of in *. fold X in Hfirst |- *. cbv zeta in Hfirst.
  mem_simpl. fold X.
  mem_simpl. fold X.
  unfold m4, m3, m2, m1. f_equal. f_equal. chain_eq.
Qed.

(** What [grow] leaves behind: two zero sentinels, one free chunk between
    them, spliced in right after the anchor. *)
Lemma grow_post :
  let g := grow im s size (FreeList im) in
  let B := brk s in
  let D := brk (fst g) - brk s in
  let X := load_ptr (mem s) (next_of (FreeList im)) in
  (exists k, D = k * PAGE_SIZE s) /\
  size + 16 <= D < size + 16 + PAGE_SIZE s /\
  (8 | D) /\
  HWM (fst g) = brk (fst g) /\
  trace (fst g) = Sbrk 0 :: Sbrk D :: trace s /\
  snd g = B + 4 /\
  load_info (mem (fst g)) B = 0 /\
  load_info (mem (fst g)) (B + D - 4) = 0 /\
  load_info (mem (fst g)) (header_of (snd g)) = D - 8 + 1 /\
  ck_footerAddr (mem (fst g)) (snd g) = B + D - 8 /\
  load_info (mem (fst g)) (B + D - 8) = D - 8 + 1 /\
  load_ptr (mem (fst g)) (next_of (FreeList im)) = snd g /\
  load_ptr (mem (fst g)) (prev_of (snd g)) = FreeList im /\
  load_ptr (mem (fst g)) (next_of (snd g)) = X /\
  load_ptr (mem (fst g)) (prev_of X) = snd g.
Proof.
  rewrite grow_run. cbn [fst snd mem brk BASE HWM PAGE_SIZE debug trace].
  set (B := brk s).
  set (D0 := PAGE_SIZE s * ((size + 16 + PAGE_SIZE s - 1) / PAGE_SIZE s)).
  replace (B + D0 - B) with D0 by lia.
  pose proof (page_round_bounds (PAGE_SIZE s) (size + 16) Hpage ltac:(lia)) as HD.
  fold D0 in HD.
  assert (8 | D0) as HD8.
  { destruct Hpage8 as [k Hk]. exists (k * ((size + 16 + PAGE_SIZE s - 1) / PAGE_SIZE s)).
    unfold D0. rewrite Hk at 1. lia. }
  assert (8 | D0 - 8) as HD8' by (destruct HD8 as [k ->]; exists (k - 1); lia).
  cbv zeta in Hfirst |- *. unfold next_of, prev_of, header_of in *.
  set (X := load_ptr (mem s) (FreeList im + 12)) in *.
  assert (size_range X) as HX by apply load_ptr_range.
  set (mg := store_ptr _ (FreeList im + 12) (B + 4)).
  assert (load_info mg (B + 4) = D0 - 8 + 1) as Hh by (unfold mg; mem_simpl; lia).
  split. { exists ((size + 16 + PAGE_SIZE s - 1) / PAGE_SIZE s). unfold D0. lia. }
  split; [lia|]. do 4 (split; [done|]).
  split. { unfold mg. mem_simpl. done. }
  split. { unfold mg. mem_simpl. done. }
  split; [done|].
  split.
  { unfold ck_footerAddr, header_of. rewrite Hh, sizemask_tag by (done || lia).
    rewrite ssub_to_size, PTR_ADD_to_size. unfold H_IS. rewrite to_size_id by range_solve. lia. }
  split. { unfold mg. mem_simpl. lia. }
  split. { unfold mg. mem_simpl. done. }
  split. { unfold mg. mem_simpl. done. }
  split. { unfold mg. mem_simpl. done. }
  unfold mg. mem_simpl. done.
Qed.

Hypothesis Hmiss :
  load_info (mem s) (header_of (fl_findBestFit (mem s) (FreeList im) size)) = 0.

Lemma hmalloc_grow_run :
  let B := brk s in
  let D := PAGE_SIZE s * ((size + 16 + PAGE_SIZE s - 1) / PAGE_SIZE s) in
  let X := load_ptr (mem s) (next_of (FreeList im)) in
  let m1 := store_info (store_info (mem s) B 0) (B + D - 4) 0 in
  let m2 := store_info (store_info m1 (B + 4) (D - 7)) (B + D - 8) (D - 7) in
  let m3 := store_ptr (store_ptr m2 (B + 8) (FreeList im)) (B + 16) X in
  let m4 := store_ptr (store_ptr m3 (X + 4) (B + 4)) (FreeList im + 12) (B + 4) in
  let m5 := store_info (store_info m4 (B + 4) (D - 8)) (B + D - 8) (D - 8) in
  let m6 := store_ptr (store_ptr m5 (FreeList im + 12) X) (X + 4) (FreeList im) in
  hmalloc im s size =
    (State m6 (B + D) (BASE s) (B + D) (PAGE_SIZE s) (debug s)
           (Sbrk 0 :: Sbrk D :: trace s), B + 8).
Proof.
  intros B D X m1 m2 m3 m4 m5 m6.
  pose proof (page_round_bounds (PAGE_SIZE s) (size + 16) Hpage ltac:(lia)) as HD.
  fold D in HD.
  assert (8 | D) as HD8.
  { destruct Hpage8 as [k Hk]. exists (k * ((size + 16 + PAGE_SIZE s - 1) / PAGE_SIZE s)).
    unfold D. rewrite Hk at 1. lia. }
  assert (8 | D - 8) as HD8' by (destruct HD8 as [k ->]; exists (k - 1); lia).
  assert (size_range X) as HX by apply load_ptr_range.
  unfold hmalloc. rewrite init_live by done.
  assert (sltb size H_MINPAYLOAD = false) as ->.
  { unfold sltb, H_MINPAYLOAD, H_PS. rewrite !to_size_id by range_solve. lia. }
  rewrite Hmiss. cbn [Z.eqb]. rewrite grow_run. fold B D X m1 m2 m3 m4.
  cbn [mem brk BASE HWM PAGE_SIZE debug trace with_mem].
  assert (load_info m4 (B + 4) = D - 8 + 1) as Hh.
  { unfold m4, m3, m2, m1. cbv zeta in Hfirst. unfold next_of in *. fold X in Hfirst.
    mem_simpl. lia. }
  rewrite (ck_size_store m4 (B + 4) (D - 8) 1) by (done || range_solve).
  replace (D - 8) with (D - 8 + 0) at 1 by lia.
  rewrite ck_setInfo_tag by (done || range_solve).
  unfold fl_remove, prev_of, next_of, PTR_ADD, H_IS.
  rewrite (to_size_id (B + 4 + 4)) by range_solve.
  set (m5' := store_info (store_info m4 (B + 4) (D - 8 + 0)) (B + 4 + (D - 8) - 4) (D - 8 + 0)).
  cbv zeta in Hfirst. unfold next_of in *. fold X in Hfirst.
  assert (load_ptr m5' (B + 4 + 4) = FreeList im) as ->.
  { unfold m5', m4, m3, m2, m1. mem_simpl. done. }
  assert (load_ptr m5' (B + 4 + 12) = X) as ->.
  { unfold m5', m4, m3, m2, m1. mem_simpl. done. }
  mem_simpl.
  assert (load_ptr m5' (B + 4 + 4) = FreeList im) as ->.
  { unfold m5', m4, m3, m2, m1. mem_simpl. done. }
  assert (load_ptr m5' (B + 4 + 12) = X) as ->.
  { unfold m5', m4, m3, m2, m1. mem_simpl. done. }
  unfold m6, m5, m5', with_mem. cbn [mem brk BASE HWM PAGE_SIZE debug trace].
  f_equal; [|lia]. f_equal. chain_eq.
Qed.

(** What the caller of [hmalloc] finds after a miss. *)
Lemma hmalloc_grow_post :
  let r := hmalloc im s size in
  let B := brk s in
  let D := brk (fst r) - brk s in
  let X := load_ptr (mem s) (next_of (FreeList im)) in
  (exists k, D = k * PAGE_SIZE s) /\
  size + 16 <= D < size + 16 + PAGE_SIZE s /\
  snd r = B + 8 /\
  HWM (fst r) = brk (fst r) /\ BASE (fst r) = BASE s /\
  PAGE_SIZE (fst r) = PAGE_SIZE s /\
  trace (fst r) = Sbrk 0 :: Sbrk D :: trace s /\
  load_info (mem (fst r)) B = 0 /\
  load_info (mem (fst r)) (B + D - 4) = 0 /\
  load_info (mem (fst r)) (B + 4) = D - 8 /\
  load_info (mem (fst r)) (B + D - 8) = D - 8 /\
  ck_footerAddr (mem (fst r)) (B + 4) = B + D - 8 /\
  ck_payloadSize (mem (fst r)) (B + 4) = D - 16 /\
  load_ptr (mem (fst r)) (next_of (FreeList im)) = X /\
  load_ptr (mem (fst r)) (prev_of X) = FreeList im /\
  ck_size (mem (fst r)) (B + 4) = D - 8.
Proof.
  rewrite hmalloc_grow_run. cbn [fst snd mem brk BASE HWM PAGE_SIZE debug trace].
  set (B := brk s).
  set (D0 := PAGE_SIZE s * ((size + 16 + PAGE_SIZE s - 1) / PAGE_SIZE s)).
  replace (B + D0 - B) with D0 by lia.
  pose proof (page_round_bounds (PAGE_SIZE s) (size + 16) Hpage ltac:(lia)) as HD.
  fold D0 in HD.
  assert (8 | D0) as HD8.
  { destruct Hpage8 as [k Hk]. exists (k * ((size + 16 + PAGE_SIZE s - 1) / PAGE_SIZE s)).
    unfold D0. rewrite Hk at 1. lia. }
  assert (8 | D0 - 8) as HD8' by (destruct HD8 as [k ->]; exists (k - 1); lia).
  cbv zeta in Hfirst |- *. unfold next_of, prev_of in *.
  set (X := load_ptr (mem s) (FreeList im + 12)) in *.
  assert (size_range X) as HX by apply load_ptr_range.
  set (mf := store_ptr _ (X + 4) (FreeList im)).
  assert (load_info mf (B + 4) = D0 - 8) as Hh by (unfold mf; mem_simpl; done).
  split. { exists ((size + 16 + PAGE_SIZE s - 1) / PAGE_SIZE s). unfold D0. lia. }
  split; [lia|]. do 5 (split; [done|]).
  split. { unfold mf. mem_simpl. done. }
  split. { unfold mf. mem_simpl. done. }
  split; [done|].
  split. { unfold mf. mem_simpl. done. }
  split.
  { unfold ck_footerAddr, header_of. rewrite Hh, sizemask_mult8 by done.
    rewrite ssub_to_size, PTR_ADD_to_size. unfold H_IS. rewrite to_size_id by range_solve. lia. }
  split.
  { unfold ck_payloadSize, ck_size, header_of. rewrite Hh, sizemask_mult8 by done.
    rewrite ssub_to_size, to_int_to_size. unfold H_IS. rewrite to_int_id by range_solve. lia. }
  split. { unfold mf. mem_simpl. done. }
  split. { unfold mf. mem_simpl. done. }
  unfold ck_size, header_of. rewrite Hh. by apply sizemask_mult8.
Qed.

End GrowPath.

(** ** Splitting a chunk *)

Section Split.

Variables (im : image) (s : state) (c paysize : Z).

Hypothesis Hpay : 16 <= paysize < 2 ^ 31 - 16.
Hypothesis Hfit : 8 * ((paysize + 7) / 8) + 8 <= ck_size (mem s) c.
Hypothesis Hfl : 0 <= FreeList im /\ FreeList im + 20 <= c.
Hypothesis Hend : c + ck_size (mem s) c <= 2 ^ 64.
Hypothesis Hhead :
  let X := load_ptr (mem s) (next_of (FreeList im)) in
  X = FreeList im \/ X = c \/
  (FreeList im + 20 <= X /\ (X + 12 <= c \/ c + ck_size (mem s) c <= X + 4)).

Lemma split_round :
  to_int (smul (sdiv (ssub (sadd paysize H_PS) 1) H_PS) H_PS) = 8 * ((paysize + 7) / 8).
Proof.
  unfold smul, sdiv, H_PS. rewrite ssub_to_size, sadd_to_size.
  rewrite (to_size_id (paysize + 8)) by range_solve.
  rewrite (to_size_id (paysize + 8 - 1)) by range_solve.
  rewrite (to_size_id (paysize + 8 - 1)) by range_solve.
  rewrite (to_size_id 8) by range_solve.
  replace (paysize + 8 - 1) with (paysize + 7) by lia.
  pose proof (Z.mul_div_le (paysize + 7) 8 ltac:(lia)).
  pose proof (Z.div_pos (paysize + 7) 8 ltac:(lia) ltac:(lia)).
  rewrite (to_size_id ((paysize + 7) / 8)) by range_solve.
  rewrite to_size_id by range_solve.
  rewrite to_int_id by range_solve. lia.
Qed.

Lemma split_round_bounds :
  paysize <= 8 * ((paysize + 7) / 8) < paysize + 8.
Proof.
  pose proof (Z.div_mod (paysize + 7) 8 ltac:(lia)).
  pose proof (Z.mod_pos_bound (paysize + 7) 8 ltac:(lia)). lia.
Qed.

Lemma ck_split_keep :
  ck_size (mem s) c - (8 * ((paysize + 7) / 8) + 8) < H_MINCHUNK ->
  ck_split im s c paysize = (emit s (Printf "ck_split entered!\n" []), 0).
Proof.
  intros Hsmall. unfold ck_split.
  assert (sltb paysize H_MINPAYLOAD = false) as ->.
  { unfold sltb, H_MINPAYLOAD, H_PS. rewrite !to_size_id by range_solve. lia. }
  cbn [negb mem emit].
  rewrite split_round.
  pose proof split_round_bounds as Hps.
  set (ps := 8 * ((paysize + 7) / 8)) in *.
  pose proof (ck_size_range (mem s) c) as Hsz.
  rewrite sadd_to_size, to_int_to_size.
  unfold H_IS. rewrite (to_int_id (ps + 2 * 4)) by range_solve.
  unfold isub. rewrite to_int_id by range_solve.
  assert (sltb (ck_size (mem s) c - (ps + 2 * 4)) H_MINCHUNK = true) as ->.
  { unfold sltb, H_MINCHUNK, H_MINPAYLOAD, H_PS, H_IS in *.
    rewrite !to_size_id by range_solve. lia. }
  done.
Qed.

Lemma ck_split_run :
  let ps := 8 * ((paysize + 7) / 8) in
  let sz := ck_size (mem s) c in
  let X := load_ptr (mem s) (next_of (FreeList im)) in
  let d := c + ps + 8 in
  H_MINCHUNK <= sz - (ps + 8) ->
  let m1 := store_info (store_info (mem s) c (ps + 8)) (c + ps + 4) (ps + 8) in
  let m2 := store_info (store_info m1 d (sz - ps - 7)) (c + sz - 4) (sz - ps - 7) in
  let m3 := store_ptr (store_ptr m2 (d + 4) (FreeList im)) (d + 12) X in
  let m4 := store_ptr (store_ptr m3 (X + 4) d) (FreeList im + 12) d in
  ck_split im s c paysize =
    (with_mem (emit s (Printf "ck_split entered!\n" [])) m4, d).
Proof.
  intros ps sz X d Hbig m1 m2 m3 m4. unfold ck_split.
  assert (sltb paysize H_MINPAYLOAD = false) as ->.
  { unfold sltb, H_MINPAYLOAD, H_PS. rewrite !to_size_id by range_solve. lia. }
  cbn [negb mem emit].
  rewrite split_round.
  pose proof split_round_bounds as Hps.
  fold ps sz in Hps, Hfit, Hend, Hhead |- *.
  pose proof (ck_size_range (mem s) c) as Hsz.
  pose proof (ck_size_mult8 (mem s) c) as Hsz8. fold sz in Hsz, Hsz8.
  assert (8 | ps) as Hps8 by (exists ((paysize + 7) / 8); unfold ps; lia).
  rewrite sadd_to_size, to_int_to_size.
  unfold H_IS. rewrite (to_int_id (ps + 2 * 4)) by range_solve.
  unfold isub. rewrite to_int_id by range_solve.
  unfold H_MINCHUNK, H_MINPAYLOAD, H_PS, H_IS in Hbig.
  assert (sltb (sz - (ps + 2 * 4)) H_MINCHUNK = false) as ->.
  { unfold sltb, H_MINCHUNK, H_MINPAYLOAD, H_PS, H_IS in *.
    rewrite !to_size_id by range_solve. lia. }
  assert (8 | ps + 8) as Hc8 by (destruct Hps8 as [k ->]; exists (k + 1); lia).
  assert (8 | sz - (ps + 2 * 4)) as Hd8.
  { destruct Hps8 as [k Hk], Hsz8 as [j Hj]. exists (j - k - 1). lia. }
  assert (PTR_ADD (ck_footerAddr (ck_setInfo (mem s) c (ps + 2 * 4)) c) 4 = d) as ->.
  { destruct (ck_setInfo_sync (mem s) c (ps + 2 * 4)) as (_ & -> & _); [range_solve|].
    rewrite footer_for_small; rewrite ?sizemask_mult8 by (by replace (ps + 2 * 4) with (ps + 8) by lia);
      [|range_solve|range_solve].
    rewrite PTR_ADD_small by range_solve. unfold d. lia. }
  replace (ps + 2 * 4) with (ps + 8 + 0) by lia.
  rewrite ck_setInfo_tag by (done || range_solve).
  rewrite lor_free_mult8 by (by replace (ps + 8 + 0) with (ps + 2 * 4) by lia).
  rewrite ck_setInfo_tag; [|by replace (ps + 8 + 0) with (ps + 2 * 4) by lia|lia|range_solve|range_solve].
  unfold fl_insert, prev_of, next_of in *. cbv zeta in Hhead. fold X in Hhead.
  assert (size_range X) as HX by apply load_ptr_range.
  mem_simpl. fold X. mem_simpl. fold X.
  unfold m4, m3, m2, m1. f_equal. f_equal. chain_eq.
Qed.

(** What [ck_split] does when the rounded request fits in the chunk: it
    gives up exactly when the rest would be below the minimum chunk, and
    otherwise leaves two chunks with agreeing tags whose sizes add up to
    the old size, the second one free and at the head of the list. *)
Lemma ck_split_post :
  let r := ck_split im s c paysize in
  let m := mem (fst r) in
  let ps := 8 * ((paysize + 7) / 8) in
  let sz := ck_size (mem s) c in
  let X := load_ptr (mem s) (next_of (FreeList im)) in
  (sz - (ps + 8) < H_MINCHUNK ->
     r = (emit s (Printf "ck_split entered!\n" []), 0)) /\
  (H_MINCHUNK <= sz - (ps + 8) ->
     let d := snd r in
     d = c + ps + 8 /\
     load_info m (header_of c) = ps + 8 /\
     ck_footerAddr m c = d - 4 /\
     load_info m (d - 4) = ps + 8 /\
     ck_payloadSize m c = ps /\
     load_info m (header_of d) = Z.lor (sz - (ps + 8)) H_FREE /\
     ck_footerAddr m d = c + sz - 4 /\
     load_info m (c + sz - 4) = Z.lor (sz - (ps + 8)) H_FREE /\
     Z.land (load_info m (header_of d)) H_FREE = 1 /\
     ck_size m c + ck_size m d = sz /\
     load_ptr m (next_of (FreeList im)) = d /\
     load_ptr m (prev_of d) = FreeList im /\
     load_ptr m (next_of d) = X /\
     load_ptr m (prev_of X) = d).
Proof.
  intros r m ps sz X. split.
  { intros Hsmall. by apply ck_split_keep. }
  intros Hbig. unfold m, r. rewrite ck_split_run by done. fold ps sz X.
  cbn [fst snd mem emit with_mem brk BASE HWM PAGE_SIZE debug trace].
  pose proof (ck_size_range (mem s) c) as Hr.
  pose proof (ck_size_mult8 (mem s) c) as H8. fold sz in Hr, H8.
  pose proof split_round_bounds as Hps.
  cbv zeta in Hhead. fold X sz in Hhead. fold ps sz in Hps, Hfit, Hend.
  assert (8 | ps) as Hps8 by (exists ((paysize + 7) / 8); unfold ps; lia).
  assert (8 | ps + 8) as Hc8 by (destruct Hps8 as [k ->]; exists (k + 1); lia).
  assert (8 | sz - (ps + 8)) as Hd8.
  { destruct Hps8 as [k Hk], H8 as [j Hj]. exists (j - k - 1). lia. }
  assert (size_range X) as HX by apply load_ptr_range.
  unfold H_MINCHUNK, H_MINPAYLOAD, H_PS, H_IS in *.
  unfold prev_of, next_of, header_of in *.
  set (d := c + ps + 8).
  set (mf := store_ptr _ (FreeList im + 12) d).
  assert (load_info mf c = ps + 8) as Hh by (unfold mf, d; mem_simpl; done).
  assert (load_info mf d = sz - (ps + 8) + 1) as Hhd by (unfold mf, d; mem_simpl; lia).
  assert (ck_size mf c = ps + 8) as Hcs.
  { unfold ck_size, header_of. rewrite Hh. by apply sizemask_mult8. }
  assert (ck_size mf d = sz - (ps + 8)) as Hcd.
  { unfold ck_size, header_of. rewrite Hhd. apply sizemask_tag; [done|lia]. }
  rewrite lor_free_mult8 by done.
  do 2 (split; [done|]).
  split.
  { unfold ck_footerAddr, header_of. rewrite Hh, sizemask_mult8 by done.
    rewrite ssub_to_size, PTR_ADD_to_size. unfold H_IS, d.
    rewrite to_size_id by range_solve. lia. }
  split; [unfold mf, d; mem_simpl; done|].
  split.
  { unfold ck_payloadSize, H_IS. rewrite Hcs, ssub_to_size, to_int_to_size.
    rewrite to_int_id by range_solve. lia. }
  split; [done|].
  split.
  { unfold ck_footerAddr, header_of. rewrite Hhd, sizemask_tag by (done || lia).
    rewrite ssub_to_size, PTR_ADD_to_size. unfold H_IS, d.
    rewrite to_size_id by range_solve. lia. }
  split; [unfold mf, d; mem_simpl; lia|].
  split.
  { rewrite Hhd, land_free. destruct Hd8 as [k Hk]. rewrite Hk.
    replace (k * 8 + 1) with (1 + (k * 4) * 2) by lia. by rewrite Z.mod_add. }
  split; [lia|].
  split; [unfold mf, d; mem_simpl; done|].
  split; [unfold mf, d; mem_simpl; done|].
  split; unfold mf, d; mem_simpl; done.
Qed.

End Split.

(** ** A request served by the first chunk of the list *)

Section FoundPath.

Variables (im : image) (s : state) (size : Z).

Hypothesis Hlive : BASE s <> 0.
Hypothesis Hsize : 16 <= size < 2 ^ 31 - 16.
Hypothesis Hhead : load_ptr (mem s) (next_of (FreeList im)) <> FreeList im.
Hypothesis Hfl :
  0 <= FreeList im /\ FreeList im + 20 <= load_ptr (mem s) (next_of (FreeList im)).
Hypothesis Hsz : H_MINCHUNK <= ck_size (mem s) (load_ptr (mem s) (next_of (FreeList im))).
Hypothesis Hend :
  let X := load_ptr (mem s) (next_of (FreeList im)) in
  X + ck_size (mem s) X <= 2 ^ 64.
Hypothesis Hfit :
  size <= ck_payloadSize (mem s) (load_ptr (mem s) (next_of (FreeList im))).
Hypothesis Hprev :
  let X := load_ptr (mem s) (next_of (FreeList im)) in
  load_ptr (mem s) (prev_of X) = FreeList im.
Hypothesis Hnext :
  let X := load_ptr (mem s) (next_of (FreeList im)) in
  let N := load_ptr (mem s) (next_of X) in
  N = FreeList im \/
  (FreeList im + 20 <= N /\ (N + 20 <= X \/ X + ck_size (mem s) X <= N)).

Lemma found_payload :
  let X := load_ptr (mem s) (next_of (FreeList im)) in
  ck_payloadSize (mem s) X = ck_size (mem s) X - 8.
Proof.
  intros X. unfold ck_payloadSize. fold X in Hsz.
  pose proof (ck_size_range (mem s) X).
  unfold H_MINCHUNK, H_MINPAYLOAD, H_PS, H_IS in *.
  rewrite ssub_to_size, to_int_to_size, to_int_id by range_solve. lia.
Qed.

Lemma found_head :
  fl_findBestFit (mem s) (FreeList im) size = load_ptr (mem s) (next_of (FreeList im)).
Proof.
  rewrite fl_findBestFit_head. cbv zeta.
  destruct (Z.eqb_spec (load_ptr (mem s) (next_of (FreeList im))) (FreeList im)); [done|].
  destruct (Z.ltb_spec (ck_payloadSize (mem s) (load_ptr (mem s) (next_of (FreeList im)))) size);
    [lia|done].
Qed.

Lemma found_header_nonzero :
  load_info (mem s) (header_of (load_ptr (mem s) (next_of (FreeList im)))) <> 0.
Proof.
  intros E. unfold ck_size in Hsz. rewrite E in Hsz.
  by vm_compute in Hsz.
Qed.

Lemma found_fits :
  let X := load_ptr (mem s) (next_of (FreeList im)) in
  8 * ((size + 7) / 8) + 8 <= ck_size (mem s) X.
Proof.
  intros X. pose proof found_payload as Hp. cbv zeta in Hp. fold X in Hp, Hfit.
  destruct (ck_size_mult8 (mem s) X) as [j Hj]. rewrite Hj in *.
  assert ((size + 7) / 8 < j); [|lia].
  apply Z.div_lt_upper_bound; lia.
Qed.

Lemma hmalloc_found_keep :
  let X := load_ptr (mem s) (next_of (FreeList im)) in
  let N := load_ptr (mem s) (next_of X) in
  let sz := ck_size (mem s) X in
  sz - (8 * ((size + 7) / 8) + 8) < H_MINCHUNK ->
  let m1 := store_info (store_info (mem s) X sz) (X + sz - 4) sz in
  let m2 := store_ptr (store_ptr m1 (FreeList im + 12) N) (N + 4) (FreeList im) in
  hmalloc im s size =
    (with_mem (emit s (Printf "ck_split entered!\n" [])) m2, X + 4).
Proof.
  intros X N sz Hsmall m1 m2. unfold hmalloc. rewrite init_live by done.
  assert (sltb size H_MINPAYLOAD = false) as ->.
  { unfold sltb, H_MINPAYLOAD, H_PS. rewrite !to_size_id by range_solve. lia. }
  rewrite found_head. fold X.
  destruct (Z.eqb_spec (load_info (mem s) (header_of X)) 0) as [E|_];
    [by apply found_header_nonzero in E|].
  rewrite (ck_split_keep im s X size Hsize found_fits Hsmall).
  cbn [fst mem emit with_mem brk BASE HWM PAGE_SIZE debug trace]. fold sz.
  pose proof (ck_size_range (mem s) X) as Hr.
  pose proof (ck_size_mult8 (mem s) X) as H8. fold sz in Hr, H8.
  cbv zeta in Hend, Hprev, Hnext. fold X in Hend, Hprev, Hnext, Hfl, Hsz.
  fold sz in Hend, Hnext, Hsz. fold N in Hnext.
  unfold H_MINCHUNK, H_MINPAYLOAD, H_PS, H_IS in *.
  rewrite ck_setInfo_plain by (done || range_solve).
  unfold fl_remove, prev_of, next_of, PTR_ADD in *.
  rewrite (to_size_id (X + 4)) by range_solve.
  assert (size_range N) as HN by apply load_ptr_range.
  repeat (progress (mem_simpl; rewrite ?Hprev; fold N)).
  unfold m2, m1. f_equal.
Qed.

Lemma hmalloc_found_split :
  let X := load_ptr (mem s) (next_of (FreeList im)) in
  let N := load_ptr (mem s) (next_of X) in
  let sz := ck_size (mem s) X in
  let ps := 8 * ((size + 7) / 8) in
  let d := X + ps + 8 in
  H_MINCHUNK <= sz - (ps + 8) ->
  let m1 := store_info (store_info (mem s) X (ps + 8)) (X + ps + 4) (ps + 8) in
  let m2 := store_info (store_info m1 d (sz - ps - 7)) (X + sz - 4) (sz - ps - 7) in
  let m3 := store_ptr (store_ptr m2 (d + 4) (FreeList im)) (d + 12) X in
  let m4 := store_ptr (store_ptr m3 (X + 4) d) (FreeList im + 12) d in
  let m5 := store_info (store_info m4 X (ps + 8)) (X + ps + 4) (ps + 8) in
  let m6 := store_ptr (store_ptr m5 (d + 12) N) (N + 4) d in
  hmalloc im s size =
    (with_mem (emit s (Printf "ck_split entered!\n" [])) m6, X + 4).
Proof.
  intros X N sz ps d Hbig m1 m2 m3 m4 m5 m6. unfold hmalloc. rewrite init_live by done.
  assert (sltb size H_MINPAYLOAD = false) as ->.
  { unfold sltb, H_MINPAYLOAD, H_PS. rewrite !to_size_id by range_solve. lia. }
  rewrite found_head. fold X.
  destruct (Z.eqb_spec (load_info (mem s) (header_of X)) 0) as [E|_];
    [by apply found_header_nonzero in E|].
  pose proof (ck_size_range (mem s) X) as Hr.
  pose proof (ck_size_mult8 (mem s) X) as H8. fold sz in Hr, H8.
  pose proof (split_round_bounds size) as Hps.
  pose proof found_fits as Hf.
  cbv zeta in Hend, Hprev, Hnext, Hf. fold X in Hend, Hprev, Hnext, Hfl, Hsz, Hf.
  fold sz in Hend, Hnext, Hsz, Hf. fold N in Hnext. fold ps in Hps, Hf.
  assert (8 | ps) as Hps8 by (exists ((size + 7) / 8); unfold ps; lia).
  assert (8 | ps + 8) as Hc8 by (destruct Hps8 as [k ->]; exists (k + 1); lia).
  rewrite (ck_split_run im s X size Hsize Hf Hfl Hend Hbig).
  fold X sz ps d m1 m2 m3 m4.
  cbn [fst mem emit with_mem brk BASE HWM PAGE_SIZE debug trace].
  unfold H_MINCHUNK, H_MINPAYLOAD, H_PS, H_IS in *.
  assert (size_range N) as HN by apply load_ptr_range.
  assert (load_info m4 (header_of X) = ps + 8 + 0) as Hh.
  { unfold m4, m3, m2, m1, d, header_of. mem_simpl. lia. }
  rewrite (ck_size_store m4 X (ps + 8) 0) by (done || range_solve).
  rewrite ck_setInfo_plain by (done || range_solve).
  unfold fl_remove, prev_of, next_of, PTR_ADD in *.
  rewrite (to_size_id (X + 4)) by range_solve.
  replace (X + (ps + 8) - 4) with (X + ps + 4) by lia. fold m5.
  assert (load_ptr m5 (X + 4) = d) as Hp5.
  { unfold m5, m4, m3, m2, m1, d. mem_simpl. done. }
  assert (load_ptr m5 (X + 12) = N) as Hn5.
  { unfold m5, m4, m3, m2, m1, d. mem_simpl. done. }
  rewrite Hp5, Hn5.
  assert (load_ptr (store_ptr m5 (d + 12) N) (X + 12) = N) as ->.
  { unfold d. mem_simpl. done. }
  assert (load_ptr (store_ptr m5 (d + 12) N) (X + 4) = d) as ->.
  { unfold d. mem_simpl. done. }
  done.
Qed.

(** What the caller of [hmalloc] finds after a hit: the first chunk of the
    list, in use, whole or trimmed to the rounded request. *)
Lemma hmalloc_found_post :
  let r := hmalloc im s size in
  let X := load_ptr (mem s) (next_of (FreeList im)) in
  let N := load_ptr (mem s) (next_of X) in
  let sz := ck_size (mem s) X in
  let ps := 8 * ((size + 7) / 8) in
  let d := X + ps + 8 in
  snd r = X + 4 /\
  brk (fst r) = brk s /\
  trace (fst r) = Printf "ck_split entered!\n" [] :: trace s /\
  size <= ck_payloadSize (mem (fst r)) X /\
  load_info (mem (fst r)) (header_of X) = ck_size (mem (fst r)) X /\
  load_info (mem (fst r)) (ck_footerAddr (mem (fst r)) X) = ck_size (mem (fst r)) X /\
  (sz - (ps + 8) < H_MINCHUNK ->
     ck_size (mem (fst r)) X = sz /\
     load_ptr (mem (fst r)) (next_of (FreeList im)) = N /\
     load_ptr (mem (fst r)) (prev_of N) = FreeList im) /\
  (H_MINCHUNK <= sz - (ps + 8) ->
     ck_payloadSize (mem (fst r)) X = ps /\
     load_info (mem (fst r)) (header_of d) = Z.lor (sz - (ps + 8)) H_FREE /\
     ck_footerAddr (mem (fst r)) d = X + sz - 4 /\
     load_info (mem (fst r)) (X + sz - 4) = Z.lor (sz - (ps + 8)) H_FREE /\
     ck_size (mem (fst r)) X + ck_size (mem (fst r)) d = sz /\
     load_ptr (mem (fst r)) (next_of (FreeList im)) = d /\
     load_ptr (mem (fst r)) (prev_of d) = FreeList im /\
     load_ptr (mem (fst r)) (next_of d) = N /\
     load_ptr (mem (fst r)) (prev_of N) = d).
Proof.
  intros r X N sz ps d.
  pose proof (ck_size_range (mem s) X) as Hr.
  pose proof (ck_size_mult8 (mem s) X) as H8. fold sz in Hr, H8.
  pose proof (split_round_bounds size) as Hps.
  pose proof found_fits as Hf.
  cbv zeta in Hend, Hprev, Hnext, Hf. fold X in Hend, Hprev, Hnext, Hfl, Hsz, Hf.
  fold sz in Hend, Hnext, Hsz, Hf. fold N in Hnext. fold ps in Hps, Hf.
  assert (8 | ps) as Hps8 by (exists ((size + 7) / 8); unfold ps; lia).
  assert (8 | ps + 8) as Hc8 by (destruct Hps8 as [k ->]; exists (k + 1); lia).
  assert (8 | sz - (ps + 8)) as Hd8.
  { destruct Hps8 as [k Hk], H8 as [j Hj]. exists (j - k - 1). lia. }
  assert (size_range N) as HN by apply load_ptr_range.
  destruct (Z.lt_ge_cases (sz - (ps + 8)) H_MINCHUNK) as [Hsmall|Hbig].
  - (* the chunk is handed out whole *)
    unfold r. rewrite hmalloc_found_keep by done. fold X N sz.
    cbn [fst snd mem emit with_mem brk BASE HWM PAGE_SIZE debug trace].
    unfold H_MINCHUNK, H_MINPAYLOAD, H_PS, H_IS in *.
    unfold prev_of, next_of, header_of in *.
    set (mf := store_ptr _ (N + 4) (FreeList im)).
    assert (load_info mf X = sz) as Hh by (unfold mf; mem_simpl; done).
    assert (ck_size mf X = sz) as Hcs.
    { unfold ck_size, header_of. rewrite Hh. by apply sizemask_mult8. }
    do 3 (split; [done|]).
    split.
    { unfold ck_payloadSize, H_IS. rewrite Hcs, ssub_to_size, to_int_to_size.
      rewrite to_int_id by range_solve. lia. }
    split; [by rewrite Hcs|].
    split.
    { unfold ck_footerAddr, header_of. rewrite Hh, Hcs, sizemask_mult8 by done.
      rewrite ssub_to_size, PTR_ADD_to_size. unfold H_IS.
      rewrite to_size_id by range_solve.
      unfold mf. mem_simpl. done. }
    split; [|intros; lia].
    intros _. split; [done|].
    split; unfold mf; mem_simpl; done.
  - (* the chunk is trimmed and the rest goes on the list *)
    unfold r. rewrite hmalloc_found_split by done. fold X N sz ps d.
    cbn [fst snd mem emit with_mem brk BASE HWM PAGE_SIZE debug trace].
    unfold H_MINCHUNK, H_MINPAYLOAD, H_PS, H_IS in *.
    unfold prev_of, next_of, header_of in *.
    set (mf := store_ptr _ (N + 4) d).
    assert (load_info mf X = ps + 8) as Hh by (unfold mf, d; mem_simpl; done).
    assert (ck_size mf X = ps + 8) as Hcs.
    { unfold ck_size, header_of. rewrite Hh. by apply sizemask_mult8. }
    assert (load_info mf d = sz - (ps + 8) + 1) as Hhd by (unfold mf, d; mem_simpl; lia).
    assert (ck_size mf d = sz - (ps + 8)) as Hcd.
    { unfold ck_size, header_of. rewrite Hhd. apply sizemask_tag; [done|lia]. }
    assert (ck_payloadSize mf X = ps) as Hpay.
    { unfold ck_payloadSize, H_IS. rewrite Hcs, ssub_to_size, to_int_to_size.
      rewrite to_int_id by range_solve. lia. }
    do 3 (split; [done|]).
    split; [lia|].
    split; [by rewrite Hcs|].
    split.
    { unfold ck_footerAddr, header_of. rewrite Hh, Hcs, sizemask_mult8 by done.
      rewrite ssub_to_size, PTR_ADD_to_size. unfold H_IS.
      rewrite to_size_id by range_solve.
      unfold mf, d. mem_simpl. done. }
    split; [intros; lia|].
    intros _. rewrite lor_free_mult8 by done.
    do 2 (split; [done|]).
    split.
    { unfold ck_footerAddr, header_of. rewrite Hhd, sizemask_tag by (done || lia).
      rewrite ssub_to_size, PTR_ADD_to_size. unfold H_IS, d.
      rewrite to_size_id by range_solve. lia. }
    split; [unfold mf, d; mem_simpl; lia|].
    split; [lia|].
    split; [unfold mf, d; mem_simpl; done|].
    split; [unfold mf, d; mem_simpl; done|].
    split; unfold mf, d; mem_simpl; done.
Qed.

End FoundPath.


(** ** Every request on a ready heap *)

Section Allocate.

Variables (im : image) (s : state) (size : Z).

Hypothesis Hready : heap_ready im (init im s).
Hypothesis Hsize : 0 <= size.
Hypothesis Hint : size + 32 + PAGE_SIZE (init im s) < 2 ^ 31.

(** The two ways [hmalloc] can go. *)
Lemma hmalloc_cases :
  let s0 := init im s in
  let need := Z.max size H_MINPAYLOAD in
  let X := load_ptr (mem s0) (next_of (FreeList im)) in
  (load_info (mem s0) (header_of (fl_findBestFit (mem s0) (FreeList im) need)) = 0 /\
   (X = FreeList im \/ ck_payloadSize (mem s0) X < need)) \/
  (X <> FreeList im /\ need <= ck_payloadSize (mem s0) X).
Proof.
  intros s0 need X.
  destruct Hready as (_ & _ & _ & _ & _ & _ & Hz & _). fold s0 in Hz.
  rewrite fl_findBestFit_head. cbv zeta. fold X.
  destruct (Z.eqb_spec X (FreeList im)) as [E|NE]; cbn [orb].
  { left. split; [done|by left]. }
  destruct (Z.ltb_spec (ck_payloadSize (mem s0) X) need).
  - left. split; [done|by right].
  - by right.
Qed.

(** The chunk handed out holds the request, clamped to the minimum
    payload, its two tags agree and carry no flag, and the pointer returned
    is four bytes past its header. *)
Lemma hmalloc_post :
  let r := hmalloc im s size in
  let c := chunk_of (snd r) in
  let m := mem (fst r) in
  snd r = payload_of c /\
  snd r = c + 4 /\
  size_range c /\
  Z.max size H_MINPAYLOAD <= ck_payloadSize m c /\
  load_info m (header_of c) = ck_size m c /\
  load_info m (ck_footerAddr m c) = ck_size m c.
Proof.
  intros r c m.
  destruct Hready as (Hlive & HP & HP8 & Hfl0 & Hflb & Hbrk & Hz & Hhead).
  set (s0 := init im s) in *.
  set (need := Z.max size H_MINPAYLOAD).
  assert (16 <= need) as Hneed by (unfold need, H_MINPAYLOAD, H_PS; lia).
  assert (need <= size + 16) as Hneed' by (unfold need, H_MINPAYLOAD, H_PS; lia).
  assert (r = hmalloc im s0 need) as Er.
  { unfold r, need. rewrite hmalloc_after_init by done. apply hmalloc_max.
    pose proof (Z.pow_lt_mono_r 2 31 64). lia. }
  unfold head_ok in Hhead. cbv zeta in Hhead.
  set (X := load_ptr (mem s0) (next_of (FreeList im))) in *.
  assert (size_range X) as HX by apply load_ptr_range.
  assert (forall a, size_range a -> a + 4 < 2 ^ 64 ->
            chunk_of (a + 4) = a /\ a + 4 = payload_of a) as Hback.
  { intros a Ha Ha'. unfold chunk_of, payload_of, H_IS.
    rewrite PTR_ADD_to_size, PTR_ADD_small by range_solve.
    rewrite to_size_id by range_solve. split; lia. }
  destruct hmalloc_cases as [[Hmiss Hwhy]|[HXne Hfit]];
    [fold s0 need X in Hmiss, Hwhy | fold s0 need X in HXne, Hfit].
  - (* grown *)
    assert (X = FreeList im \/ (FreeList im + 20 <= X /\ X + 20 <= brk s0)) as Hfirst.
    { destruct Hhead as [?|(? & ? & ? & _)]; [by left|right].
      unfold H_MINCHUNK, H_MINPAYLOAD, H_PS, H_IS in *. lia. }
    assert (need + 16 + PAGE_SIZE s0 < 2 ^ 31) as Hint' by lia.
    pose proof (hmalloc_grow_post im s0 need Hlive HP HP8 Hneed Hint'
                  (conj Hfl0 Hflb) Hbrk Hfirst Hmiss) as Hg.
    cbv zeta in Hg. rewrite <- Er in Hg.
    destruct Hg as (_ & HD & Hp & _ & _ & _ & _ & _ & _ & Hh & Hf & Hfa & Hpay & _ & _ & Hcs).
    assert (c = brk s0 + 4) as Ec.
    { unfold c. rewrite Hp. replace (brk s0 + 8) with (brk s0 + 4 + 4) by lia.
      apply Hback; range_solve. }
    rewrite Ec. unfold m.
    split. { rewrite Hp. replace (brk s0 + 8) with (brk s0 + 4 + 4) by lia.
             apply Hback; range_solve. }
    split; [lia|]. split; [range_solve|].
    split; [rewrite Hpay; lia|].
    split; [unfold header_of; rewrite Hh, Hcs; lia|].
    rewrite Hfa, Hcs, Hf. lia.
  - (* served by the first chunk *)
    destruct Hhead as [?|(HflX & Hmin & HendX & Hprev & Hnext)]; [done|].
    assert (16 <= need < 2 ^ 31 - 16) as Hn by lia.
    assert (X + ck_size (mem s0) X <= 2 ^ 64) as Hend by lia.
    pose proof (hmalloc_found_post im s0 need Hlive Hn HXne (conj Hfl0 HflX) Hmin Hend
                  Hfit Hprev Hnext) as Hf.
    cbv zeta in Hf. rewrite <- Er in Hf. fold X in Hf.
    destruct Hf as (Hp & _ & _ & Hpay & Hh & Hft & _).
    pose proof (ck_size_range (mem s0) X).
    assert (c = X) as Ec.
    { unfold c. rewrite Hp. apply Hback; [done|].
      unfold H_MINCHUNK, H_MINPAYLOAD, H_PS, H_IS in *. lia. }
    rewrite Ec. unfold m.
    split. { rewrite Hp. apply Hback; [done|].
             unfold H_MINCHUNK, H_MINPAYLOAD, H_PS, H_IS in *. lia. }
    do 2 (split; [done|]). split; [lia|]. done.
Qed.

End Allocate.

(** ** Filling and copying bytes *)

Section Bytes.

Implicit Types (m : gmap Z Z) (p a c : Z) (k : nat).

Lemma load8_memset_loop k : forall m p c a,
  load8 (memset_loop k m p c) a =
    if (p <=? a) && (a <? p + Z.of_nat k) then c mod 256 else load8 m a.
Proof.
  induction k as [|k IH]; intros m p c a.
  - cbn [memset_loop]. destruct (Z.leb_spec p a), (Z.ltb_spec a (p + Z.of_nat 0)); try done. lia.
  - cbn [memset_loop]. rewrite IH. rewrite Nat2Z.inj_succ.
    destruct (Z.eq_dec a p) as [->|Hne].
    + destruct (Z.leb_spec (p + 1) p); [lia|]. cbn [andb].
      destruct (Z.leb_spec p p), (Z.ltb_spec p (p + Z.succ (Z.of_nat k))); try lia.
      apply load8_store8_same.
    + rewrite load8_store8_other by lia.
      destruct (Z.leb_spec (p + 1) a), (Z.ltb_spec a (p + 1 + Z.of_nat k)),
        (Z.leb_spec p a), (Z.ltb_spec a (p + Z.succ (Z.of_nat k))); cbn [andb]; try lia; done.
Qed.

Lemma load8_memset_in m p c n a :
  p <= a < p + n -> load8 (memset m p c n) a = c mod 256.
Proof.
  intros H. unfold memset. rewrite load8_memset_loop.
  destruct (Z.leb_spec p a), (Z.ltb_spec a (p + Z.of_nat (Z.to_nat n))); try done; lia.
Qed.

Lemma load8_memset_out m p c n a :
  a < p \/ p + n <= a -> 0 <= n -> load8 (memset m p c n) a = load8 m a.
Proof.
  intros H Hn. unfold memset. rewrite load8_memset_loop.
  destruct (Z.leb_spec p a), (Z.ltb_spec a (p + Z.of_nat (Z.to_nat n))); try done; lia.
Qed.

Lemma loadN_memset_out k : forall m p c n a,
  a + Z.of_nat k <= p \/ p + n <= a -> 0 <= n ->
  loadN k (memset m p c n) a = loadN k m a.
Proof.
  induction k as [|k IH]; intros m p c n a H Hn; cbn [loadN]; [done|].
  rewrite IH by lia. rewrite load8_memset_out by lia. done.
Qed.

Lemma load_info_memset_out m p c n a :
  a + 4 <= p \/ p + n <= a -> 0 <= n ->
  load_info (memset m p c n) a = load_info m a.
Proof. intros H Hn. unfold load_info. by rewrite loadN_memset_out by (simpl; lia). Qed.

End Bytes.

(** ** Strings *)

Section Strings.

Implicit Types (m : gmap Z Z) (s : Z) (k : nat).

Lemma strlen_loop_spec k : forall m s,
  (exists i, 0 <= i < Z.of_nat k /\ load8 m (s + i) = 0) ->
  0 <= strlen_loop k m s < Z.of_nat k /\
  load8 m (s + strlen_loop k m s) = 0 /\
  forall i, 0 <= i < strlen_loop k m s -> load8 m (s + i) <> 0.
Proof.
  induction k as [|k IH]; intros m s [i [Hi Hz]]; [lia|].
  cbn [strlen_loop]. destruct (Z.eqb_spec (load8 m s) 0) as [E|NE].
  - rewrite Z.add_0_r. split; [lia|]. split; [done|]. intros; lia.
  - assert (i <> 0) as Hi0 by (intros ->; by rewrite Z.add_0_r in Hz).
    destruct (IH m (s + 1)) as (Hb & Hend & Hbefore).
    { exists (i - 1). split; [lia|]. by replace (s + 1 + (i - 1)) with (s + i) by lia. }
    split; [lia|]. split.
    + by replace (s + (1 + strlen_loop k m (s + 1))) with (s + 1 + strlen_loop k m (s + 1)) by lia.
    + intros j Hj. destruct (Z.eq_dec j 0) as [->|Hj0]; [by rewrite Z.add_0_r|].
      replace (s + j) with (s + 1 + (j - 1)) by lia. apply Hbefore. lia.
Qed.

(** Among any [size m + 1] cells in a row one was never written. *)
Lemma zero_byte_within m s :
  exists i, 0 <= i < Z.of_nat (S (size m)) /\ load8 m (s + i) = 0.
Proof.
  destruct (decide (Exists (fun a => load8 m a = 0) (seqZ s (Z.of_nat (S (size m))))))
    as [Hex|Hall].
  - apply Exists_exists in Hex as (a & Ha & Hz).
    apply elem_of_seqZ in Ha. exists (a - s). split; [lia|].
    by replace (s + (a - s)) with a by lia.
  - exfalso. apply not_Exists_Forall in Hall; [|intros a; apply _].
    assert (list_to_set (seqZ s (Z.of_nat (S (size m)))) ⊆ dom m) as Hsub.
    { intros a Ha. apply elem_of_list_to_set in Ha.
      rewrite Forall_forall in Hall. specialize (Hall a Ha). cbn in Hall.
      apply elem_of_dom. unfold load8 in Hall.
      destruct (m !! a); [done|]. by exfalso; apply Hall. }
    apply subseteq_size in Hsub.
    rewrite size_list_to_set in Hsub by apply NoDup_seqZ.
    rewrite length_seqZ, size_dom in Hsub. lia.
Qed.

(** [strlen] finds the first zero byte at or after [s]. *)
Lemma strlen_spec m s :
  0 <= strlen m s /\
  load8 m (s + strlen m s) = 0 /\
  forall i, 0 <= i < strlen m s -> load8 m (s + i) <> 0.
Proof.
  destruct (strlen_loop_spec (S (size m)) m s (zero_byte_within m s)) as (Hb & Hz & Hn).
  unfold strlen. split; [lia|]. done.
Qed.

End Strings.





(** C4, amended.  For [count] and [size] whose product is a non-negative
    [int] that leaves room for rounding to pages, [hcalloc] returns a payload
    of capacity at least [count * size] whose first [count * size] bytes are
    zero.  The bytes of the payload beyond the request are left as they
    were. *)
Theorem hcalloc_zero_prefix (im : image) (s : state) (count size : Z) :
  heap_ready im (init im s) ->
  0 <= count * size ->
  count * size + 32 + PAGE_SIZE (init im s) < 2 ^ 31 ->
  let r := hcalloc im s count size in
  let c := chunk_of (snd r) in
  count * size <= ck_payloadSize (mem (fst r)) c /\
  (forall i, 0 <= i < count * size -> load8 (mem (fst r)) (snd r + i) = 0) /\
  trace (fst r) =
    Memset (snd r) 0 (count * size) :: trace (fst (hmalloc im s (count * size))).
Proof.
  intros Hready Hn Hint r c.
  set (n := count * size) in *.
  set (s0 := init im s) in *.
  assert (BASE s0 <> 0) as Hlive by apply Hready.
  assert (init im s0 = s0) as Hi by (by apply init_live).
  pose proof (hmalloc_post im s0 n) as Hpost. rewrite Hi in Hpost.
  specialize (Hpost Hready Hn Hint). cbv zeta in Hpost.
  assert (hmalloc im s n = hmalloc im s0 n) as Einit by (by apply hmalloc_after_init).
  assert (imul count size = n) as En.
  { unfold imul. fold n. apply to_int_id. pose proof Hready as (_ & HP & _). range_solve. }
  assert (to_size n = n) as Esz.
  { apply to_size_id. pose proof Hready as (_ & HP & _).
    pose proof (Z.pow_lt_mono_r 2 31 64). range_solve. }
  destruct (hmalloc im s0 n) as [s1 p] eqn:Hrun.
  assert (r = (with_mem (emit s1 (Memset p 0 n)) (memset (mem s1) p 0 n), p)) as Er.
  { unfold r, hcalloc. fold s0. rewrite En, Esz, Hrun. done. }
  unfold c. rewrite Er, Einit.
  cbn [fst snd mem emit with_mem brk BASE HWM PAGE_SIZE debug trace] in *.
  destruct Hpost as (_ & Hp & Hc & Hcap & _).
  set (c1 := chunk_of p) in *.
  split.
  { unfold ck_payloadSize, ck_size, header_of in *.
    rewrite load_info_memset_out by lia. lia. }
  split; [|done].
  intros i Hi'. rewrite load8_memset_in by lia. done.
Qed.


(** The theorem at work on a heap that was never used: ten [int]s. *)
Lemma hcalloc_zero_prefix_witness :
  let r := hcalloc Scenario.im0 Scenario.fresh 10 4 in
  heap_ready Scenario.im0 (init Scenario.im0 Scenario.fresh) /\
  10 * 4 <= ck_payloadSize (mem (fst r)) (chunk_of (snd r)) /\
  (forall i, 0 <= i < 10 * 4 -> load8 (mem (fst r)) (snd r + i) = 0).
Proof.
  intros r.
  assert (heap_ready Scenario.im0 (init Scenario.im0 Scenario.fresh)) as Hready.
  { repeat split; try (vm_compute; (reflexivity || discriminate)).
    - exists 512. vm_compute. reflexivity.
    - left. vm_compute. reflexivity. }
  split; [exact Hready|].
  assert (0 <= 10 * 4) as Hn by lia.
  assert (10 * 4 + 32 + PAGE_SIZE (init Scenario.im0 Scenario.fresh) < 2 ^ 31) as Hint
    by (vm_compute; reflexivity).
  pose proof (hcalloc_zero_prefix Scenario.im0 Scenario.fresh 10 4 Hready Hn Hint) as H.
  cbv zeta in H. fold r in H. destruct H as (Hcap & Hzero & _).
  split; [exact Hcap|exact Hzero].
Defined.

(** C6, amended.  A request of a size that is not negative and below the
    minimum payload is served exactly as a request for the minimum payload,
    and the chunk returned has payload capacity at least the minimum.  When
    the free list is empty, as it is on a fresh heap, the chunk is the whole
    newly grown one: its capacity is the growth (32 bytes rounded up to
    whole pages) less 16, not the minimum.  When the first chunk of the list
    serves the request, the capacity is the minimum exactly if the chunk was
    large enough to be split, and the whole chunk's otherwise. *)
Theorem hmalloc_small_request (im : image) (s : state) (size : Z) :
  heap_ready im (init im s) ->
  0 <= size < H_MINPAYLOAD ->
  48 + PAGE_SIZE (init im s) < 2 ^ 31 ->
  let s0 := init im s in
  let r := hmalloc im s size in
  let c := chunk_of (snd r) in
  let X := load_ptr (mem s0) (next_of (FreeList im)) in
  r = hmalloc im s H_MINPAYLOAD /\
  H_MINPAYLOAD <= ck_payloadSize (mem (fst r)) c /\
  (BASE s = 0 -> X = FreeList im) /\
  (X = FreeList im ->
     exists k, brk (fst r) - brk s0 = k * PAGE_SIZE s0 /\
               32 <= k * PAGE_SIZE s0 < 32 + PAGE_SIZE s0 /\
               ck_payloadSize (mem (fst r)) c = k * PAGE_SIZE s0 - 16) /\
  (X <> FreeList im ->
     c = X /\
     (H_MINPAYLOAD + 2 * H_IS + H_MINCHUNK <= ck_size (mem s0) X ->
        ck_payloadSize (mem (fst r)) c = H_MINPAYLOAD) /\
     (ck_size (mem s0) X < H_MINPAYLOAD + 2 * H_IS + H_MINCHUNK ->
        ck_payloadSize (mem (fst r)) c = ck_size (mem s0) X - 2 * H_IS)).
Proof.
  intros Hready Hsize Hint s0 r c X.
  assert (r = hmalloc im s H_MINPAYLOAD) as Er by (by apply hmalloc_clamp).
  assert (hmalloc im s H_MINPAYLOAD = hmalloc im s0 H_MINPAYLOAD) as Einit.
  { apply hmalloc_after_init. apply Hready. }
  pose proof (hmalloc_post im s size Hready ltac:(lia)) as Hpost.
  unfold H_MINPAYLOAD, H_MINCHUNK, H_PS, H_IS in *.
  specialize (Hpost ltac:(lia)). cbv zeta in Hpost. fold r c in Hpost.
  destruct Hpost as (_ & Hp & Hc & Hcap & _).
  destruct Hready as (Hlive & HP & HP8 & Hfl0 & Hflb & Hbrk & Hz & Hhead).
  fold s0 in Hlive, HP, HP8, Hflb, Hbrk, Hz, Hhead, Hint.
  unfold head_ok in Hhead. cbv zeta in Hhead. fold X in Hhead.
  split; [done|]. split; [lia|].
  split.
  { intros Hfresh. unfold X, s0, init. rewrite Hfresh. cbn [Z.eqb negb sbrk with_mem mem].
    unfold next_of, prev_of. rewrite load_ptr_store_ptr_eq; [done|done|].
    pose proof (Z.pow_lt_mono_r 2 31 64). range_solve. }
  split.
  - intros HX.
    assert (load_info (mem s0)
              (header_of (fl_findBestFit (mem s0) (FreeList im) 16)) = 0) as Hmiss.
    { rewrite fl_findBestFit_head. cbv zeta. fold X. rewrite HX, Z.eqb_refl. done. }
    pose proof (hmalloc_grow_post im s0 16 Hlive HP HP8 ltac:(lia) ltac:(lia)
                  (conj Hfl0 Hflb) Hbrk (or_introl HX) Hmiss) as Hg.
    cbv zeta in Hg. change (2 * 8) with 16 in Einit, Er. rewrite <- Einit, <- Er in Hg.
    destruct Hg as ([k Hk] & HD & Hpg & Hg).
    do 9 (apply proj2 in Hg). destruct Hg as (Hpay & _).
    exists k. split; [done|]. split; [lia|].
    assert (c = brk s0 + 4) as -> by lia. rewrite Hpay. lia.
  - intros HXne. destruct Hhead as [HX0|(HflX & Hmin & HendX & Hprev & Hnext)];
      [exfalso; apply HXne; exact HX0|].
    pose proof Hmin as Hmin'. unfold H_MINCHUNK, H_MINPAYLOAD, H_PS, H_IS in Hmin'.
    pose proof (ck_size_range (mem s0) X) as Hr.
    assert (ck_payloadSize (mem s0) X = ck_size (mem s0) X - 8) as Hpay0.
    { unfold ck_payloadSize, H_IS. rewrite ssub_to_size, to_int_to_size.
      rewrite to_int_id by range_solve. lia. }
    assert (16 <= 16 < 2 ^ 31 - 16) as H16 by lia.
    assert (X + ck_size (mem s0) X <= 2 ^ 64) as Hend by lia.
    assert (16 <= ck_payloadSize (mem s0) X) as Hfit by lia.
    pose proof (hmalloc_found_post im s0 16 Hlive H16 HXne (conj Hfl0 HflX)
                  Hmin Hend Hfit Hprev Hnext) as Hf.
    cbv zeta in Hf. change (2 * 8) with 16 in Einit, Er. rewrite <- Einit, <- Er in Hf.
    fold X in Hf. change (8 * ((16 + 7) / 8)) with 16 in Hf.
    unfold H_MINPAYLOAD, H_MINCHUNK, H_PS, H_IS in Hf.
    destruct Hf as (Hp' & _ & _ & _ & _ & _ & Hkeep & Hsplit).
    assert (c = X) as Ec by lia. rewrite Ec.
    split; [done|]. split.
    + intros Hbig. apply Hsplit. lia.
    + intros Hsmall. destruct Hkeep as (Hcs & _); [lia|].
      unfold ck_payloadSize, H_IS. rewrite Hcs, ssub_to_size, to_int_to_size.
      rewrite to_int_id by range_solve. lia.
Qed.

(** The theorem at work on a heap that was never used: one byte asked for,
    4080 bytes of payload handed out. *)
Lemma hmalloc_small_request_witness :
  let r := hmalloc Scenario.im0 Scenario.fresh 1 in
  heap_ready Scenario.im0 (init Scenario.im0 Scenario.fresh) /\
  r = hmalloc Scenario.im0 Scenario.fresh H_MINPAYLOAD /\
  H_MINPAYLOAD <= ck_payloadSize (mem (fst r)) (chunk_of (snd r)) /\
  ck_payloadSize (mem (fst r)) (chunk_of (snd r)) = 4080.
Proof.
  intros r.
  assert (heap_ready Scenario.im0 (init Scenario.im0 Scenario.fresh)) as Hready.
  { repeat split; try (vm_compute; (reflexivity || discriminate)).
    - exists 512. vm_compute. reflexivity.
    - left. vm_compute. reflexivity. }
  split; [exact Hready|].
  assert (0 <= 1 < H_MINPAYLOAD) as Hs by (vm_compute; split; (reflexivity || discriminate)).
  assert (48 + PAGE_SIZE (init Scenario.im0 Scenario.fresh) < 2 ^ 31) as Hint
    by (vm_compute; reflexivity).
  pose proof (hmalloc_small_request Scenario.im0 Scenario.fresh 1 Hready Hs Hint) as H.
  cbv zeta in H. fold r in H. destruct H as (Hclamp & Hcap & Hfresh & Hgrow & _).
  split; [exact Hclamp|]. split; [exact Hcap|].
  destruct (Hgrow (Hfresh eq_refl)) as (k & Hk & Hb & Hpay).
  rewrite Hpay.
  change (PAGE_SIZE (init Scenario.im0 Scenario.fresh)) with 4096 in *. lia.
Defined.


(** ** Runs on concrete heaps *)

Section Runs.

Import Scenario.

(** C1. On a fresh heap [p = hmalloc(16)] is a chunk in use, its free flag
    clear.  [hfree(p)] prints the message meant for a double release and
    changes nothing else: the flag stays clear and the free list stays
    empty, where the chunk should have been marked free and inserted. *)
Theorem hfree_live_chunk_refused :
  let s := fst (hmalloc im0 fresh 16) in
  let p := snd (hmalloc im0 fresh 16) in
  let s' := hfree im0 s p in
  Z.land (load_info (mem s) (chunk_of p)) H_FREE = 0 /\
  s' = emit s (Printf "Cannot free a chunk that's already free\n" []) /\
  Z.land (load_info (mem s') (chunk_of p)) H_FREE = 0 /\
  fl_chunks 1 (mem s') FL0 = Some [].
Proof. vm_compute. done. Qed.

(** C2. Free chunks of capacity 16, 64 and 128 and a request for 50.  With
    the 16-byte chunk at the head the search answers the anchor, although
    two chunks are large enough; with the 128-byte chunk at the head it
    answers that chunk, although the 64-byte chunk fits more tightly. *)
Theorem fl_findBestFit_first_chunk_only :
  fl_chunks 4 heap_small_first FL0 = Some [c16; c64; c128] /\
  map (ck_payloadSize heap_small_first) [c16; c64; c128] = [16; 64; 128] /\
  fl_findBestFit heap_small_first FL0 50 = FL0 /\
  fl_chunks 4 heap_large_first FL0 = Some [c128; c64; c16] /\
  map (ck_payloadSize heap_large_first) [c128; c64; c16] = [128; 64; 16] /\
  fl_findBestFit heap_large_first FL0 50 = c128.
Proof. vm_compute. done. Qed.

(** C3. A block of capacity 4080, filled by its owner with the byte 0xAB,
    is resized to 5000: [memcpy] is asked for 5000 bytes, 920 more than the
    old payload holds, and the old block is not released (its flag stays
    clear, the free list stays empty, the double-release message is
    printed).  The 4080 bytes of the old payload do arrive in the new
    block. *)
Theorem hrealloc_copies_new_size :
  let s1 := fst (hmalloc im0 fresh 16) in
  let p := snd (hmalloc im0 fresh 16) in
  let s2 := with_mem s1 (memset (mem s1) p 171 4080) in
  let r := hrealloc im0 s2 p 5000 in
  ck_payloadSize (mem s2) (chunk_of p) = 4080 /\
  trace (fst r) =
    Printf "Cannot free a chunk that's already free\n" [] ::
    Memcpy (snd r) p 5000 :: Sbrk 0 :: Sbrk 8192 :: trace s2 /\
  Z.min (ck_payloadSize (mem s2) (chunk_of p)) 5000 < 5000 /\
  Z.land (load_info (mem (fst r)) (chunk_of p)) H_FREE = 0 /\
  fl_chunks 1 (mem (fst r)) FL0 = Some [] /\
  forallb (fun i => load8 (mem (fst r)) (snd r + i) =? 171) (seqZ 0 4080) = true.
Proof. vm_compute. done. Qed.

(** C5. A string of 4080 characters on a fresh heap with 4096-byte pages:
    the payload handed out holds 4080 bytes, one fewer than the string and
    its terminator, and the terminator is written at the first byte after
    the payload, which is the first byte of the chunk's footer. *)
Theorem hstrdup_payload_one_short :
  let n := strlen (mem fresh_with_string) str4080 in
  let r := hstrdup im0 fresh_with_string str4080 in
  let q := snd r in
  n = 4080 /\
  ck_payloadSize (mem (fst r)) (chunk_of q) = 4080 /\
  ck_payloadSize (mem (fst r)) (chunk_of q) < n + 1 /\
  load8 (mem (fst r)) (q + n - 1) = 97 /\
  q + n = ck_footerAddr (mem (fst r)) (chunk_of q).
Proof. vm_compute. done. Qed.

(** C7. Two adjacent free chunks of 24 and 72 bytes, both listed.  After
    [ck_merge] the lower chunk carries the merged tag (96 bytes, free) in
    header and footer, but it is not on the list: the list holds the
    absorbed upper chunk when the lower one was at the head, and nothing
    when the upper one was. *)
Theorem ck_merge_loses_merged_chunk :
  let m1 := ck_merge im0 heap_pair_low_first c16 c64 in
  let m2 := ck_merge im0 heap_pair_high_first c16 c64 in
  fl_chunks 3 heap_pair_low_first FL0 = Some [c16; c64] /\
  fl_chunks 3 heap_pair_high_first FL0 = Some [c64; c16] /\
  c16 + ck_size heap_pair_low_first c16 = c64 /\
  load_info m1 c16 = 97 /\ load_info m1 (ck_footerAddr m1 c16) = 97 /\
  fl_chunks 3 m1 FL0 = Some [c64] /\
  load_info m2 c16 = 97 /\ load_info m2 (ck_footerAddr m2 c16) = 97 /\
  fl_chunks 3 m2 FL0 = Some [].
Proof. vm_compute. done. Qed.

(** C8. A chunk of 24 bytes asked to hold a payload of 32: the remainder
    would be 24 - 40 = -16 bytes, yet the split goes ahead.  The chunk's
    tag grows to 40, a chunk tagged -15 is made 40 bytes further on and put
    on the free list, and its address is returned. *)
Theorem ck_split_negative_remainder :
  let r := ck_split im0 heap_one_small c16 32 in
  ck_size (mem heap_one_small) c16 = 24 /\
  fl_chunks 1 (mem heap_one_small) FL0 = Some [] /\
  snd r = c16 + 40 /\
  load_info (mem (fst r)) c16 = 40 /\
  load_info (mem (fst r)) (snd r) = -15 /\
  fl_chunks 2 (mem (fst r)) FL0 = Some [c16 + 40].
Proof. vm_compute. done. Qed.

(** C10. After [hstrdup] of the 4080-character string the chunk it
    returns has header 4088 and footer 3840: the terminator written by
    [strcpy] has cleared the footer's low byte. *)
Theorem hstrdup_leaves_tags_apart :
  let r := hstrdup im0 fresh_with_string str4080 in
  let c := chunk_of (snd r) in
  load_info (mem (fst r)) (header_of c) = 4088 /\
  load_info (mem (fst r)) (ck_footerAddr (mem (fst r)) c) = 3840.
Proof. vm_compute. done. Qed.

(** C4 as worded does not hold: [hcalloc(1, 1)] on a fresh heap returns a payload
    of 4080 bytes whose second byte is 0x10, left there by the free-list
    link that [fl_insert] wrote. *)
Lemma hcalloc_payload_not_all_zero :
  ~ (let r := hcalloc im0 fresh 1 1 in
     forall i, 0 <= i < ck_payloadSize (mem (fst r)) (chunk_of (snd r)) ->
               load8 (mem (fst r)) (snd r + i) = 0).
Proof.
  cbv zeta. intros H. specialize (H 1).
  assert (ck_payloadSize (mem (fst (hcalloc im0 fresh 1 1)))
            (chunk_of (snd (hcalloc im0 fresh 1 1))) = 4080) as E1
    by (vm_compute; reflexivity).
  assert (load8 (mem (fst (hcalloc im0 fresh 1 1))) (snd (hcalloc im0 fresh 1 1) + 1) = 16) as E2
    by (vm_compute; reflexivity).
  rewrite E1, E2 in H. lia.
Qed.

(** C6 as worded does not hold: [hmalloc(1)] on a fresh heap returns the whole
    grown chunk, of payload capacity 4080. *)
Lemma hmalloc_one_fresh_not_minimum :
  ~ (let r := hmalloc im0 fresh 1 in
     ck_payloadSize (mem (fst r)) (chunk_of (snd r)) = H_MINPAYLOAD).
Proof. vm_compute. intros H. discriminate H. Qed.

(** A heap whose list holds one page-sized free chunk is ready, and a
    one-byte request is cut from that chunk: payload 16, the rest back on
    the list. *)
Lemma heap_one_page_ready :
  heap_ready im0 heap_one_page /\
  load_ptr (mem heap_one_page) (next_of FL0) = c16 /\
  (let r := hmalloc im0 heap_one_page 1 in
   chunk_of (snd r) = c16 /\
   ck_payloadSize (mem (fst r)) c16 = 16 /\
   fl_chunks 2 (mem (fst r)) FL0 = Some [c16 + 24] /\
   ck_size (mem (fst r)) (c16 + 24) = 4088 - 24).
Proof.
  split; [|by vm_compute].
  repeat split; try (vm_compute; (reflexivity || discriminate)).
  - exists 512. vm_compute. reflexivity.
  - right. repeat split; try (vm_compute; (reflexivity || discriminate)).
    left. vm_compute. reflexivity.
Qed.

End Runs.

(** * Further properties of the code *)

(** ** The free list as a list *)


Section Lists.

Implicit Types (m : gmap Z Z) (l p c : Z) (xs : list Z) (fuel : nat).

Lemma fl_chunks_loop_chain fuel : forall m l p xs,
  fl_chunks_loop fuel m l p = Some xs <-> chain m l p xs /\ (length xs < fuel)%nat.
Proof.
  induction fuel as [|k IH]; intros m l p xs; cbn [fl_chunks_loop].
  - split; [done|]. intros [_ H]. lia.
  - destruct (Z.eqb_spec p l) as [E|NE]; cbn [negb].
    + split.
      * intros [= <-]. split; [done|]. simpl. lia.
      * intros [Hc _]. destruct xs as [|x r]; [done|]. destruct Hc as (-> & Hx & _). done.
    + destruct (fl_chunks_loop k m l (load_ptr m (next_of p))) as [ys|] eqn:Hys; cbn [option_map].
      * apply IH in Hys as [Hc Hl]. split.
        -- intros [= <-]. split; [done|]. simpl. lia.
        -- intros [Hc' Hl']. destruct xs as [|x r]; [done|].
           destruct Hc' as (<- & _ & Hr). simpl in Hl'.
           assert (fl_chunks_loop k m l (load_ptr m (next_of p)) = Some r) as Hr'
             by (apply IH; split; [done|lia]).
           rewrite (proj2 (IH _ _ _ _) (conj Hc Hl)) in Hr'. by injection Hr' as ->.
      * split; [done|]. intros [Hc Hl]. destruct xs as [|x r]; [done|].
        destruct Hc as (<- & _ & Hr). simpl in Hl.
        assert (fl_chunks_loop k m l (load_ptr m (next_of p)) = Some r) as Hr'
          by (apply IH; split; [done|lia]).
        congruence.
Qed.

Lemma chain_ext m m' l : forall xs p,
  Forall (fun x => load_ptr m' (next_of x) = load_ptr m (next_of x)) xs ->
  chain m l p xs -> chain m' l p xs.
Proof.
  induction xs as [|x r IH]; intros p Hall Hc; [done|].
  apply Forall_cons in Hall as [Hx Hr]. destruct Hc as (-> & Hne & Hc).
  split; [done|]. split; [done|]. rewrite Hx. by apply IH.
Qed.

Lemma fl_size_loop_chain fuel : forall m l p xs acc,
  chain m l p xs -> (length xs < fuel)%nat ->
  0 <= acc -> acc + Z.of_nat (length xs) < 2 ^ 31 ->
  fl_size_loop fuel m l p acc = Some (acc + Z.of_nat (length xs)).
Proof.
  induction fuel as [|k IH]; intros m l p xs acc Hc Hl Ha Hb; [lia|].
  cbn [fl_size_loop]. destruct xs as [|x r].
  - simpl in Hc. subst p. rewrite Z.eqb_refl. cbn [negb]. simpl. f_equal. lia.
  - destruct Hc as (-> & Hne & Hc). simpl in Hl, Hb.
    destruct (Z.eqb_spec x l); [done|]. cbn [negb].
    unfold iadd. rewrite to_int_id by (unfold int_range; lia).
    rewrite (IH m l _ r (acc + 1)) by (done || lia). f_equal. simpl length. lia.
Qed.

Lemma fl_size_loop_none fuel : forall m l p acc,
  fl_chunks_loop fuel m l p = None -> fl_size_loop fuel m l p acc = None.
Proof.
  induction fuel as [|k IH]; intros m l p acc; cbn [fl_chunks_loop fl_size_loop]; [done|].
  destruct (Z.eqb_spec p l); cbn [negb]; [done|].
  destruct (fl_chunks_loop k m l (load_ptr m (next_of p))) eqn:E; cbn [option_map]; [done|].
  intros _. by apply IH.
Qed.

Lemma all_apart_app xs ys :
  all_apart (xs ++ ys) ->
  all_apart xs /\ all_apart ys /\ Forall (fun x => Forall (apart x) ys) xs.
Proof.
  induction xs as [|x r IH]; cbn [all_apart app]; [by repeat split|].
  intros [Hx Hr]. apply Forall_app in Hx as [Hx1 Hx2].
  destruct (IH Hr) as (H1 & H2 & H3). repeat split; try done. by constructor.
Qed.

Lemma apart_sym a b : apart a b -> apart b a.
Proof. unfold apart. lia. Qed.

End Lists.

Section Insert.

Variables (m : gmap Z Z) (l c : Z) (xs : list Z).

Hypothesis Hl : size_range l.
Hypothesis Hc : size_range c.
Hypothesis Hchain : chain m l (load_ptr m (next_of l)) xs.
Hypothesis Hapart : all_apart (c :: l :: xs).

Lemma fl_insert_links :
  let X := load_ptr m (next_of l) in
  let m' := fl_insert m l c in
  load_ptr m' (next_of l) = c /\
  load_ptr m' (prev_of c) = l /\
  load_ptr m' (next_of c) = X /\
  load_ptr m' (prev_of X) = c /\
  Forall (fun x => load_ptr m' (next_of x) = load_ptr m (next_of x)) xs.
Proof.
  intros X m'. unfold m', fl_insert. fold X.
  destruct Hapart as (Hca & Hla & Hxs). apply Forall_cons in Hca as [Hcl Hcx].
  assert (size_range X) as HX by apply load_ptr_range.
  assert (X = l \/ (apart c X /\ apart l X)) as HXc.
  { destruct xs as [|x r]; [left; exact Hchain|right].
    destruct Hchain as (E & _). fold X in E. subst x.
    apply Forall_cons in Hcx as [? _]. apply Forall_cons in Hla as [? _]. done. }
  unfold apart, prev_of, next_of in *.
  assert (load_ptr (store_ptr m (c + 4) l) (l + 12) = X) as E1 by (mem_simpl; done).
  rewrite E1.
  assert (load_ptr (store_ptr (store_ptr m (c + 4) l) (c + 12) X) (l + 12) = X) as E2
    by (mem_simpl; done).
  rewrite E2.
  split; [mem_simpl; done|]. split; [mem_simpl; done|].
  split; [mem_simpl; done|]. split; [mem_simpl; done|].
  assert (Forall (fun x => x = X \/ x + 20 <= X \/ X + 20 <= x) xs) as HxX.
  { destruct xs as [|x r]; [constructor|].
    destruct Hchain as (E & _). fold X in E. subst x.
    constructor; [by left|]. destruct Hxs as (Hr & _).
    eapply Forall_impl; [exact Hr|]. cbn. intros x Hx. lia. }
  rewrite Forall_forall in Hcx, Hla, HxX |- *. intros x Hin.
  specialize (Hcx x Hin). specialize (Hla x Hin). specialize (HxX x Hin).
  cbn in Hcx, Hla. mem_simpl. done.
Qed.

(** Walking the list after [fl_insert(l, c)] meets [c] first and then the
    chunks that were there, in their old order. *)
Lemma fl_insert_chain :
  chain (fl_insert m l c) l (load_ptr (fl_insert m l c) (next_of l)) (c :: xs).
Proof.
  destruct fl_insert_links as (E1 & _ & E3 & _ & Hsame). cbv zeta in *.
  destruct Hapart as (Hca & _). apply Forall_cons in Hca as [Hcl _].
  rewrite E1. split; [done|]. split; [unfold apart in Hcl; lia|].
  rewrite E3. by apply (chain_ext m).
Qed.

End Insert.

Section ByteView.

Implicit Types (m : gmap Z Z) (a b v k : Z) (n : nat).

Lemma load8_storeN_in n : forall m a v k,
  0 <= k < Z.of_nat n -> load8 (storeN n m a v) (a + k) = (v / 256 ^ k) mod 256.
Proof.
  induction n as [|n IH]; intros m a v k Hk; [lia|].
  cbn [storeN]. destruct (Z.eq_dec k 0) as [->|Hk0].
  - rewrite Z.add_0_r, load8_storeN_other by lia.
    rewrite load8_store8_same. by rewrite Z.div_1_r.
  - replace (a + k) with (a + 1 + (k - 1)) by lia. rewrite IH by lia.
    rewrite Z.div_div by lia. f_equal. f_equal.
    replace k with (1 + (k - 1)) at 2 by lia. rewrite Z.pow_add_r by lia. done.
Qed.

Lemma loadN_byte n : forall m a k,
  0 <= k < Z.of_nat n -> (loadN n m a / 256 ^ k) mod 256 = load8 m (a + k).
Proof.
  induction n as [|n IH]; intros m a k Hk; [lia|].
  cbn [loadN]. pose proof (load8_range m a) as Hr.
  destruct (Z.eq_dec k 0) as [->|Hk0].
  - rewrite Z.div_1_r, Z.add_0_r.
    replace (load8 m a + 256 * loadN n m (a + 1))
      with (load8 m a + loadN n m (a + 1) * 256) by lia.
    rewrite Z.mod_add by lia. apply Z.mod_small. lia.
  - replace k with (1 + (k - 1)) at 1 by lia. rewrite Z.pow_add_r by lia.
    rewrite <- Z.div_div by lia. change (256 ^ 1) with 256.
    replace (load8 m a + 256 * loadN n m (a + 1))
      with (load8 m a + loadN n m (a + 1) * 256) by lia.
    rewrite Z.div_add by lia.
    rewrite (Z.div_small (load8 m a)) by lia. rewrite Z.add_0_l.
    rewrite IH by lia. f_equal. lia.
Qed.

(** Storing back what a word held leaves every byte of it as it was. *)
Lemma load8_storeN_back n m m0 a b v :
  loadN n m0 a = v ->
  a <= b < a + Z.of_nat n ->
  load8 (storeN n m a v) b = load8 m0 b.
Proof.
  intros <- Hb. replace b with (a + (b - a)) by lia.
  rewrite load8_storeN_in by lia. apply loadN_byte. lia.
Qed.

End ByteView.

Section RoundTrip.

Variables (m : gmap Z Z) (l c : Z).

Hypothesis Hl : size_range l.
Hypothesis Hc : size_range c.
Hypothesis Hcl : apart c l.
Hypothesis Hhead :
  let X := load_ptr m (next_of l) in
  X = l \/ (apart X c /\ apart X l).
Hypothesis Hprev :
  load_ptr m (prev_of (load_ptr m (next_of l))) = l.

Lemma fl_insert_remove_bytes a :
  a < prev_of c \/ next_of c + 8 <= a ->
  load8 (fl_remove (fl_insert m l c) c) a = load8 m a.
Proof.
  intros Ha. cbv zeta in Hhead. set (X := load_ptr m (next_of l)) in *.
  assert (size_range X) as HX by apply load_ptr_range.
  unfold fl_remove, fl_insert. fold X.
  unfold apart, prev_of, next_of in *.
  assert (load_ptr (store_ptr m (c + 4) l) (l + 12) = X) as E1 by (mem_simpl; done).
  rewrite E1.
  assert (load_ptr (store_ptr (store_ptr m (c + 4) l) (c + 12) X) (l + 12) = X) as E2
    by (mem_simpl; done).
  rewrite E2.
  set (m4 := store_ptr (store_ptr (store_ptr (store_ptr m (c + 4) l) (c + 12) X) (X + 4) c)
               (l + 12) c).
  assert (load_ptr m4 (c + 4) = l) as E3 by (unfold m4; mem_simpl; done).
  assert (load_ptr m4 (c + 12) = X) as E4 by (unfold m4; mem_simpl; done).
  rewrite E3, E4.
  assert (load_ptr (store_ptr m4 (l + 12) X) (c + 12) = X) as E5 by (mem_simpl; done).
  assert (load_ptr (store_ptr m4 (l + 12) X) (c + 4) = l) as E6 by (mem_simpl; done).
  rewrite E5, E6.
  unfold store_ptr in *.
  destruct (Z.le_gt_cases (X + 4) a) as [H1|H1]; [destruct (Z.lt_ge_cases a (X + 12)) as [H2|H2]|].
  - (* a byte of the old head's prev link *)
    apply load8_storeN_back; [exact Hprev|simpl; lia].
  - rewrite load8_storeN_other by (simpl; lia).
    destruct (Z.le_gt_cases (l + 12) a) as [H3|H3];
      [destruct (Z.lt_ge_cases a (l + 20)) as [H4|H4]|].
    + apply load8_storeN_back; [reflexivity|simpl; lia].
    + unfold m4. rewrite !load8_storeN_other by (simpl; lia). done.
    + unfold m4. rewrite !load8_storeN_other by (simpl; lia). done.
  - rewrite load8_storeN_other by (simpl; lia).
    destruct (Z.le_gt_cases (l + 12) a) as [H3|H3];
      [destruct (Z.lt_ge_cases a (l + 20)) as [H4|H4]|].
    + apply load8_storeN_back; [reflexivity|simpl; lia].
    + unfold m4. rewrite !load8_storeN_other by (simpl; lia). done.
    + unfold m4. rewrite !load8_storeN_other by (simpl; lia). done.
Qed.

End RoundTrip.

Section Remove.

Variables (m : gmap Z Z) (l c : Z) (xs2 : list Z).

Let P := load_ptr m (prev_of c).
Let N := load_ptr m (next_of c).
Let m' := store_ptr (store_ptr m (next_of P) N) (prev_of N) P.

Hypothesis Htail : chain m l N xs2.
Hypothesis Hc2 : Forall (apart c) xs2.
Hypothesis Hl2 : Forall (apart l) xs2.
Hypothesis H22 : all_apart xs2.
Hypothesis Hcl : apart c l.

Lemma next_is_anchor_or_listed : N = l \/ (exists r, xs2 = N :: r).
Proof.
  destruct xs2 as [|x r]; [by left|right]. destruct Htail as (-> & _). eauto.
Qed.

Lemma tail_kept :
  (P = l \/ Forall (apart P) xs2) ->
  Forall (fun x => load_ptr m' (next_of x) = load_ptr m (next_of x)) xs2.
Proof.
  intros HP. rewrite Forall_forall. intros x Hin. unfold m'.
  assert (x = N \/ apart x N) as HxN.
  { destruct next_is_anchor_or_listed as [E|[r E]].
    - right. rewrite E. rewrite Forall_forall in Hl2. apply apart_sym. by apply Hl2.
    - rewrite E in Hin, H22. apply elem_of_cons in Hin as [?|Hin]; [by left|right].
      destruct H22 as [HN _]. rewrite Forall_forall in HN. apply apart_sym. by apply HN. }
  assert (apart x P) as HxP.
  { destruct HP as [->|HP].
    - rewrite Forall_forall in Hl2. apply apart_sym. by apply Hl2.
    - rewrite Forall_forall in HP. apply apart_sym. by apply HP. }
  unfold apart, next_of, prev_of in *. mem_simpl. done.
Qed.

Lemma remove_walk : forall xs1 q,
  chain m l (load_ptr m (next_of q)) (xs1 ++ c :: xs2) ->
  Forall (apart q) (xs1 ++ c :: xs2) ->
  all_apart (xs1 ++ c :: xs2) ->
  (q = l \/ apart q l) ->
  Forall (apart l) xs1 ->
  P = List.last xs1 q ->
  chain m' l (load_ptr m' (next_of q)) (xs1 ++ xs2).
Proof.
  assert (size_range N) as HNr by apply load_ptr_range.
  induction xs1 as [|x r IH]; intros q Hch Hq Hall Hql Hl1 HP.
  - cbn [app List.last] in *. destruct Hch as (Eq & Hne & Hch). fold N in Hch.
    apply Forall_cons in Hq as [Hqc Hq2].
    assert (q = N \/ apart q N) as HqN.
    { destruct next_is_anchor_or_listed as [E|[r E]].
      - rewrite E. destruct Hql; [by left|by right].
      - right. rewrite E in Hq2. by apply Forall_cons in Hq2 as [? _]. }
    assert (load_ptr m' (next_of q) = N) as ->.
    { unfold m'. rewrite HP. unfold apart, next_of, prev_of in *. mem_simpl. done. }
    apply (chain_ext m); [|done]. apply tail_kept. rewrite HP. by right.
  - cbn [app] in *. destruct Hch as (Eq & Hne & Hch).
    apply Forall_cons in Hq as [Hqx Hq']. destruct Hall as (Hx & Hall).
    apply Forall_cons in Hl1 as [Hlx Hl1].
    assert (List.last (x :: r) q = List.last r x) as Elast.
    { clear. revert x q. induction r as [|y r IH]; intros x q; [done|].
      change (List.last (x :: y :: r) q) with (List.last (y :: r) q).
      by rewrite (IH y q), (IH y x). }
    rewrite Elast in HP.
    assert (In P (x :: r)) as HPin.
    { rewrite HP. clear. revert x. induction r as [|y r IH]; intros x; [by left|].
      right. change (List.last (y :: r) x) with (List.last (y :: r) x).
      assert (List.last (y :: r) x = List.last r y) as ->; [|apply IH].
      clear. revert y x. induction r as [|z r IH]; intros y x; [done|].
      change (List.last (y :: z :: r) x) with (List.last (z :: r) x).
      by rewrite (IH z x), (IH z y). }
    assert (apart q P) as HqP.
    { destruct HPin as [<-|HPin]; [done|].
      apply Forall_app in Hq' as [Hqr _]. rewrite Forall_forall in Hqr.
      apply Hqr. by apply list_elem_of_In. }
    assert (q = N \/ apart q N) as HqN.
    { destruct next_is_anchor_or_listed as [E|[r' E]].
      - rewrite E. destruct Hql; [by left|by right].
      - right. apply Forall_app in Hq' as [_ Hq2]. apply Forall_cons in Hq2 as [_ Hq2].
        rewrite E in Hq2. by apply Forall_cons in Hq2 as [? _]. }
    assert (load_ptr m' (next_of q) = x) as ->.
    { unfold m'. unfold apart, next_of, prev_of in *. mem_simpl. done. }
    split; [done|]. split; [done|].
    apply IH; try done. right. by apply apart_sym.
Qed.

End Remove.

Lemma loadN_same_bytes k : forall (m m' : gmap Z Z) a,
  (forall b, a <= b < a + Z.of_nat k -> load8 m' b = load8 m b) ->
  loadN k m' a = loadN k m a.
Proof.
  induction k as [|k IH]; intros m m' a H; cbn [loadN]; [done|].
  rewrite H by lia. rewrite (IH m m') by (intros; apply H; lia). done.
Qed.

Section ListTheorems.

Implicit Types (m : gmap Z Z) (l c : Z) (xs : list Z) (fuel : nat).

Lemma chain_app m l c xs2 : forall xs1 p,
  chain m l p (xs1 ++ c :: xs2) -> chain m l (load_ptr m (next_of c)) xs2.
Proof.
  induction xs1 as [|x r IH]; intros p Hc; cbn [app] in Hc.
  - by destruct Hc as (_ & _ & Hc).
  - destruct Hc as (_ & _ & Hc). by apply (IH _ Hc).
Qed.

(** X1. The count [fl_size] returns is the number of chunks on the list:
    when the walk from the anchor comes back to it within the fuel, having
    met [xs], [fl_size] answers [length xs]. *)
Theorem fl_size_counts_chunks m l fuel xs :
  fl_chunks fuel m l = Some xs ->
  Z.of_nat (length xs) < 2 ^ 31 ->
  fl_size fuel m l = Some (Z.of_nat (length xs)).
Proof.
  intros Hxs Hlen. apply fl_chunks_loop_chain in Hxs as [Hc Hl].
  unfold fl_size. rewrite (fl_size_loop_chain fuel m l _ xs 0) by (done || lia).
  f_equal.
Qed.

(** X2. [fl_insert(l, c)] puts [c] at the head of the list and keeps the
    rest: if the list held [xs], and [c], the anchor and the listed chunks
    are pairwise disjoint nodes, the list afterwards holds [c :: xs], with
    [c->prev] the anchor and the old head's [prev] pointing at [c]. *)
Theorem fl_insert_at_head m l c xs fuel :
  size_range l -> size_range c ->
  fl_chunks fuel m l = Some xs ->
  all_apart (c :: l :: xs) ->
  fl_chunks (S fuel) (fl_insert m l c) l = Some (c :: xs) /\
  load_ptr (fl_insert m l c) (prev_of c) = l /\
  load_ptr (fl_insert m l c) (prev_of (hd l xs)) = c.
Proof.
  intros Hl Hc Hxs Hap. apply fl_chunks_loop_chain in Hxs as [Hch Hlen].
  destruct (fl_insert_links m l c xs Hl Hc Hch Hap) as (_ & E2 & _ & E4 & _).
  split.
  - apply fl_chunks_loop_chain. split; [|simpl; lia].
    by apply fl_insert_chain.
  - split; [done|]. cbv zeta in E4.
    destruct xs as [|x r]; cbn [hd].
    + simpl in Hch. by rewrite Hch in E4.
    + destruct Hch as (E & _). by rewrite E in E4.
Qed.

(** X3. Inserting a chunk and removing it again restores the list: every
    byte outside the chunk's own two link fields is as it was before, and
    so the list holds the same chunks. *)
Theorem fl_insert_then_remove m l c xs fuel :
  size_range l -> size_range c ->
  fl_chunks fuel m l = Some xs ->
  all_apart (c :: l :: xs) ->
  load_ptr m (prev_of (hd l xs)) = l ->
  let m' := fl_remove (fl_insert m l c) c in
  (forall a, a < prev_of c \/ next_of c + 8 <= a -> load8 m' a = load8 m a) /\
  fl_chunks fuel m' l = Some xs.
Proof.
  intros Hl Hc Hxs Hap Hprev m'.
  apply fl_chunks_loop_chain in Hxs as [Hch Hlen].
  destruct Hap as (Hca & Hla & Hxx). apply Forall_cons in Hca as [Hcl Hcx].
  assert (hd l xs = load_ptr m (next_of l)) as Ehd.
  { destruct xs as [|x r]; cbn [hd]; [by simpl in Hch|]. by destruct Hch as (-> & _). }
  rewrite Ehd in Hprev.
  assert (load_ptr m (next_of l) = l \/
          (apart (load_ptr m (next_of l)) c /\ apart (load_ptr m (next_of l)) l)) as Hhead.
  { rewrite <- Ehd. destruct xs as [|x r]; cbn [hd]; [by left|right].
    apply Forall_cons in Hcx as [? _]. apply Forall_cons in Hla as [? _].
    split; by apply apart_sym. }
  assert (forall a, a < prev_of c \/ next_of c + 8 <= a -> load8 m' a = load8 m a) as Hbytes.
  { intros a Ha. by apply fl_insert_remove_bytes. }
  split; [done|].
  assert (forall x, apart c x -> load_ptr m' (next_of x) = load_ptr m (next_of x)) as Hnext.
  { intros x Hx. unfold load_ptr. apply loadN_same_bytes. intros b Hb.
    apply Hbytes. unfold apart, prev_of, next_of in *. simpl in Hb. lia. }
  apply fl_chunks_loop_chain. split; [|done].
  rewrite Hnext by done. apply (chain_ext m); [|done].
  rewrite Forall_forall in Hcx |- *. intros x Hin. apply Hnext. by apply Hcx.
Qed.

(** X4. [fl_remove(c)] takes exactly [c] off the list, wherever it stands:
    if the list holds [xs1 ++ c :: xs2] with pairwise disjoint nodes and
    [c->prev] is the node before [c], the list afterwards holds
    [xs1 ++ xs2], and the node after [c] has the node before [c] as its
    [prev]. *)
Theorem fl_remove_unlinks m l c xs1 xs2 fuel :
  fl_chunks fuel m l = Some (xs1 ++ c :: xs2) ->
  all_apart (l :: xs1 ++ c :: xs2) ->
  load_ptr m (prev_of c) = List.last xs1 l ->
  fl_chunks fuel (fl_remove m c) l = Some (xs1 ++ xs2) /\
  load_ptr (fl_remove m c) (prev_of (hd l xs2)) = List.last xs1 l.
Proof.
  intros Hxs Hap Hprev. apply fl_chunks_loop_chain in Hxs as [Hch Hlen].
  destruct Hap as (Hl & Hall).
  pose proof (all_apart_app _ _ Hall) as (H11 & Hc2 & H12).
  destruct Hc2 as (Hc2 & H22).
  apply Forall_app in Hl as [Hl1 Hlc]. apply Forall_cons in Hlc as [Hlc Hl2].
  pose proof (chain_app _ _ _ _ _ _ Hch) as Htail.
  set (P := load_ptr m (prev_of c)) in *. set (N := load_ptr m (next_of c)) in *.
  assert (size_range P) as HPr by apply load_ptr_range.
  assert (size_range N) as HNr by apply load_ptr_range.
  assert (apart P c) as HPc.
  { rewrite Hprev. destruct xs1 as [|x r] using rev_ind; [done|].
    rewrite List.last_last. apply Forall_app in H12 as [_ H12].
    apply Forall_cons in H12 as [H12 _]. by apply Forall_cons in H12 as [? _]. }
  assert (hd l xs2 = N) as EN.
  { destruct xs2 as [|x r]; cbn [hd]; [by simpl in Htail|]. by destruct Htail as (-> & _). }
  assert (P = N \/ apart P N) as HPN.
  { rewrite <- EN. destruct xs2 as [|y r2]; cbn [hd].
    - rewrite Hprev. destruct xs1 as [|x r] using rev_ind; [by left|right].
      rewrite List.last_last. apply Forall_app in Hl1 as [_ Hl1].
      apply Forall_cons in Hl1 as [? _]. by apply apart_sym.
    - right. rewrite Hprev. destruct xs1 as [|x r] using rev_ind.
      + cbn [List.last]. by apply Forall_cons in Hl2 as [? _].
      + rewrite List.last_last. apply Forall_app in H12 as [_ H12].
        apply Forall_cons in H12 as [H12 _]. apply Forall_cons in H12 as [_ H12].
        by apply Forall_cons in H12 as [? _]. }
  assert (fl_remove m c = store_ptr (store_ptr m (next_of P) N) (prev_of N) P) as Erem.
  { unfold fl_remove. fold P N.
    assert (load_ptr (store_ptr m (next_of P) N) (next_of c) = N) as ->.
    { unfold apart, next_of, prev_of in *. mem_simpl. done. }
    assert (load_ptr (store_ptr m (next_of P) N) (prev_of c) = P) as ->.
    { unfold apart, next_of, prev_of in *. mem_simpl. done. }
    done. }
  rewrite Erem, EN. split.
  - apply fl_chunks_loop_chain. split; [|rewrite length_app in *; simpl in *; lia].
    apply (remove_walk m l c xs2 Htail Hc2 Hl2 H22 (apart_sym _ _ Hlc) xs1 l); try done.
    + apply Forall_app. split; [done|]. by constructor.
    + by left.
  - unfold apart, next_of, prev_of in *. mem_simpl. done.
Qed.

End ListTheorems.

Section ListWitnesses.

Import Scenario.

Ltac nodes_apart :=
  unfold c128, c64, c16, FL0, im0; cbn [FreeList all_apart];
  repeat split; repeat constructor; unfold apart; lia.

Lemma fl_size_counts_chunks_witness : fl_size 4 heap_small_first FL0 = Some 3.
Proof.
  apply (fl_size_counts_chunks heap_small_first FL0 4 [c16; c64; c128]).
  - vm_compute. reflexivity.
  - vm_compute. reflexivity.
Defined.

Lemma fl_insert_at_head_witness :
  fl_chunks 5 (fl_insert heap_small_first FL0 (c128 + 136)) FL0 =
    Some [c128 + 136; c16; c64; c128].
Proof.
  apply (fl_insert_at_head heap_small_first FL0 (c128 + 136) [c16; c64; c128] 4).
  - vm_compute. split; [discriminate|reflexivity].
  - vm_compute. split; [discriminate|reflexivity].
  - vm_compute. reflexivity.
  - nodes_apart.
Defined.

Lemma fl_insert_then_remove_witness :
  fl_chunks 4 (fl_remove (fl_insert heap_small_first FL0 (c128 + 136)) (c128 + 136)) FL0 =
    Some [c16; c64; c128].
Proof.
  apply (fl_insert_then_remove heap_small_first FL0 (c128 + 136) [c16; c64; c128] 4).
  - vm_compute. split; [discriminate|reflexivity].
  - vm_compute. split; [discriminate|reflexivity].
  - vm_compute. reflexivity.
  - nodes_apart.
  - vm_compute. reflexivity.
Defined.

Lemma fl_remove_unlinks_witness :
  fl_chunks 4 (fl_remove heap_small_first c64) FL0 = Some [c16; c128].
Proof.
  apply (fl_remove_unlinks heap_small_first FL0 c64 [c16] [c128] 4).
  - vm_compute. reflexivity.
  - nodes_apart.
  - vm_compute. reflexivity.
Defined.

End ListWitnesses.

(** ** What a request leaves untouched, and what it leaves behind *)

Section EmptyList.

Variables (im : image) (s : state) (size : Z).

Hypothesis Hready : heap_ready im s.
Hypothesis Hempty : load_ptr (mem s) (next_of (FreeList im)) = FreeList im.
Hypothesis Hsize : 0 <= size.
Hypothesis Hint : size + 32 + PAGE_SIZE s < 2 ^ 31.

Lemma hmalloc_empty_run :
  let need := Z.max size H_MINPAYLOAD in
  let B := brk s in
  let D := PAGE_SIZE s * ((need + 16 + PAGE_SIZE s - 1) / PAGE_SIZE s) in
  let L := FreeList im in
  let m1 := store_info (store_info (mem s) B 0) (B + D - 4) 0 in
  let m2 := store_info (store_info m1 (B + 4) (D - 7)) (B + D - 8) (D - 7) in
  let m3 := store_ptr (store_ptr m2 (B + 8) L) (B + 16) L in
  let m4 := store_ptr (store_ptr m3 (L + 4) (B + 4)) (L + 12) (B + 4) in
  let m5 := store_info (store_info m4 (B + 4) (D - 8)) (B + D - 8) (D - 8) in
  let m6 := store_ptr (store_ptr m5 (L + 12) L) (L + 4) L in
  hmalloc im s size =
    (State m6 (B + D) (BASE s) (B + D) (PAGE_SIZE s) (debug s)
           (Sbrk 0 :: Sbrk D :: trace s), B + 8) /\
  need + 16 <= D < need + 16 + PAGE_SIZE s /\ (8 | D).
Proof.
  intros need B D L m1 m2 m3 m4 m5 m6.
  destruct Hready as (Hlive & HP & HP8 & Hfl0 & Hflb & Hbrk & Hz & _).
  assert (16 <= need) as Hneed by (unfold need, H_MINPAYLOAD, H_PS; lia).
  assert (need <= size + 16) as Hneed' by (unfold need, H_MINPAYLOAD, H_PS; lia).
  assert (hmalloc im s size = hmalloc im s need) as ->.
  { apply hmalloc_max. pose proof (Z.pow_lt_mono_r 2 31 64). lia. }
  assert (load_info (mem s)
            (header_of (fl_findBestFit (mem s) (FreeList im) need)) = 0) as Hmiss.
  { rewrite fl_findBestFit_head. cbv zeta. rewrite Hempty, Z.eqb_refl. done. }
  pose proof (hmalloc_grow_run im s need Hlive HP HP8 Hneed ltac:(lia)
                (conj Hfl0 Hflb) Hbrk (or_introl Hempty) Hmiss) as Hrun.
  cbv zeta in Hrun. rewrite Hempty in Hrun. split; [exact Hrun|].
  split; [apply page_round_bounds; lia|].
  destruct HP8 as [k Hk]. exists (k * ((need + 16 + PAGE_SIZE s - 1) / PAGE_SIZE s)).
  unfold D. rewrite Hk at 1. lia.
Qed.

(** Bytes below the old break and outside the anchor's two links are not
    written. *)
Lemma hmalloc_empty_frame a :
  a < brk s ->
  a < prev_of (FreeList im) \/ next_of (FreeList im) + 8 <= a ->
  load8 (mem (fst (hmalloc im s size))) a = load8 (mem s) a.
Proof.
  intros Ha Ha'. destruct hmalloc_empty_run as (-> & HD & _).
  destruct Hready as (_ & HP & _ & Hfl0 & Hflb & _).
  assert (16 <= Z.max size H_MINPAYLOAD) by (unfold H_MINPAYLOAD, H_PS; lia).
  cbn [fst mem]. unfold store_info, store_ptr, prev_of, next_of in *.
  rewrite !load8_storeN_other by (simpl; lia). done.
Qed.

End EmptyList.

Section NoReuse.

Variables (im : image) (s : state) (size : Z).

Hypothesis Hready : heap_ready im s.
Hypothesis Hempty : load_ptr (mem s) (next_of (FreeList im)) = FreeList im.
Hypothesis Hsize : 0 <= size.
Hypothesis Hint : size + 32 + PAGE_SIZE s < 2 ^ 31.
Hypothesis Hroom : brk s + 2 ^ 32 <= 2 ^ 64.

Lemma hmalloc_empty_again :
  let r := hmalloc im s size in
  heap_ready im (fst r) /\
  load_ptr (mem (fst r)) (next_of (FreeList im)) = FreeList im /\
  load_ptr (mem (fst r)) (prev_of (FreeList im)) = FreeList im /\
  snd r = brk s + 8 /\
  brk s + Z.max size H_MINPAYLOAD + 16 <= brk (fst r) /\
  brk (fst r) < brk s + 2 ^ 31 /\
  PAGE_SIZE (fst r) = PAGE_SIZE s /\
  load_info (mem (fst r)) (brk s + 4) = brk (fst r) - brk s - 8 /\
  trace (fst r) = Sbrk 0 :: Sbrk (brk (fst r) - brk s) :: trace s.
Proof.
  intros r. unfold r.
  destruct (hmalloc_empty_run im s size Hready Hempty Hsize Hint) as (Hrun & HD & HD8).
  rewrite Hrun. cbn [fst snd mem brk BASE HWM PAGE_SIZE debug trace].
  destruct Hready as (Hlive & HP & HP8 & Hfl0 & Hflb & Hbrk & Hz & _).
  assert (16 <= Z.max size H_MINPAYLOAD) as Hneed by (unfold H_MINPAYLOAD, H_PS; lia).
  assert (Z.max size H_MINPAYLOAD <= size + 16) by (unfold H_MINPAYLOAD, H_PS; lia).
  set (D := PAGE_SIZE s * _) in *. set (B := brk s) in *.
  assert (8 | D - 8) as HD8' by (destruct HD8 as [k ->]; exists (k - 1); lia).
  assert (size_range (FreeList im)) as Hflr.
  { pose proof (Z.pow_lt_mono_r 2 31 64). range_solve. }
  unfold heap_ready, head_ok, header_of, prev_of, next_of in *.
  cbn [fst snd mem brk BASE HWM PAGE_SIZE debug trace].
  set (mf := store_ptr _ (FreeList im + 4) (FreeList im)).
  assert (load_ptr mf (FreeList im + 12) = FreeList im) as E1 by (unfold mf; mem_simpl; done).
  assert (load_ptr mf (FreeList im + 4) = FreeList im) as E2 by (unfold mf; mem_simpl; done).
  assert (load_info mf (FreeList im) = 0) as E3 by (unfold mf; mem_simpl; done).
  assert (load_info mf (B + 4) = D - 8) as E4 by (unfold mf; mem_simpl; done).
  split.
  { split; [done|]. split; [done|]. split; [done|]. split; [done|].
    split; [lia|]. split; [lia|]. split; [done|]. by left. }
  split; [done|]. split; [done|]. split; [done|]. split; [lia|]. split; [lia|].
  split; [done|]. split; [rewrite E4; lia|].
  by replace (B + D - B) with D by lia.
Qed.

Lemma hmalloc_empty_footer :
  let r := hmalloc im s size in
  load_info (mem (fst r)) (brk (fst r) - 8) = brk (fst r) - brk s - 8.
Proof.
  intros r. unfold r.
  destruct (hmalloc_empty_run im s size Hready Hempty Hsize Hint) as (Hrun & HD & HD8).
  rewrite Hrun. cbn [fst snd mem brk BASE HWM PAGE_SIZE debug trace].
  destruct Hready as (Hlive & HP & HP8 & Hfl0 & Hflb & Hbrk & Hz & _).
  assert (16 <= Z.max size H_MINPAYLOAD) as Hneed by (unfold H_MINPAYLOAD, H_PS; lia).
  assert (Z.max size H_MINPAYLOAD <= size + 16) by (unfold H_MINPAYLOAD, H_PS; lia).
  set (D := PAGE_SIZE s * _) in *. set (B := brk s) in *.
  assert (size_range (FreeList im)) as Hflr.
  { pose proof (Z.pow_lt_mono_r 2 31 64). range_solve. }
  mem_simpl. lia.
Qed.

End NoReuse.

(** X5. On a heap whose free list is empty, [hmalloc] always claims new
    pages and leaves the list empty again: the state it returns is ready
    for the next request, the pointer is eight bytes past the old break,
    and the break has moved by at least the request plus 16. *)
Theorem hmalloc_keeps_list_empty (im : image) (s : state) (size : Z) :
  heap_ready im s ->
  load_ptr (mem s) (next_of (FreeList im)) = FreeList im ->
  0 <= size -> size + 32 + PAGE_SIZE s < 2 ^ 31 ->
  brk s + 2 ^ 32 <= 2 ^ 64 ->
  let r := hmalloc im s size in
  heap_ready im (fst r) /\
  load_ptr (mem (fst r)) (next_of (FreeList im)) = FreeList im /\
  load_ptr (mem (fst r)) (prev_of (FreeList im)) = FreeList im /\
  snd r = brk s + 8 /\
  brk s + Z.max size H_MINPAYLOAD + 16 <= brk (fst r).
Proof.
  intros Hready Hempty Hsize Hint Hroom r.
  destruct (hmalloc_empty_again im s size Hready Hempty Hsize Hint Hroom)
    as (H1 & H2 & H3 & H4 & H5 & _).
  done.
Qed.

(** X6. Releasing a block does not make its memory reusable.  After
    [p = hmalloc(n)], [hfree(p)] and [q = hmalloc(n)] on a heap whose list
    was empty, [hfree] has changed no byte of memory, the second request has
    moved the break again, and [q] lies beyond the whole of the first
    chunk. *)
Theorem hfree_then_hmalloc_claims_again (im : image) (s : state) (size : Z) :
  heap_ready im s ->
  load_ptr (mem s) (next_of (FreeList im)) = FreeList im ->
  0 <= size -> size + 32 + PAGE_SIZE s < 2 ^ 31 ->
  brk s + 2 ^ 33 <= 2 ^ 64 ->
  let r1 := hmalloc im s size in
  let s2 := hfree im (fst r1) (snd r1) in
  let r3 := hmalloc im s2 size in
  mem s2 = mem (fst r1) /\
  brk s2 = brk (fst r1) /\
  snd r3 = brk (fst r1) + 8 /\
  brk (fst r1) < brk (fst r3) /\
  snd r1 + ck_payloadSize (mem (fst r1)) (chunk_of (snd r1)) < snd r3.
Proof.
  intros Hready Hempty Hsize Hint Hroom r1 s2 r3.
  assert (brk s + 2 ^ 32 <= 2 ^ 64) as Hroom1 by lia.
  destruct (hmalloc_empty_again im s size Hready Hempty Hsize Hint Hroom1)
    as (Hr1 & He1 & _ & Hp1 & Hb1 & Hb1' & HP1 & Hh1 & _).
  fold r1 in Hr1, He1, Hp1, Hb1, Hb1', HP1, Hh1.
  assert (16 <= Z.max size H_MINPAYLOAD) as Hneed by (unfold H_MINPAYLOAD, H_PS; lia).
  pose proof Hready as (_ & _ & _ & Hfl0 & Hflb & _).
  assert (chunk_of (snd r1) = brk s + 4) as Ec.
  { rewrite Hp1. unfold chunk_of, H_IS. rewrite PTR_ADD_to_size.
    rewrite to_size_id by range_solve. lia. }
  assert (s2 = emit (fst r1) (Printf "Cannot free a chunk that's already free\n" [])) as Es2.
  { unfold s2. apply hfree_nonzero_header; [apply Hr1|].
    rewrite Ec. unfold header_of. rewrite Hh1. lia. }
  assert (heap_ready im s2) as Hr2 by (rewrite Es2; exact Hr1).
  assert (load_ptr (mem s2) (next_of (FreeList im)) = FreeList im) as He2
    by (rewrite Es2; exact He1).
  assert (size + 32 + PAGE_SIZE s2 < 2 ^ 31) as Hint2 by (rewrite Es2; cbn; lia).
  assert (brk s2 + 2 ^ 32 <= 2 ^ 64) as Hroom2 by (rewrite Es2; cbn; lia).
  destruct (hmalloc_empty_again im s2 size Hr2 He2 Hsize Hint2 Hroom2)
    as (_ & _ & _ & Hp3 & Hb3 & _).
  fold r3 in Hp3, Hb3.
  assert (brk s2 = brk (fst r1)) as Eb by (by rewrite Es2).
  split; [by rewrite Es2|]. split; [done|]. split; [lia|]. split; [lia|].
  rewrite Ec, Hp3, Eb, Hp1.
  unfold ck_payloadSize, ck_size, header_of. rewrite Hh1.
  assert (8 | brk (fst r1) - brk s - 8) as H8.
  { destruct (hmalloc_empty_run im s size Hready Hempty Hsize Hint) as (Hrun & _ & [k Hk]).
    unfold r1. rewrite Hrun. cbn [fst brk]. exists (k - 1). lia. }
  rewrite sizemask_mult8 by done.
  rewrite ssub_to_size, to_int_to_size. unfold H_IS.
  rewrite to_int_id by range_solve. lia.
Qed.

(** ** Copies *)

Section Copies.

Implicit Types (m : gmap Z Z) (p q a : Z) (k : nat).

Lemma load8_memcpy_loop_out k : forall m q p a,
  a < q \/ q + Z.of_nat k <= a ->
  load8 (memcpy_loop k m q p) a = load8 m a.
Proof.
  induction k as [|k IH]; intros m q p a Ha; cbn [memcpy_loop]; [done|].
  rewrite IH by lia. apply load8_store8_other. lia.
Qed.

(** Copying upwards from the lowest byte, a source byte is read before any
    write can reach it when it lies below the destination, or when the whole
    destination starts at or below the source. *)
Lemma load8_memcpy_loop_in k : forall m q p i,
  0 <= i < Z.of_nat k -> p + i < q \/ q <= p ->
  load8 (memcpy_loop k m q p) (q + i) = load8 m (p + i).
Proof.
  induction k as [|k IH]; intros m q p i Hi Hpq; [lia|].
  cbn [memcpy_loop]. destruct (Z.eq_dec i 0) as [->|Hi0].
  - rewrite !Z.add_0_r. rewrite load8_memcpy_loop_out by lia.
    rewrite load8_store8_same. apply Z.mod_small. apply load8_range.
  - replace (q + i) with (q + 1 + (i - 1)) by lia.
    rewrite IH by lia. replace (p + 1 + (i - 1)) with (p + i) by lia.
    apply load8_store8_other. lia.
Qed.

Lemma load8_memcpy_in m q p n i :
  0 <= i < n -> p + i < q \/ q <= p ->
  load8 (memcpy m q p n) (q + i) = load8 m (p + i).
Proof. intros Hi Hpq. unfold memcpy. apply load8_memcpy_loop_in; lia. Qed.

Lemma load8_memcpy_out m q p n a :
  0 <= n -> a < q \/ q + n <= a ->
  load8 (memcpy m q p n) a = load8 m a.
Proof. intros Hn Ha. unfold memcpy. apply load8_memcpy_loop_out. lia. Qed.

Lemma strlen_unique m s n :
  0 <= n -> load8 m (s + n) = 0 ->
  (forall i, 0 <= i < n -> load8 m (s + i) <> 0) ->
  strlen m s = n.
Proof.
  intros Hn Hz Hnz. destruct (strlen_spec m s) as (Hk & Hkz & Hknz).
  destruct (Z.lt_trichotomy (strlen m s) n) as [Hlt|[E|Hgt]]; [|done|].
  - exfalso. by apply (Hnz (strlen m s)).
  - exfalso. by apply (Hknz n).
Qed.

End Copies.

(** X7. [hrealloc] to a larger size on a heap whose list is empty: the new
    block starts eight bytes past the old break, holds the request, and its
    first bytes, as many as the old payload had, are the old contents.  The
    old chunk keeps its tag: it is not released. *)
Theorem hrealloc_moves_contents (im : image) (s : state) (p size : Z) :
  heap_ready im s ->
  load_ptr (mem s) (next_of (FreeList im)) = FreeList im ->
  FreeList im + 24 <= p ->
  load_info (mem s) (header_of (chunk_of p)) <> 0 ->
  0 <= ck_payloadSize (mem s) (chunk_of p) < size ->
  p + ck_payloadSize (mem s) (chunk_of p) <= brk s ->
  size + 32 + PAGE_SIZE s < 2 ^ 31 ->
  brk s + 2 ^ 32 <= 2 ^ 64 ->
  let r := hrealloc im s p size in
  let q := snd r in
  q = brk s + 8 /\
  (forall i, 0 <= i < ck_payloadSize (mem s) (chunk_of p) ->
             load8 (mem (fst r)) (q + i) = load8 (mem s) (p + i)) /\
  size <= ck_payloadSize (mem (fst r)) (chunk_of q) /\
  load_info (mem (fst r)) (header_of (chunk_of p)) =
    load_info (mem s) (header_of (chunk_of p)) /\
  trace (fst r) =
    Printf "Cannot free a chunk that's already free\n" [] ::
    Memcpy q p size :: Sbrk 0 :: Sbrk (brk (fst r) - brk s) :: trace s.
Proof.
  intros Hready Hempty Hp Htag Hcap Hin Hint Hroom r q.
  pose proof Hready as (Hlive & HP & _ & Hfl0 & Hflb & Hbrk & _).
  set (cap := ck_payloadSize (mem s) (chunk_of p)) in *.
  assert (chunk_of p = p - 4) as Ec.
  { unfold chunk_of, H_IS. rewrite PTR_ADD_to_size. apply to_size_id. range_solve. }
  assert (0 <= size) as Hs0 by lia.
  destruct (hmalloc_empty_again im s size Hready Hempty Hs0 Hint Hroom)
    as (Hr1 & _ & _ & Hq & Hb1 & Hb1' & _ & Hh1 & Htr).
  pose proof (hmalloc_empty_frame im s size Hready Hempty Hs0 Hint) as Hframe.
  assert (to_size size = size) as Esz.
  { apply to_size_id. pose proof (Z.pow_lt_mono_r 2 31 64). range_solve. }
  assert (r = (hfree im
                 (with_mem (emit (fst (hmalloc im s size)) (Memcpy (snd (hmalloc im s size)) p size))
                    (memcpy (mem (fst (hmalloc im s size))) (snd (hmalloc im s size)) p size)) p,
               snd (hmalloc im s size))) as Er.
  { unfold r, hrealloc. rewrite init_live by done. fold (chunk_of p). fold cap.
    destruct (Z.ltb_spec cap size); [|lia].
    destruct (hmalloc im s size) as [s1 q1]. cbn [fst snd]. by rewrite Esz. }
  destruct (hmalloc im s size) as [s1 q1] eqn:Hrun. cbn [fst snd] in *.
  set (s1' := with_mem (emit s1 (Memcpy q1 p size)) (memcpy (mem s1) q1 p size)) in *.
  assert (forall a, a < q1 -> load8 (mem s1') a = load8 (mem s1) a) as Hcpy_out.
  { intros a Ha. unfold s1'. cbn [mem with_mem]. apply load8_memcpy_out; lia. }
  assert (load_info (mem s1') (header_of (chunk_of p)) =
          load_info (mem s) (header_of (chunk_of p))) as Htag'.
  { unfold load_info, header_of. f_equal. rewrite Ec.
    apply loadN_same_bytes. intros b Hb. simpl in Hb.
    rewrite Hcpy_out by lia. apply Hframe; unfold prev_of, next_of; lia. }
  assert (hfree im s1' p =
          emit s1' (Printf "Cannot free a chunk that's already free\n" [])) as Efree.
  { apply hfree_nonzero_header; [apply Hr1|]. by rewrite Htag'. }
  unfold q. rewrite Er, Efree. cbn [fst snd mem emit with_mem trace].
  split; [done|]. split.
  { intros i Hi. unfold s1'. cbn [mem with_mem].
    rewrite load8_memcpy_in by lia.
    apply Hframe; unfold prev_of, next_of; lia. }
  split.
  { assert (chunk_of q1 = brk s + 4) as ->.
    { rewrite Hq. unfold chunk_of, H_IS. rewrite PTR_ADD_to_size.
      rewrite to_size_id by range_solve. lia. }
    unfold s1'. cbn [mem with_mem].
    unfold ck_payloadSize, ck_size, header_of, load_info.
    rewrite (loadN_same_bytes 4 (mem s1)).
    2:{ intros b Hb. simpl in Hb. apply load8_memcpy_out; lia. }
    fold (load_info (mem s1) (brk s + 4)). rewrite Hh1.
    destruct (hmalloc_empty_run im s size Hready Hempty Hs0 Hint) as (Hrun' & HD & [k Hk]).
    rewrite Hrun in Hrun'. injection Hrun' as E1 _.
    assert (brk s1 - brk s = k * 8) as Ek by (rewrite E1; cbn [brk]; lia).
    rewrite sizemask_mult8 by (exists (k - 1); lia).
    rewrite ssub_to_size, to_int_to_size. unfold H_IS, H_MINPAYLOAD, H_PS in *.
    rewrite to_int_id by range_solve. lia. }
  split; [exact Htag'|].
  unfold s1'. cbn [trace emit with_mem]. by rewrite Htr.
Qed.

(** X8. [hstrdup] on a heap whose list is empty: the new block holds the
    bytes of the string and its terminator, so it reads back as a string of
    the same length; its header still gives a payload of at least that
    length, and when the payload is longer than the string the footer still
    equals the header. *)
Theorem hstrdup_copies_string (im : image) (s : state) (str : Z) :
  heap_ready im s ->
  load_ptr (mem s) (next_of (FreeList im)) = FreeList im ->
  FreeList im + 20 <= str ->
  str + strlen (mem s) str < brk s ->
  strlen (mem s) str + 32 + PAGE_SIZE s < 2 ^ 31 ->
  brk s + 2 ^ 32 <= 2 ^ 64 ->
  let n := strlen (mem s) str in
  let r := hstrdup im s str in
  let q := snd r in
  let m' := mem (fst r) in
  q = brk s + 8 /\
  (forall i, 0 <= i <= n -> load8 m' (q + i) = load8 (mem s) (str + i)) /\
  strlen m' q = n /\
  n <= ck_payloadSize m' (chunk_of q) /\
  (n < ck_payloadSize m' (chunk_of q) ->
   load_info m' (ck_footerAddr m' (chunk_of q)) = load_info m' (header_of (chunk_of q))).
Proof.
  intros Hready Hempty Hstr Hin Hint Hroom n r q m'.
  pose proof Hready as (Hlive & HP & _ & Hfl0 & Hflb & Hbrk & _).
  destruct (strlen_spec (mem s) str) as (Hn0 & Hnz & Hnn). fold n in Hn0, Hnz, Hnn, Hin, Hint.
  assert (to_int n = n) as En by (apply to_int_id; range_solve).
  destruct (hmalloc_empty_again im s n Hready Hempty Hn0 Hint Hroom)
    as (Hr1 & _ & _ & Hq & Hb1 & Hb1' & _ & Hh1 & Htr).
  pose proof (hmalloc_empty_frame im s n Hready Hempty Hn0 Hint) as Hframe.
  destruct (hmalloc_empty_run im s n Hready Hempty Hn0 Hint) as (Hrun' & HD & [k Hk]).
  assert (forall s1 q1, hmalloc im s n = (s1, q1) ->
            r = (with_mem (emit s1 (Strcpy q1 str)) (strcpy (mem s1) q1 str), q1)) as Er.
  { intros s1 q1 E. unfold r, hstrdup. fold n. rewrite En, E. done. }
  destruct (hmalloc im s n) as [s1 q1] eqn:Hrun. cbn [fst snd] in *.
  specialize (Er s1 q1 eq_refl).
  assert (forall i, 0 <= i <= n -> load8 (mem s1) (str + i) = load8 (mem s) (str + i)) as Hsame.
  { intros i Hi. apply Hframe; unfold prev_of, next_of; lia. }
  assert (strlen (mem s1) str = n) as Elen.
  { apply strlen_unique; [done| |].
    - rewrite Hsame by lia. done.
    - intros i Hi. rewrite Hsame by lia. by apply Hnn. }
  assert (m' = memcpy (mem s1) q1 str (n + 1)) as Em.
  { unfold m'. rewrite Er. cbn [fst mem with_mem emit]. unfold strcpy. by rewrite Elen. }
  assert (forall i, 0 <= i <= n -> load8 m' (q1 + i) = load8 (mem s) (str + i)) as Hcopy.
  { intros i Hi. rewrite Em, load8_memcpy_in by lia. by apply Hsame. }
  assert (chunk_of q1 = brk s + 4) as Ec.
  { rewrite Hq. unfold chunk_of, H_IS. rewrite PTR_ADD_to_size.
    rewrite to_size_id by range_solve. lia. }
  pose proof (hmalloc_empty_footer im s n Hready Hempty Hn0 Hint Hroom) as Hfoot.
  cbv zeta in Hfoot. rewrite Hrun in Hfoot. cbn [fst] in Hfoot.
  assert (brk s1 - brk s = k * 8) as Ek.
  { apply (f_equal (fun x => brk (fst x))) in Hrun'. cbn [fst brk] in Hrun'. lia. }
  clear Hrun'.
  assert (load_info m' (brk s + 4) = brk s1 - brk s - 8) as Hh'.
  { rewrite <- Hh1. unfold load_info. f_equal. apply loadN_same_bytes.
    intros b Hb. simpl in Hb. rewrite Em. apply load8_memcpy_out; lia. }
  assert (ck_size m' (brk s + 4) = brk s1 - brk s - 8) as Hsz.
  { unfold ck_size, header_of. rewrite Hh'. apply sizemask_mult8. exists (k - 1). lia. }
  assert (ck_payloadSize m' (brk s + 4) = brk s1 - brk s - 16) as Hcap.
  { unfold ck_payloadSize. rewrite Hsz. rewrite ssub_to_size, to_int_to_size.
    unfold H_IS, H_MINPAYLOAD, H_PS in *. rewrite to_int_id by range_solve. lia. }
  unfold q. rewrite Er. cbn [snd]. rewrite Ec, Hcap.
  split; [done|]. split; [exact Hcopy|]. split.
  { apply strlen_unique; [done| |].
    - rewrite Hcopy by lia. done.
    - intros i Hi. rewrite Hcopy by lia. by apply Hnn. }
  split.
  { unfold H_MINPAYLOAD, H_PS in Hb1. lia. }
  intros Hlong.
  assert (ck_footerAddr m' (brk s + 4) = brk s1 - 8) as ->.
  { unfold ck_footerAddr, header_of. cbv zeta. rewrite Hh'.
    rewrite sizemask_mult8 by (exists (k - 1); lia).
    unfold H_IS. rewrite ssub_to_size, PTR_ADD_to_size.
    rewrite to_size_id by range_solve. lia. }
  unfold header_of. rewrite Hh'.
  unfold load_info. rewrite (loadN_same_bytes 4 (mem s1)).
  2:{ intros b Hb. simpl in Hb. rewrite Em. apply load8_memcpy_out; lia. }
  fold (load_info (mem s1) (brk s1 - 8)). exact Hfoot.
Qed.

Section RequestWitnesses.

Import Scenario.

Ltac ready_arena :=
  repeat split; try (vm_compute; (reflexivity || discriminate));
  [ exists 512; vm_compute; reflexivity | left; vm_compute; reflexivity ].

Lemma hmalloc_keeps_list_empty_witness :
  let r := hmalloc im0 arena 100 in
  heap_ready im0 (fst r) /\
  load_ptr (mem (fst r)) (next_of (FreeList im0)) = FreeList im0 /\
  load_ptr (mem (fst r)) (prev_of (FreeList im0)) = FreeList im0 /\
  snd r = brk arena + 8 /\
  brk arena + Z.max 100 H_MINPAYLOAD + 16 <= brk (fst r).
Proof.
  apply (hmalloc_keeps_list_empty im0 arena 100).
  - ready_arena.
  - vm_compute. reflexivity.
  - lia.
  - vm_compute. reflexivity.
  - vm_compute. discriminate.
Defined.

Lemma hfree_then_hmalloc_claims_again_witness :
  let r1 := hmalloc im0 arena 100 in
  let s2 := hfree im0 (fst r1) (snd r1) in
  let r3 := hmalloc im0 s2 100 in
  mem s2 = mem (fst r1) /\ brk s2 = brk (fst r1) /\
  snd r3 = brk (fst r1) + 8 /\ brk (fst r1) < brk (fst r3) /\
  snd r1 + ck_payloadSize (mem (fst r1)) (chunk_of (snd r1)) < snd r3.
Proof.
  apply (hfree_then_hmalloc_claims_again im0 arena 100).
  - ready_arena.
  - vm_compute. reflexivity.
  - lia.
  - vm_compute. reflexivity.
  - vm_compute. discriminate.
Defined.

Lemma hrealloc_moves_contents_witness :
  let r := hrealloc im0 arena 6299656 5000 in
  snd r = brk arena + 8 /\
  (forall i, 0 <= i < ck_payloadSize (mem arena) (chunk_of 6299656) ->
             load8 (mem (fst r)) (snd r + i) = load8 (mem arena) (6299656 + i)) /\
  5000 <= ck_payloadSize (mem (fst r)) (chunk_of (snd r)) /\
  load_info (mem (fst r)) (header_of (chunk_of 6299656)) =
    load_info (mem arena) (header_of (chunk_of 6299656)) /\
  trace (fst r) =
    Printf "Cannot free a chunk that's already free\n" [] ::
    Memcpy (snd r) 6299656 5000 :: Sbrk 0 :: Sbrk (brk (fst r) - brk arena) ::
    trace arena.
Proof.
  apply (hrealloc_moves_contents im0 arena 6299656 5000).
  - ready_arena.
  - vm_compute. reflexivity.
  - vm_compute. discriminate.
  - vm_compute. discriminate.
  - vm_compute. split; [discriminate|reflexivity].
  - vm_compute. discriminate.
  - vm_compute. reflexivity.
  - vm_compute. discriminate.
Defined.

Lemma hstrdup_copies_string_witness :
  let n := strlen (mem arena_text) 6299656 in
  let r := hstrdup im0 arena_text 6299656 in
  let q := snd r in
  let m' := mem (fst r) in
  q = brk arena_text + 8 /\
  (forall i, 0 <= i <= n -> load8 m' (q + i) = load8 (mem arena_text) (6299656 + i)) /\
  strlen m' q = n /\
  n <= ck_payloadSize m' (chunk_of q) /\
  (n < ck_payloadSize m' (chunk_of q) ->
   load_info m' (ck_footerAddr m' (chunk_of q)) = load_info m' (header_of (chunk_of q))).
Proof.
  apply (hstrdup_copies_string im0 arena_text 6299656).
  - ready_arena.
  - vm_compute. reflexivity.
  - vm_compute. discriminate.
  - vm_compute. reflexivity.
  - vm_compute. reflexivity.
  - vm_compute. discriminate.
Defined.

End RequestWitnesses.

(** ** Tags, the first call, the search, and the two ways of a request *)

(** X9. [ck_setInfo] writes the tag at both ends of the chunk and nothing
    else: header and footer hold the new tag, the size is read back from
    it, and every byte outside the two words is as before. *)
Theorem ck_setInfo_writes_both_tags (m : gmap Z Z) (c sz f : Z) :
  (8 | sz) -> 8 <= sz -> 0 <= f < 8 -> sz + f < 2 ^ 31 ->
  0 <= c -> c + sz <= 2 ^ 64 ->
  let m' := ck_setInfo m c (sz + f) in
  load_info m' (header_of c) = sz + f /\
  ck_footerAddr m' c = c + sz - 4 /\
  load_info m' (ck_footerAddr m' c) = sz + f /\
  ck_size m' c = sz /\
  ck_payloadSize m' c = sz - 8 /\
  (forall a, a < c \/ c + 4 <= a -> a < c + sz - 4 \/ c + sz <= a ->
             load8 m' a = load8 m a).
Proof.
  intros H8 Hsz Hf Hint Hc Hend m'.
  assert (m' = store_info (store_info m c (sz + f)) (c + sz - 4) (sz + f)) as Em.
  { unfold m'. apply ck_setInfo_tag; (done || range_solve). }
  assert (load_info m' (header_of c) = sz + f) as Hh.
  { rewrite Em. unfold header_of. mem_simpl. done. }
  assert (ck_size m' c = sz) as Hs.
  { apply (ck_size_store m' c sz f); (done || range_solve). }
  assert (ck_footerAddr m' c = c + sz - 4) as Hfa.
  { unfold ck_footerAddr. cbv zeta. fold (ck_size m' c). rewrite Hs.
    unfold H_IS. rewrite ssub_to_size, PTR_ADD_to_size.
    rewrite to_size_id by range_solve. lia. }
  split; [exact Hh|]. split; [exact Hfa|]. split.
  { rewrite Hfa, Em. mem_simpl. done. }
  split; [exact Hs|]. split.
  { unfold ck_payloadSize. rewrite Hs. unfold H_IS.
    rewrite ssub_to_size, to_int_to_size. apply to_int_id. range_solve. }
  intros a Ha Ha'. rewrite Em. unfold store_info.
  rewrite !load8_storeN_other; [done| |]; simpl; lia.
Qed.

(** X10. The first call of [init] on a process whose break is not at
    address zero: the globals record the break and the page size, the list
    is empty, nothing outside the 20 bytes of the anchor is written, and a
    second call changes nothing. *)
Theorem init_sets_up_once (im : image) (s : state) :
  BASE s = 0 -> brk s <> 0 -> 0 <= FreeList im -> FreeList im + 20 <= 2 ^ 64 ->
  let s0 := init im s in
  BASE s0 = brk s /\ HWM s0 = brk s /\ brk s0 = brk s /\
  PAGE_SIZE s0 = sys_pagesize im /\
  trace s0 = Sbrk 0 :: trace s /\
  load_info (mem s0) (header_of (FreeList im)) = 0 /\
  load_ptr (mem s0) (prev_of (FreeList im)) = FreeList im /\
  fl_chunks 1 (mem s0) (FreeList im) = Some [] /\
  fl_size 1 (mem s0) (FreeList im) = Some 0 /\
  (forall a, a < FreeList im \/ FreeList im + 20 <= a ->
             load8 (mem s0) a = load8 (mem s) a) /\
  init im s0 = s0.
Proof.
  intros Hb Hbrk Hfl0 Hfl s0.
  assert (size_range (FreeList im)) as Hr by range_solve.
  destruct (init_fresh im s Hb Hr) as (E1 & E2 & E3 & E4 & E5 & E6 & E7 & E8).
  fold s0 in E1, E2, E3, E4, E5, E6, E7, E8.
  do 7 (split; [done|]).
  split. { unfold fl_chunks. cbn [fl_chunks_loop]. rewrite E8, Z.eqb_refl. done. }
  split. { unfold fl_size. cbn [fl_size_loop]. rewrite E8, Z.eqb_refl. done. }
  split.
  { intros a Ha. unfold s0, init. rewrite Hb. cbn [Z.eqb negb sbrk with_mem mem].
    unfold store_ptr, store_info, header_of, prev_of, next_of.
    rewrite !load8_storeN_other; [done| | |]; simpl; lia. }
  apply init_live. rewrite E1. done.
Qed.

(** X11. What [fl_findBestFit] answers, in terms of the chunks on the
    list: the anchor when the list is empty or its first chunk is too
    small, and the first chunk otherwise.  No later chunk is looked at. *)
Theorem fl_findBestFit_answers_head (m : gmap Z Z) (l target : Z)
    (fuel : nat) (xs : list Z) :
  fl_chunks fuel m l = Some xs ->
  fl_findBestFit m l target =
    match xs with
    | [] => l
    | x :: _ => if ck_payloadSize m x <? target then l else x
    end.
Proof.
  intros Hxs. rewrite fl_findBestFit_head. cbv zeta.
  destruct (fl_chunks_head m l fuel xs Hxs) as [[HX ->]|[HX [xs' ->]]].
  - rewrite HX, Z.eqb_refl. done.
  - destruct (Z.eqb_spec (load_ptr m (next_of l)) l) as [E|_]; [done|]. done.
Qed.

Lemma free_bit_of_size m c : Z.land (ck_size m c) H_FREE = 0.
Proof.
  unfold ck_size. rewrite land_sizemask. unfold H_FREE.
  change 1 with (Z.ones 1). rewrite Z.land_ones by lia.
  change (2 ^ 1) with 2. rewrite Z.mul_comm.
  replace (load_info m (header_of c) / 8 * 8) with (load_info m (header_of c) / 8 * 4 * 2) by lia.
  apply Z.mod_mul. lia.
Qed.

(** X12. [ck_split] on a chunk large enough to leave a minimum chunk
    behind: the chunk is cut to the rounded payload, the remainder starts
    right behind it, carries the free flag, and is the new head of the
    list; the two sizes add up to the old one, and both chunks have equal
    tags at their ends. *)
Theorem ck_split_divides_chunk (im : image) (s : state) (c paysize : Z) :
  16 <= paysize < 2 ^ 31 - 16 ->
  0 <= FreeList im -> FreeList im + 20 <= c ->
  c + ck_size (mem s) c <= 2 ^ 64 ->
  (let X := load_ptr (mem s) (next_of (FreeList im)) in
   X = FreeList im \/ X = c \/
   (FreeList im + 20 <= X /\ (X + 12 <= c \/ c + ck_size (mem s) c <= X + 4))) ->
  let ps := 8 * ((paysize + 7) / 8) in
  let sz := ck_size (mem s) c in
  H_MINCHUNK <= sz - (ps + 8) ->
  let r := ck_split im s c paysize in
  let d := snd r in
  let m := mem (fst r) in
  let X := load_ptr (mem s) (next_of (FreeList im)) in
  d = c + ps + 8 /\
  paysize <= ps < paysize + 8 /\
  ck_payloadSize m c = ps /\
  load_info m (header_of c) = ps + 8 /\
  load_info m (ck_footerAddr m c) = ps + 8 /\
  load_info m (header_of d) = Z.lor (sz - (ps + 8)) H_FREE /\
  load_info m (ck_footerAddr m d) = Z.lor (sz - (ps + 8)) H_FREE /\
  Z.land (load_info m (header_of d)) H_FREE = 1 /\
  ck_size m c + ck_size m d = sz /\
  load_ptr m (next_of (FreeList im)) = d /\
  load_ptr m (prev_of d) = FreeList im /\
  load_ptr m (next_of d) = X /\
  load_ptr m (prev_of X) = d.
Proof.
  intros Hpay Hfl0 Hflc Hend Hhead ps sz Hrest r d m X.
  assert (ps + 8 <= sz) as Hfit by (unfold H_MINCHUNK, H_MINPAYLOAD, H_PS, H_IS in Hrest; lia).
  destruct (ck_split_post im s c paysize Hpay Hfit (conj Hfl0 Hflc) Hend Hhead) as [_ Hdiv].
  specialize (Hdiv Hrest). cbv zeta in Hdiv.
  fold r in Hdiv. fold d m in Hdiv. fold ps sz X in Hdiv.
  destruct Hdiv as (Hd & Hh & Hfa & Hf & Hp & Hhd & Hfd & Hfd' & Hfree & Hsum & L1 & L2 & L3 & L4).
  split; [done|]. split.
  { unfold ps. pose proof (Z.mul_div_le (paysize + 7) 8).
    pose proof (Z.mod_pos_bound (paysize + 7) 8).
    pose proof (Z.div_mod (paysize + 7) 8). lia. }
  do 2 (split; [done|]).
  split; [by rewrite Hfa|].
  split; [done|].
  split; [by rewrite Hfd|].
  done.
Qed.

(** X13. Whatever is on the free list, the block [hmalloc] returns is
    the payload of a chunk that holds at least the request and at least
    16 bytes, with the free flag clear and the same tag at both ends. *)
Theorem hmalloc_block_fits (im : image) (s : state) (size : Z) :
  heap_ready im (init im s) ->
  0 <= size ->
  size + 32 + PAGE_SIZE (init im s) < 2 ^ 31 ->
  let r := hmalloc im s size in
  let c := chunk_of (snd r) in
  let m := mem (fst r) in
  snd r = c + 4 /\
  size <= ck_payloadSize m c /\
  H_MINPAYLOAD <= ck_payloadSize m c /\
  Z.land (load_info m (header_of c)) H_FREE = 0 /\
  load_info m (ck_footerAddr m c) = load_info m (header_of c).
Proof.
  intros Hready Hsize Hint r c m.
  destruct (hmalloc_post im s size Hready Hsize Hint) as (_ & Hp & _ & Hcap & Hh & Hf).
  fold r in Hp, Hcap, Hh, Hf. fold c in Hp, Hcap, Hh, Hf. fold m in Hcap, Hh, Hf.
  split; [done|]. split; [lia|]. split; [lia|].
  split; [rewrite Hh; apply free_bit_of_size|].
  by rewrite Hh.
Qed.

(** X14. When the first chunk of the list holds the request, [hmalloc]
    serves it from that chunk and leaves the break alone.  A chunk too
    small to divide is handed out whole and its successor becomes the head
    of the list; otherwise it is cut to the rounded request and the
    remainder, flagged free, becomes the head. *)
Theorem hmalloc_reuses_first_chunk (im : image) (s : state) (size : Z) :
  heap_ready im s ->
  16 <= size < 2 ^ 31 - 16 ->
  let X := load_ptr (mem s) (next_of (FreeList im)) in
  let N := load_ptr (mem s) (next_of X) in
  let ps := 8 * ((size + 7) / 8) in
  let rest := ck_size (mem s) X - (ps + 8) in
  X <> FreeList im ->
  size <= ck_payloadSize (mem s) X ->
  let r := hmalloc im s size in
  let m := mem (fst r) in
  snd r = X + 4 /\
  brk (fst r) = brk s /\
  trace (fst r) = Printf "ck_split entered!\n" [] :: trace s /\
  size <= ck_payloadSize m X /\
  Z.land (load_info m (header_of X)) H_FREE = 0 /\
  load_info m (ck_footerAddr m X) = load_info m (header_of X) /\
  (rest < H_MINCHUNK ->
     ck_size m X = ck_size (mem s) X /\
     load_ptr m (next_of (FreeList im)) = N /\
     load_ptr m (prev_of N) = FreeList im) /\
  (H_MINCHUNK <= rest ->
     ck_payloadSize m X = ps /\
     load_ptr m (next_of (FreeList im)) = X + ps + 8 /\
     load_info m (header_of (X + ps + 8)) = Z.lor rest H_FREE /\
     load_info m (ck_footerAddr m (X + ps + 8)) = Z.lor rest H_FREE /\
     load_ptr m (prev_of (X + ps + 8)) = FreeList im /\
     load_ptr m (next_of (X + ps + 8)) = N /\
     load_ptr m (prev_of N) = X + ps + 8).
Proof.
  intros Hready Hsize X N ps rest HXne Hfit r m.
  destruct Hready as (Hlive & HP & HP8 & Hfl0 & Hflb & Hbrk & Hz & Hhead).
  unfold head_ok in Hhead. cbv zeta in Hhead. fold X in Hhead. fold N in Hhead.
  destruct Hhead as [HX0|(HflX & Hmin & HendX & Hprev & Hnext)];
    [exfalso; apply HXne; exact HX0|].
  assert (X + ck_size (mem s) X <= 2 ^ 64) as Hend by lia.
  pose proof (hmalloc_found_post im s size Hlive Hsize HXne (conj Hfl0 HflX) Hmin Hend
                Hfit Hprev Hnext) as Hf.
  cbv zeta in Hf. fold r in Hf. fold m X in Hf. fold N ps in Hf. fold rest in Hf.
  destruct Hf as (Hp & Hb & Ht & Hpay & Hh & Hft & Hkeep & Hcut).
  do 4 (split; [done|]).
  split; [rewrite Hh; apply free_bit_of_size|].
  split; [by rewrite Hh|].
  split; [exact Hkeep|].
  intros Hrest. destruct (Hcut Hrest) as (C1 & C2 & C3 & C4 & C5 & C6 & C7 & C8 & C9).
  split; [done|]. split; [done|]. split; [done|].
  split; [by rewrite C3|]. done.
Qed.

(** X15. [grow] claims whole pages, fences them with two zero words, and
    puts one free chunk filling the space between the fences at the head
    of the list; the chunks that were on the list follow it in their old
    order. *)
Theorem grow_prepends_free_chunk (im : image) (s : state) (size : Z)
    (fuel : nat) (xs : list Z) :
  BASE s <> 0 ->
  0 < PAGE_SIZE s -> (8 | PAGE_SIZE s) ->
  16 <= size -> size + 16 + PAGE_SIZE s < 2 ^ 31 ->
  0 <= FreeList im -> FreeList im + 20 <= brk s ->
  brk s + 2 ^ 31 <= 2 ^ 64 ->
  fl_chunks fuel (mem s) (FreeList im) = Some xs ->
  Forall (fun x => FreeList im + 20 <= x /\ x + 20 <= brk s) xs ->
  all_apart xs ->
  let g := grow im s size (FreeList im) in
  let c := snd g in
  let m := mem (fst g) in
  let D := brk (fst g) - brk s in
  c = brk s + 4 /\
  fl_chunks (S fuel) m (FreeList im) = Some (c :: xs) /\
  load_ptr m (prev_of c) = FreeList im /\
  Z.land (load_info m (header_of c)) H_FREE = 1 /\
  ck_size m c = D - 8 /\
  load_info m (ck_footerAddr m c) = load_info m (header_of c) /\
  load_info m (brk s) = 0 /\
  load_info m (brk (fst g) - 4) = 0 /\
  HWM (fst g) = brk (fst g) /\
  size + 16 <= D < size + 16 + PAGE_SIZE s /\
  (exists k, D = k * PAGE_SIZE s).
Proof.
  intros Hlive HP HP8 Hsize Hint Hfl0 Hflb Hbrk Hxs Hin Hap g c m D.
  apply fl_chunks_loop_chain in Hxs as [Hchain Hlen].
  set (X := load_ptr (mem s) (next_of (FreeList im))) in *.
  assert (X = FreeList im \/ (FreeList im + 20 <= X /\ X + 20 <= brk s)) as Hfirst.
  { destruct xs as [|x xs']; [by left|right].
    destruct Hchain as (-> & _). by apply Forall_cons in Hin as [? _]. }
  assert (Forall (fun x => x = X \/ apart X x) xs) as HX.
  { destruct xs as [|x xs']; [constructor|].
    destruct Hchain as (E & _). rewrite E. constructor; [by left|].
    destruct Hap as [Hxa _]. eapply Forall_impl; [exact Hxa|]. intros y Hy. by right. }
  pose proof (grow_post im s size Hlive HP HP8 Hsize Hint (conj Hfl0 Hflb) Hbrk Hfirst) as Hg.
  pose proof (grow_run im s size Hlive HP HP8 Hsize Hint (conj Hfl0 Hflb) Hbrk) as Hrun.
  cbv zeta in Hg, Hrun. fold g X in Hg. fold g X in Hrun. fold c m D in Hg.
  destruct Hg as (Hk & HD & HD8 & Hhwm & _ & Hc & Hb0 & Hb1 & Hh & Hfa & Hf & L1 & L2 & L3 & L4).
  assert (8 | D - 8) as HD8' by (destruct HD8 as [k ->]; exists (k - 1); lia).
  split; [done|]. split.
  { apply fl_chunks_loop_chain. split; [|simpl; lia].
    fold m. rewrite L1. cbn [chain]. split; [done|]. split; [rewrite Hc; lia|].
    rewrite L3. apply (chain_ext (mem s)); [|exact Hchain].
    rewrite Forall_forall in Hin, HX. apply Forall_forall. intros x Hx.
    specialize (Hin x Hx). specialize (HX x Hx). unfold apart in HX.
    unfold m. rewrite Hrun. cbn [fst mem]. unfold next_of.
    set (D0 := PAGE_SIZE s * _) in *.
    assert (D = D0) as ED by (unfold D; rewrite Hrun; cbn [fst brk]; lia).
    rewrite <- ED. mem_simpl. done. }
  split; [done|]. split.
  { rewrite Hh. unfold H_FREE. change 1 with (Z.ones 1) at 2.
    rewrite Z.land_ones by lia. destruct HD8' as [k Ek]. rewrite Ek.
    replace (k * 8 + 1) with (1 + k * 4 * 2 ^ 1) by lia.
    by rewrite Z.mod_add. }
  split.
  { apply (ck_size_store m c (D - 8) 1); [done|lia|range_solve|done]. }
  split; [by rewrite Hfa, Hf, Hh|].
  split; [done|]. split.
  { replace (brk (fst g) - 4) with (brk s + D - 4) by (unfold D; lia). done. }
  done.
Qed.

(** ** The one case in which [hfree] acts *)

(** X16. [hfree] acts on a pointer whose tag word is zero, such as the
    word behind a fence: it takes the word for a chunk of size 0, writes the
    tag 1 into it and into the word before it, and puts it at the head of
    the list.  The break stays, and as the head now has a negative payload
    size no search finds a chunk on this list again. *)
Theorem hfree_zero_tag_heads_list (im : image) (s : state) (p : Z)
    (fuel : nat) (xs : list Z) :
  BASE s <> 0 ->
  8 <= p -> p + 16 <= 2 ^ 64 ->
  0 <= FreeList im -> FreeList im + 20 <= 2 ^ 64 ->
  load_info (mem s) (header_of (chunk_of p)) = 0 ->
  fl_chunks fuel (mem s) (FreeList im) = Some xs ->
  Forall (fun x => x + 24 <= p - 4 \/ p + 16 <= x) (FreeList im :: xs) ->
  all_apart (FreeList im :: xs) ->
  let c := p - 4 in
  let s' := hfree im s p in
  brk s' = brk s /\
  load_info (mem s') (header_of c) = 1 /\
  load_info (mem s') (c - 4) = 1 /\
  ck_payloadSize (mem s') c = -8 /\
  fl_chunks (S fuel) (mem s') (FreeList im) = Some (c :: xs) /\
  (forall target, 0 <= target ->
     fl_findBestFit (mem s') (FreeList im) target = FreeList im).
Proof.
  intros Hlive Hp Hp' Hfl0 Hfl Hz Hxs Hfar Hap c s'.
  assert (chunk_of p = c) as Ec.
  { unfold chunk_of, c, H_IS. rewrite PTR_ADD_to_size. apply to_size_id. range_solve. }
  rewrite Ec in Hz.
  apply fl_chunks_loop_chain in Hxs as [Hchain Hlen].
  set (m1 := store_info (store_info (mem s) c 1) (c - 4) 1).
  assert (ck_setInfo (mem s) c (Z.lor (ck_size (mem s) c) H_FREE) = m1) as Eset.
  { assert (ck_size (mem s) c = 0) as -> by (unfold ck_size; rewrite Hz; done).
    change (Z.lor 0 H_FREE) with (0 + 1).
    rewrite ck_setInfo_tag; [|by exists 0|lia|range_solve|range_solve].
    unfold m1. chain_eq. }
  assert (s' = with_mem (ck_print s c) (fl_insert m1 (FreeList im) c)) as Es.
  { unfold s', hfree. rewrite init_live by done. fold (chunk_of p). rewrite Ec, Hz.
    change (negb (Z.land (lnot 0) H_FREE =? 0)) with true. cbv iota.
    assert (mem (ck_print s c) = mem s) as -> by (unfold ck_print; by destruct (negb _)).
    by rewrite Eset. }
  assert (Forall (fun x => load_ptr m1 (next_of x) = load_ptr (mem s) (next_of x))
            (FreeList im :: xs)) as Hsame.
  { eapply Forall_impl; [exact Hfar|]. intros x Hx. cbv beta in Hx.
    unfold m1, next_of, c. mem_simpl. done. }
  apply Forall_cons in Hsame as [Hsame0 Hsame].
  assert (chain m1 (FreeList im) (load_ptr m1 (next_of (FreeList im))) xs) as Hchain1.
  { rewrite Hsame0. by apply (chain_ext (mem s)). }
  assert (all_apart (c :: FreeList im :: xs)) as Hap'.
  { split; [|exact Hap]. eapply Forall_impl; [exact Hfar|].
    intros x Hx. cbv beta in Hx. unfold apart, c. lia. }
  assert (size_range (FreeList im)) as Hrl by range_solve.
  assert (size_range c) as Hrc by (unfold c; range_solve).
  pose proof (fl_insert_chain m1 (FreeList im) c xs Hrl Hrc Hchain1 Hap') as Hins.
  destruct (fl_insert_links m1 (FreeList im) c xs Hrl Hrc Hchain1 Hap')
    as (L1 & L2 & L3 & L4 & _).
  set (X := load_ptr m1 (next_of (FreeList im))) in *.
  assert (X + 24 <= c \/ c + 20 <= X) as HXfar.
  { destruct xs as [|x xs'].
    - cbn [chain] in Hchain1. rewrite Hchain1.
      apply Forall_cons in Hfar as [H0 _]. unfold c. lia.
    - destruct Hchain1 as (E & _). rewrite E.
      apply Forall_cons in Hfar as [_ Hfar]. apply Forall_cons in Hfar as [H0 _].
      unfold c. lia. }
  assert (FreeList im + 24 <= c \/ c + 20 <= FreeList im) as HLfar.
  { apply Forall_cons in Hfar as [H0 _]. unfold c. lia. }
  pose proof HXfar as HXfar'. rewrite Hsame0 in HXfar'.
  unfold next_of in HXfar'.
  assert (load_info (fl_insert m1 (FreeList im) c) c = 1) as Hh.
  { unfold fl_insert. fold X. unfold prev_of, next_of, m1. mem_simpl. done. }
  assert (load_info (fl_insert m1 (FreeList im) c) (c - 4) = 1) as Hb.
  { unfold fl_insert. fold X. unfold prev_of, next_of, m1. mem_simpl. done. }
  assert (ck_payloadSize (fl_insert m1 (FreeList im) c) c = -8) as Hpay.
  { unfold ck_payloadSize, ck_size, header_of. rewrite Hh. done. }
  rewrite Es. cbn [mem with_mem brk].
  split; [unfold ck_print; by destruct (negb _)|].
  split; [exact Hh|]. split; [exact Hb|]. split; [exact Hpay|].
  split.
  { apply fl_chunks_loop_chain. split; [exact Hins|simpl; lia]. }
  intros target Ht. rewrite fl_findBestFit_head. cbv zeta. rewrite L1, Hpay.
  destruct (Z.ltb_spec (-8) target); [|lia]. by rewrite orb_true_r.
Qed.

(** X17. [ck_print] on the chunk of a block that [hmalloc] has just
    returned: one line, reporting a working chunk with valid tags, its size
    and its payload size; memory is left alone. *)
Theorem ck_print_after_hmalloc (im : image) (s : state) (size : Z) :
  heap_ready im (init im s) ->
  0 <= size ->
  size + 32 + PAGE_SIZE (init im s) < 2 ^ 31 ->
  let r := hmalloc im s size in
  let c := chunk_of (snd r) in
  let m := mem (fst r) in
  let s' := ck_print (fst r) c in
  mem s' = m /\ brk s' = brk (fst r) /\
  trace s' =
    Putchar 10 ::
    Printf "%schunk @%p, size %d (payload %d), %svalid."
      [PStr "Working "; PPtr c; PInt (ck_size m c); PInt (ck_payloadSize m c);
       PStr EmptyString] ::
    trace (fst r).
Proof.
  intros Hready Hsize Hint r c m s'.
  destruct (hmalloc_post im s size Hready Hsize Hint) as (_ & Hp & _ & Hcap & Hh & Hf).
  fold r in Hp, Hcap, Hh, Hf. fold c in Hp, Hcap, Hh, Hf. fold m in Hcap, Hh, Hf.
  assert (Z.land (load_info m (header_of c)) H_FREE = 0) as Hbit.
  { rewrite Hh. apply free_bit_of_size. }
  unfold s', ck_print. fold m. rewrite Hbit, Hf, Hh, Z.eqb_refl.
  cbn [negb Z.eqb]. cbn [mem brk trace emit].
  rewrite (sizemask_mult8 (ck_size m c)) by apply ck_size_mult8. done.
Qed.

(** ** The two dumps *)

Section Dumps.

Implicit Types (s : state) (m : gmap Z Z) (p q c i : Z).

Lemma ck_print_frame s c :
  mem (ck_print s c) = mem s /\ brk (ck_print s c) = brk s /\
  BASE (ck_print s c) = BASE s /\ HWM (ck_print s c) = HWM s.
Proof. unfold ck_print. by destruct (negb _). Qed.

Lemma listing_frame : forall xs s i,
  mem (listing s i xs) = mem s /\ brk (listing s i xs) = brk s.
Proof.
  induction xs as [|x r IH]; intros s i; cbn [listing]; [done|].
  destruct (IH (ck_print (emit s (Printf " %d. " [PInt i])) x) (i + 1)) as [-> ->].
  destruct (ck_print_frame (emit s (Printf " %d. " [PInt i])) x) as (-> & -> & _).
  done.
Qed.

Lemma fl_print_loop_chain fuel : forall s l p i xs,
  chain (mem s) l p xs -> (length xs < fuel)%nat ->
  0 <= i -> i + Z.of_nat (length xs) < 2 ^ 31 ->
  fl_print_loop fuel s l p i = Some (listing s i xs).
Proof.
  induction fuel as [|k IH]; intros s l p i xs Hc Hlen Hi Hb; [lia|].
  cbn [fl_print_loop]. destruct xs as [|x r].
  - cbn [chain] in Hc. rewrite Hc, Z.eqb_refl. done.
  - destruct Hc as (-> & Hne & Hc). cbn [length] in Hlen, Hb.
    destruct (Z.eqb_spec x l) as [E|_]; [done|]. cbn [negb listing].
    set (s1 := ck_print (emit s (Printf " %d. " [PInt i])) x).
    assert (mem s1 = mem s) as Em.
    { unfold s1. by destruct (ck_print_frame (emit s (Printf " %d. " [PInt i])) x) as (-> & _). }
    assert (iadd i 1 = i + 1) as -> by (unfold iadd; apply to_int_id; range_solve).
    apply IH; [by rewrite Em|lia|lia|lia].
Qed.

Lemma row_le m : forall cs p q, row m p cs q -> p <= q.
Proof.
  induction cs as [|c r IH]; intros p q H; cbn [row] in H.
  - lia.
  - destruct H as (-> & Hpos & H). apply IH in H. lia.
Qed.

Lemma segments_le m hwm : forall segs p, segments m p segs hwm -> p <= hwm.
Proof. intros [|g r] p H; cbn [segments] in H; lia. Qed.

Lemma print_row_frame : forall cs s,
  mem (print_row s cs) = mem s /\ brk (print_row s cs) = brk s /\
  BASE (print_row s cs) = BASE s /\ HWM (print_row s cs) = HWM s.
Proof.
  induction cs as [|c r IH]; intros s; cbn [print_row]; [done|].
  destruct (IH (ck_print (emit s (Printf "%p: " [PPtr c])) c)) as (-> & -> & -> & ->).
  apply (ck_print_frame (emit s (Printf "%p: " [PPtr c])) c).
Qed.

Lemma print_segments_frame : forall segs s,
  mem (print_segments s segs) = mem s /\ brk (print_segments s segs) = brk s /\
  BASE (print_segments s segs) = BASE s /\ HWM (print_segments s segs) = HWM s.
Proof.
  induction segs as [|g r IH]; intros s; cbn [print_segments]; [done|].
  cbv zeta. destruct (IH (emit (print_row (emit s (Printf "%p: base dummy\n" [PPtr (seg_base g)]))
                                  (seg_chunks g))
                               (Printf "%p: top dummy\n" [PPtr (seg_top g)])))
    as (-> & -> & -> & ->).
  cbn [emit mem brk BASE HWM].
  apply (print_row_frame (seg_chunks g) (emit s (Printf "%p: base dummy\n" [PPtr (seg_base g)]))).
Qed.

Lemma hprint_chunks_row fuel : forall s p cs q,
  row (mem s) p cs q -> 0 <= p -> q < 2 ^ 64 -> (length cs < fuel)%nat ->
  hprint_chunks fuel s p = Some (print_row s cs, q).
Proof.
  induction fuel as [|k IH]; intros s p cs q Hrow Hp Hq Hlen; [lia|].
  cbn [hprint_chunks]. cbv zeta. destruct cs as [|c r].
  - destruct Hrow as (-> & Hz). rewrite Hz. done.
  - destruct Hrow as (-> & Hpos & Hrow). cbn [length] in Hlen.
    destruct (Z.eqb_spec (ck_size (mem s) c) 0) as [E|_]; [lia|]. cbn [negb print_row].
    pose proof (row_le _ _ _ _ Hrow) as Hle.
    rewrite PTR_ADD_small by range_solve.
    set (s1 := ck_print (emit s (Printf "%p: " [PPtr c])) c).
    assert (mem s1 = mem s) as Em.
    { unfold s1. by destruct (ck_print_frame (emit s (Printf "%p: " [PPtr c])) c) as (-> & _). }
    apply IH; [by rewrite Em|lia|lia|lia].
Qed.

Lemma hprint_loop_segments fuel : forall s p segs,
  segments (mem s) p segs (HWM s) -> 0 <= p -> HWM s < 2 ^ 64 ->
  (length segs + chunk_count segs < fuel)%nat ->
  hprint_loop fuel s p = Some (print_segments s segs).
Proof.
  induction fuel as [|k IH]; intros s p segs Hseg Hp Hh Hlen; [lia|].
  cbn [hprint_loop]. destruct segs as [|g r].
  - cbn [segments] in Hseg. rewrite Hseg, Z.ltb_irrefl. done.
  - destruct Hseg as (Eb & Hlt & Hz & Hrow & Hrest).
    destruct (Z.ltb_spec p (HWM s)) as [_|]; [|lia].
    rewrite Hz. cbn [Z.eqb]. cbv zeta.
    unfold chunk_count in Hlen. cbn [map concat length] in Hlen.
    rewrite length_app in Hlen. fold (chunk_count r) in Hlen.
    pose proof (row_le _ _ _ _ Hrow) as Hle.
    pose proof (segments_le _ _ _ _ Hrest) as Hle'.
    rewrite (PTR_ADD_small p H_IS) by (unfold H_IS; range_solve).
    set (s1 := emit s (Printf "%p: base dummy\n" [PPtr p])).
    rewrite (hprint_chunks_row k s1 (p + H_IS) (seg_chunks g) (seg_top g));
      [|exact Hrow|unfold H_IS; lia|lia|lia].
    rewrite (PTR_ADD_small (seg_top g) H_IS) by (unfold H_IS; range_solve).
    cbn [print_segments]. cbv zeta. rewrite <- Eb. fold s1.
    set (s2 := emit (print_row s1 (seg_chunks g)) (Printf "%p: top dummy\n" [PPtr (seg_top g)])).
    assert (mem s2 = mem s /\ HWM s2 = HWM s) as [Em Eh].
    { unfold s2. cbn [emit mem HWM].
      destruct (print_row_frame (seg_chunks g) s1) as (-> & _ & _ & ->). done. }
    apply IH; [by rewrite Em, Eh|unfold H_IS; lia|by rewrite Eh|lia].
Qed.

Lemma hprint_loop_stuck fuel : forall s p,
  p < HWM s -> load_info (mem s) p <> 0 -> hprint_loop fuel s p = None.
Proof.
  induction fuel as [|k IH]; intros s p Hlt Hnz; [done|].
  cbn [hprint_loop]. destruct (Z.ltb_spec p (HWM s)) as [_|]; [|lia].
  destruct (Z.eqb_spec (load_info (mem s) p) 0) as [E|_]; [done|]. by apply IH.
Qed.

(** The words a list of segments is read from lie between its start and
    [hwm]. *)
Lemma row_ext m m' lo hi : forall cs p q,
  (forall a, lo <= a < hi -> load8 m' a = load8 m a) ->
  row m p cs q -> lo <= p -> q + 4 <= hi -> row m' p cs q.
Proof.
  intros cs p q Hsame. revert p.
  assert (forall a, lo <= a -> a + 4 <= hi -> ck_size m' a = ck_size m a) as Hsz.
  { intros a Ha Ha'. unfold ck_size, load_info, header_of. do 2 f_equal.
    apply loadN_same_bytes. intros b Hb. simpl in Hb. apply Hsame. lia. }
  induction cs as [|c r IH]; intros p Hrow Hp Hq; cbn [row] in *.
  - destruct Hrow as (-> & Hz). split; [done|]. rewrite Hsz; [done|lia|lia].
  - destruct Hrow as (-> & Hpos & Hrow).
    pose proof (row_le _ _ _ _ Hrow) as Hle.
    rewrite Hsz by lia. split; [done|]. split; [done|].
    apply IH; [done|lia|done].
Qed.

Lemma segments_ext m m' lo hwm : forall segs p,
  (forall a, lo <= a < hwm -> load8 m' a = load8 m a) ->
  segments m p segs hwm -> lo <= p -> segments m' p segs hwm.
Proof.
  intros segs p Hsame. revert p.
  induction segs as [|g r IH]; intros p Hseg Hp; cbn [segments] in *; [done|].
  destruct Hseg as (Eb & Hlt & Hz & Hrow & Hrest).
  pose proof (row_le _ _ _ _ Hrow) as Hle.
  pose proof (segments_le _ _ _ _ Hrest) as Hle'.
  split; [done|]. split; [done|]. split.
  { rewrite <- Hz. unfold load_info. f_equal. apply loadN_same_bytes.
    intros b Hb. simpl in Hb. apply Hsame. lia. }
  split; [apply (row_ext m m' lo hwm); [done|done|lia|lia]|].
  apply IH; [done|lia].
Qed.

Lemma segments_app m hwm : forall xs ys p mid,
  segments m p xs mid -> segments m mid ys hwm -> segments m p (xs ++ ys) hwm.
Proof.
  induction xs as [|g r IH]; intros ys p mid Hx Hy; cbn [segments app] in *.
  - by rewrite Hx.
  - destruct Hx as (Eb & Hlt & Hz & Hrow & Hrest).
    pose proof (segments_le _ _ _ _ Hy) as Hle.
    split; [done|]. split; [lia|]. split; [done|]. split; [done|].
    by apply (IH ys _ mid).
Qed.

End Dumps.

(** X18. [fl_print] writes the number of chunks on the list and then one
    numbered line for each of them, in list order and counting from 0; it
    changes neither memory nor the break. *)
Theorem fl_print_lists_chunks (im : image) (s : state) (fuel : nat) (xs : list Z) :
  BASE s <> 0 ->
  fl_chunks fuel (mem s) (FreeList im) = Some xs ->
  Z.of_nat (length xs) < 2 ^ 31 ->
  let s1 := emit s (Printf "Free list contains %d chunks:\n"
                      [PInt (Z.of_nat (length xs))]) in
  fl_print fuel im s = Some (listing s1 0 xs) /\
  mem (listing s1 0 xs) = mem s /\
  brk (listing s1 0 xs) = brk s.
Proof.
  intros Hlive Hxs Hlen s1.
  apply fl_chunks_loop_chain in Hxs as [Hc Hl].
  split.
  - unfold fl_print. rewrite init_live by done.
    unfold fl_size. rewrite (fl_size_loop_chain fuel _ _ _ xs 0) by (done || lia).
    rewrite Z.add_0_l. fold s1.
    apply fl_print_loop_chain; [exact Hc|done|lia|lia].
  - destruct (listing_frame xs s1 0) as [-> ->]. done.
Qed.

(** X19. On a heap that is a list of segments from [BASE] to [HWM],
    [hprint] returns and writes, for each segment in address order, the
    base line, one line for each chunk, and the top line; it changes
    neither memory nor the break. *)
Theorem hprint_walks_segments (im : image) (s : state) (fuel : nat)
    (segs : list segment) :
  BASE s <> 0 -> 0 <= BASE s -> HWM s < 2 ^ 64 ->
  segments (mem s) (BASE s) segs (HWM s) ->
  (length segs + chunk_count segs < fuel)%nat ->
  hprint fuel im s = Some (print_segments s segs) /\
  mem (print_segments s segs) = mem s /\
  brk (print_segments s segs) = brk s.
Proof.
  intros Hlive Hb Hh Hseg Hlen. split.
  - unfold hprint. rewrite init_live by done. by apply hprint_loop_segments.
  - destruct (print_segments_frame segs s) as (-> & -> & _). done.
Qed.

(** X20. [hprint] does not return when the word at [BASE] is not zero and
    [BASE] is below [HWM]: its loop then never moves on. *)
Theorem hprint_stuck_on_nonzero_base (im : image) (s : state) :
  BASE s <> 0 -> BASE s < HWM s ->
  load_info (mem s) (BASE s) <> 0 ->
  forall fuel, hprint fuel im s = None.
Proof.
  intros Hlive Hlt Hnz fuel. unfold hprint. rewrite init_live by done.
  by apply hprint_loop_stuck.
Qed.

Section Fences.

Variables (im : image) (s : state) (size : Z).

Hypothesis Hready : heap_ready im s.
Hypothesis Hempty : load_ptr (mem s) (next_of (FreeList im)) = FreeList im.
Hypothesis Hsize : 0 <= size.
Hypothesis Hint : size + 32 + PAGE_SIZE s < 2 ^ 31.
Hypothesis Hroom : brk s + 2 ^ 32 <= 2 ^ 64.

Lemma hmalloc_empty_fences :
  let r := hmalloc im s size in
  load_info (mem (fst r)) (brk s) = 0 /\
  load_info (mem (fst r)) (brk (fst r) - 4) = 0 /\
  BASE (fst r) = BASE s /\ HWM (fst r) = brk (fst r) /\
  (8 | brk (fst r) - brk s).
Proof.
  intros r. unfold r.
  destruct (hmalloc_empty_run im s size Hready Hempty Hsize Hint) as (Hrun & HD & HD8).
  rewrite Hrun. cbn [fst snd mem brk BASE HWM PAGE_SIZE debug trace].
  destruct Hready as (Hlive & HP & HP8 & Hfl0 & Hflb & Hbrk & Hz & _).
  assert (16 <= Z.max size H_MINPAYLOAD) as Hneed by (unfold H_MINPAYLOAD, H_PS; lia).
  assert (Z.max size H_MINPAYLOAD <= size + 16) by (unfold H_MINPAYLOAD, H_PS; lia).
  set (D := PAGE_SIZE s * _) in *. set (B := brk s) in *.
  assert (size_range (FreeList im)) as Hflr.
  { pose proof (Z.pow_lt_mono_r 2 31 64). range_solve. }
  split; [mem_simpl; done|]. split; [mem_simpl; done|].
  split; [done|]. split; [done|].
  by replace (B + D - B) with D by lia.
Qed.

End Fences.

(** X21. A request on a heap whose list is empty adds one segment at the
    old break and keeps the segments that were there: if the space from
    [BASE] to [HWM] was a list of segments, it is that list followed by a
    segment holding the one chunk of the returned block. *)
Theorem hmalloc_adds_segment (im : image) (s : state) (size : Z)
    (segs : list segment) :
  heap_ready im s ->
  load_ptr (mem s) (next_of (FreeList im)) = FreeList im ->
  0 <= size -> size + 32 + PAGE_SIZE s < 2 ^ 31 ->
  brk s + 2 ^ 32 <= 2 ^ 64 ->
  FreeList im + 20 <= BASE s ->
  HWM s = brk s ->
  segments (mem s) (BASE s) segs (HWM s) ->
  let r := hmalloc im s size in
  let s' := fst r in
  BASE s' = BASE s /\ HWM s' = brk s' /\
  chunk_of (snd r) = brk s + 4 /\
  segments (mem s') (BASE s')
    (segs ++ [Segment (brk s) [brk s + 4] (brk s' - 4)]) (HWM s').
Proof.
  intros Hready Hempty Hsize Hint Hroom Hbase Hhwm Hseg r s'.
  destruct (hmalloc_empty_again im s size Hready Hempty Hsize Hint Hroom)
    as (_ & _ & _ & Hq & Hb1 & Hb1' & _ & Hh1 & _).
  destruct (hmalloc_empty_fences im s size Hready Hempty Hsize Hint Hroom)
    as (F0 & F1 & EB & EH & [k Hk]).
  pose proof (hmalloc_empty_frame im s size Hready Hempty Hsize Hint) as Hframe.
  fold r in Hq, Hb1, Hb1', Hh1, F0, F1, EB, EH, Hk, Hframe.
  fold s' in Hb1, Hb1', Hh1, F0, F1, EB, EH, Hk, Hframe.
  destruct Hready as (Hlive & HP & _ & Hfl0 & Hflb & Hbrk & _).
  unfold H_MINPAYLOAD, H_PS in Hb1.
  split; [done|]. split; [done|]. split.
  { rewrite Hq. unfold chunk_of, H_IS. rewrite PTR_ADD_to_size.
    rewrite to_size_id by range_solve. lia. }
  rewrite EB, EH. apply (segments_app _ _ _ _ _ (brk s)).
  - rewrite <- Hhwm. apply (segments_ext (mem s) _ (BASE s)); [|exact Hseg|lia].
    intros a Ha. apply Hframe; unfold prev_of, next_of; lia.
  - assert (ck_size (mem s') (brk s + 4) = brk s' - brk s - 8) as Hsz.
    { unfold ck_size, header_of. rewrite Hh1. apply sizemask_mult8.
      exists (k - 1). lia. }
    cbn [segments row seg_base seg_chunks seg_top].
    split; [done|]. split; [lia|]. split; [done|]. split.
    + split; [done|]. rewrite Hsz. split; [lia|]. split; [lia|].
      unfold ck_size, header_of. rewrite F1. done.
    + lia.
Qed.

Section MoreWitnesses.

Import Scenario.

Ltac ready_heap :=
  repeat split; try (vm_compute; (reflexivity || discriminate));
  [ exists 512; vm_compute; reflexivity | ].

Lemma ck_setInfo_writes_both_tags_witness :
  let m' := ck_setInfo ∅ c16 (24 + 1) in
  load_info m' (header_of c16) = 24 + 1 /\
  ck_footerAddr m' c16 = c16 + 24 - 4 /\
  load_info m' (ck_footerAddr m' c16) = 24 + 1 /\
  ck_size m' c16 = 24 /\
  ck_payloadSize m' c16 = 24 - 8 /\
  (forall a, a < c16 \/ c16 + 4 <= a -> a < c16 + 24 - 4 \/ c16 + 24 <= a ->
             load8 m' a = load8 ∅ a).
Proof.
  apply (ck_setInfo_writes_both_tags ∅ c16 24 1).
  - by exists 3.
  - lia.
  - lia.
  - lia.
  - vm_compute. discriminate.
  - vm_compute. discriminate.
Defined.

Lemma init_sets_up_once_witness :
  let s0 := init im0 fresh in
  BASE s0 = brk fresh /\ HWM s0 = brk fresh /\ brk s0 = brk fresh /\
  PAGE_SIZE s0 = sys_pagesize im0 /\
  trace s0 = Sbrk 0 :: trace fresh /\
  load_info (mem s0) (header_of (FreeList im0)) = 0 /\
  load_ptr (mem s0) (prev_of (FreeList im0)) = FreeList im0 /\
  fl_chunks 1 (mem s0) (FreeList im0) = Some [] /\
  fl_size 1 (mem s0) (FreeList im0) = Some 0 /\
  (forall a, a < FreeList im0 \/ FreeList im0 + 20 <= a ->
             load8 (mem s0) a = load8 (mem fresh) a) /\
  init im0 s0 = s0.
Proof.
  apply (init_sets_up_once im0 fresh).
  - reflexivity.
  - vm_compute. discriminate.
  - vm_compute. discriminate.
  - vm_compute. discriminate.
Defined.

Lemma fl_findBestFit_answers_head_witness :
  fl_findBestFit heap_small_first FL0 64 =
    (if ck_payloadSize heap_small_first c16 <? 64 then FL0 else c16).
Proof.
  apply (fl_findBestFit_answers_head heap_small_first FL0 64 4 [c16; c64; c128]).
  vm_compute. reflexivity.
Defined.

Lemma ck_split_divides_chunk_witness :
  let ps := 8 * ((16 + 7) / 8) in
  let sz := ck_size (mem heap_one_page) c16 in
  let r := ck_split im0 heap_one_page c16 16 in
  let d := snd r in
  let m := mem (fst r) in
  let X := load_ptr (mem heap_one_page) (next_of (FreeList im0)) in
  d = c16 + ps + 8 /\
  16 <= ps < 16 + 8 /\
  ck_payloadSize m c16 = ps /\
  load_info m (header_of c16) = ps + 8 /\
  load_info m (ck_footerAddr m c16) = ps + 8 /\
  load_info m (header_of d) = Z.lor (sz - (ps + 8)) H_FREE /\
  load_info m (ck_footerAddr m d) = Z.lor (sz - (ps + 8)) H_FREE /\
  Z.land (load_info m (header_of d)) H_FREE = 1 /\
  ck_size m c16 + ck_size m d = sz /\
  load_ptr m (next_of (FreeList im0)) = d /\
  load_ptr m (prev_of d) = FreeList im0 /\
  load_ptr m (next_of d) = X /\
  load_ptr m (prev_of X) = d.
Proof.
  apply (ck_split_divides_chunk im0 heap_one_page c16 16).
  - lia.
  - vm_compute. discriminate.
  - vm_compute. discriminate.
  - vm_compute. discriminate.
  - right. left. vm_compute. reflexivity.
  - vm_compute. discriminate.
Defined.

Lemma hmalloc_block_fits_witness :
  let r := hmalloc im0 fresh 100 in
  let c := chunk_of (snd r) in
  let m := mem (fst r) in
  snd r = c + 4 /\
  100 <= ck_payloadSize m c /\
  H_MINPAYLOAD <= ck_payloadSize m c /\
  Z.land (load_info m (header_of c)) H_FREE = 0 /\
  load_info m (ck_footerAddr m c) = load_info m (header_of c).
Proof.
  apply (hmalloc_block_fits im0 fresh 100).
  - ready_heap. left. vm_compute. reflexivity.
  - lia.
  - vm_compute. reflexivity.
Defined.

Lemma heap_one_page_is_ready : heap_ready im0 heap_one_page.
Proof.
  ready_heap. right.
  repeat split; try (vm_compute; (reflexivity || discriminate)).
  left. vm_compute. reflexivity.
Defined.

Lemma hmalloc_reuses_first_chunk_witness :
  let X := load_ptr (mem heap_one_page) (next_of (FreeList im0)) in
  let N := load_ptr (mem heap_one_page) (next_of X) in
  let ps := 8 * ((16 + 7) / 8) in
  let rest := ck_size (mem heap_one_page) X - (ps + 8) in
  let r := hmalloc im0 heap_one_page 16 in
  let m := mem (fst r) in
  snd r = X + 4 /\
  brk (fst r) = brk heap_one_page /\
  trace (fst r) = Printf "ck_split entered!\n" [] :: trace heap_one_page /\
  16 <= ck_payloadSize m X /\
  Z.land (load_info m (header_of X)) H_FREE = 0 /\
  load_info m (ck_footerAddr m X) = load_info m (header_of X) /\
  (rest < H_MINCHUNK ->
     ck_size m X = ck_size (mem heap_one_page) X /\
     load_ptr m (next_of (FreeList im0)) = N /\
     load_ptr m (prev_of N) = FreeList im0) /\
  (H_MINCHUNK <= rest ->
     ck_payloadSize m X = ps /\
     load_ptr m (next_of (FreeList im0)) = X + ps + 8 /\
     load_info m (header_of (X + ps + 8)) = Z.lor rest H_FREE /\
     load_info m (ck_footerAddr m (X + ps + 8)) = Z.lor rest H_FREE /\
     load_ptr m (prev_of (X + ps + 8)) = FreeList im0 /\
     load_ptr m (next_of (X + ps + 8)) = N /\
     load_ptr m (prev_of N) = X + ps + 8).
Proof.
  apply (hmalloc_reuses_first_chunk im0 heap_one_page 16).
  - exact heap_one_page_is_ready.
  - lia.
  - vm_compute. discriminate.
  - vm_compute. discriminate.
Defined.

Lemma grow_prepends_free_chunk_witness :
  let g := grow im0 heap_one_page 16 (FreeList im0) in
  let c := snd g in
  let m := mem (fst g) in
  let D := brk (fst g) - brk heap_one_page in
  c = brk heap_one_page + 4 /\
  fl_chunks 3 m (FreeList im0) = Some [c; c16] /\
  load_ptr m (prev_of c) = FreeList im0 /\
  Z.land (load_info m (header_of c)) H_FREE = 1 /\
  ck_size m c = D - 8 /\
  load_info m (ck_footerAddr m c) = load_info m (header_of c) /\
  load_info m (brk heap_one_page) = 0 /\
  load_info m (brk (fst g) - 4) = 0 /\
  HWM (fst g) = brk (fst g) /\
  16 + 16 <= D < 16 + 16 + PAGE_SIZE heap_one_page /\
  (exists k, D = k * PAGE_SIZE heap_one_page).
Proof.
  apply (grow_prepends_free_chunk im0 heap_one_page 16 2 [c16]).
  - vm_compute. discriminate.
  - vm_compute. reflexivity.
  - exists 512. vm_compute. reflexivity.
  - lia.
  - vm_compute. reflexivity.
  - vm_compute. discriminate.
  - vm_compute. discriminate.
  - vm_compute. discriminate.
  - vm_compute. reflexivity.
  - constructor; [|constructor]. vm_compute. split; discriminate.
  - cbn [all_apart]. split; [constructor|exact I].
Defined.

Lemma hfree_zero_tag_heads_list_witness :
  let c := 6299652 - 4 in
  let s' := hfree im0 arena 6299652 in
  brk s' = brk arena /\
  load_info (mem s') (header_of c) = 1 /\
  load_info (mem s') (c - 4) = 1 /\
  ck_payloadSize (mem s') c = -8 /\
  fl_chunks 2 (mem s') (FreeList im0) = Some [c] /\
  (forall target, 0 <= target ->
     fl_findBestFit (mem s') (FreeList im0) target = FreeList im0).
Proof.
  apply (hfree_zero_tag_heads_list im0 arena 6299652 1 []).
  - vm_compute. discriminate.
  - lia.
  - vm_compute. discriminate.
  - vm_compute. discriminate.
  - vm_compute. discriminate.
  - vm_compute. reflexivity.
  - vm_compute. reflexivity.
  - constructor; [|constructor]. left. vm_compute. discriminate.
  - cbn [all_apart]. split; [constructor|exact I].
Defined.

Lemma ck_print_after_hmalloc_witness :
  let r := hmalloc im0 fresh 100 in
  let c := chunk_of (snd r) in
  let m := mem (fst r) in
  let s' := ck_print (fst r) c in
  mem s' = m /\ brk s' = brk (fst r) /\
  trace s' =
    Putchar 10 ::
    Printf "%schunk @%p, size %d (payload %d), %svalid."
      [PStr "Working "; PPtr c; PInt (ck_size m c); PInt (ck_payloadSize m c);
       PStr EmptyString] ::
    trace (fst r).
Proof.
  apply (ck_print_after_hmalloc im0 fresh 100).
  - ready_heap. left. vm_compute. reflexivity.
  - lia.
  - vm_compute. reflexivity.
Defined.

End MoreWitnesses.

Section DumpWitnesses.

Import Scenario.

Lemma fl_print_lists_chunks_witness :
  let s := with_mem arena heap_small_first in
  let s1 := emit s (Printf "Free list contains %d chunks:\n"
                      [PInt (Z.of_nat (length [c16; c64; c128]))]) in
  fl_print 4 im0 s = Some (listing s1 0 [c16; c64; c128]) /\
  mem (listing s1 0 [c16; c64; c128]) = mem s /\
  brk (listing s1 0 [c16; c64; c128]) = brk s.
Proof.
  apply (fl_print_lists_chunks im0 (with_mem arena heap_small_first) 4 [c16; c64; c128]).
  - vm_compute. discriminate.
  - vm_compute. reflexivity.
  - vm_compute. reflexivity.
Defined.

Lemma hprint_walks_segments_witness :
  let segs := [Segment 6299648 [6299652] 6303740] in
  hprint 3 im0 arena = Some (print_segments arena segs) /\
  mem (print_segments arena segs) = mem arena /\
  brk (print_segments arena segs) = brk arena.
Proof.
  apply (hprint_walks_segments im0 arena 3 [Segment 6299648 [6299652] 6303740]).
  - vm_compute. discriminate.
  - vm_compute. discriminate.
  - vm_compute. reflexivity.
  - cbn [segments row seg_base seg_chunks seg_top].
    repeat split; vm_compute; reflexivity.
  - vm_compute. lia.
Defined.

Lemma hprint_stuck_on_nonzero_base_witness :
  hprint 1000 im0 (hfree im0 arena 6299652) = None.
Proof.
  apply (hprint_stuck_on_nonzero_base im0 (hfree im0 arena 6299652)).
  - vm_compute. discriminate.
  - vm_compute. reflexivity.
  - vm_compute. discriminate.
Defined.

Lemma hmalloc_adds_segment_witness :
  let r := hmalloc im0 arena 100 in
  let s' := fst r in
  BASE s' = BASE arena /\ HWM s' = brk s' /\
  chunk_of (snd r) = brk arena + 4 /\
  segments (mem s') (BASE s')
    ([Segment 6299648 [6299652] 6303740] ++
     [Segment (brk arena) [brk arena + 4] (brk s' - 4)]) (HWM s').
Proof.
  apply (hmalloc_adds_segment im0 arena 100 [Segment 6299648 [6299652] 6303740]).
  - repeat split; try (vm_compute; (reflexivity || discriminate));
      [exists 512; vm_compute; reflexivity | left; vm_compute; reflexivity].
  - vm_compute. reflexivity.
  - lia.
  - vm_compute. reflexivity.
  - vm_compute. discriminate.
  - vm_compute. discriminate.
  - vm_compute. reflexivity.
  - cbn [segments row seg_base seg_chunks seg_top].
    repeat split; vm_compute; reflexivity.
Defined.

End DumpWitnesses.

(** ** Sequences of public calls *)

(** X22. A request on a heap whose list is empty does not touch what was
    there: every byte below the old break, the two links of the anchor
    apart, is as before, and the block handed out starts above the old
    break. *)
Theorem hmalloc_leaves_earlier_bytes (im : image) (s : state) (size a : Z) :
  heap_ready im s ->
  load_ptr (mem s) (next_of (FreeList im)) = FreeList im ->
  0 <= size -> size + 32 + PAGE_SIZE s < 2 ^ 31 ->
  brk s + 2 ^ 32 <= 2 ^ 64 ->
  a < brk s ->
  a < prev_of (FreeList im) \/ next_of (FreeList im) + 8 <= a ->
  let r := hmalloc im s size in
  load8 (mem (fst r)) a = load8 (mem s) a /\
  snd r = brk s + 8 /\
  snd r + size <= brk (fst r).
Proof.
  intros Hready Hempty Hsize Hint Hroom Ha Ha' r.
  destruct (hmalloc_empty_again im s size Hready Hempty Hsize Hint Hroom)
    as (_ & _ & _ & Hq & Hb & _).
  fold r in Hq, Hb. split.
  - by apply (hmalloc_empty_frame im s size Hready Hempty Hsize Hint).
  - split; [done|]. unfold H_MINPAYLOAD, H_PS in Hb. lia.
Qed.

Section Quiet.

Variable im : image.

Lemma quiet_frame (s s' : state) :
  quiet im s ->
  BASE s' = BASE s -> PAGE_SIZE s' = PAGE_SIZE s -> brk s' = brk s ->
  (forall a, FreeList im <= a < FreeList im + 20 ->
             load8 (mem s') a = load8 (mem s) a) ->
  quiet im s'.
Proof.
  intros [Hready Hempty] EB EP Eb Hsame.
  destruct Hready as (Hlive & HP & HP8 & Hfl0 & Hflb & Hbrk & Hz & Hhead).
  assert (load_ptr (mem s') (next_of (FreeList im)) = FreeList im) as Hnext.
  { rewrite <- Hempty at 2. unfold load_ptr, next_of. apply loadN_same_bytes.
    intros b Hb. simpl in Hb. apply Hsame. lia. }
  split; [|exact Hnext].
  unfold heap_ready. rewrite EB, EP, Eb.
  do 6 (split; [done|]). split.
  - rewrite <- Hz. unfold load_info, header_of. f_equal. apply loadN_same_bytes.
    intros b Hb. simpl in Hb. apply Hsame. lia.
  - unfold head_ok. cbv zeta. left. exact Hnext.
Qed.

Lemma quiet_emit (s : state) (e : event) : quiet im s -> quiet im (emit s e).
Proof. intros H. by apply (quiet_frame s). Qed.

Lemma hmalloc_quiet (s : state) (n : Z) :
  quiet im s -> size_ok s n ->
  let r := hmalloc im s n in
  quiet im (fst r) /\ snd r = brk s + 8 /\ brk s <= brk (fst r) /\
  BASE (fst r) = BASE s /\ PAGE_SIZE (fst r) = PAGE_SIZE s /\
  (forall a, a < brk s ->
     a < prev_of (FreeList im) \/ next_of (FreeList im) + 8 <= a ->
     load8 (mem (fst r)) a = load8 (mem s) a).
Proof.
  intros [Hready Hempty] (Hn & Hint & Hroom) r.
  destruct (hmalloc_empty_again im s n Hready Hempty Hn Hint Hroom)
    as (Hr & He & _ & Hq & Hb & _ & HP & _).
  destruct (hmalloc_empty_fences im s n Hready Hempty Hn Hint Hroom)
    as (_ & _ & EB & _).
  fold r in Hr, He, Hq, Hb, HP, EB.
  split; [by split|]. split; [done|].
  split; [unfold H_MINPAYLOAD, H_PS in Hb; lia|].
  split; [done|]. split; [done|].
  by apply (hmalloc_empty_frame im s n Hready Hempty Hn Hint).
Qed.

Lemma run_call_quiet (s : state) (c : call) :
  quiet im s -> call_ok im s c ->
  quiet im (run_call im s c) /\ brk s <= brk (run_call im s c) /\
  BASE (run_call im s c) = BASE s.
Proof.
  intros Hq Hok. pose proof Hq as [Hready Hempty].
  pose proof Hready as (Hlive & HP & _ & Hfl0 & Hflb & Hbrk & _).
  destruct c as [n|k n|p n|p|str]; cbn [run_call call_ok] in *.
  - destruct (hmalloc_quiet s n Hq Hok) as (H1 & _ & H2 & H3 & _). done.
  - destruct (hmalloc_quiet s (imul k n) Hq Hok) as (H1 & Hp & H2 & H3 & H4 & _).
    unfold hcalloc. rewrite init_live by done.
    destruct (hmalloc im s (imul k n)) as [s1 q]. cbn [fst snd] in *.
    split; [|done].
    apply (quiet_frame s1); [done|done|done|done|].
    intros a Ha. cbn [mem with_mem emit].
    destruct Hok as (Hn & Hint & _). rewrite to_size_id by range_solve.
    apply load8_memset_out; lia.
  - destruct Hok as (Hok & Hp & Htag).
    unfold hrealloc. rewrite init_live by done.
    destruct (ck_payloadSize (mem s) (PTR_ADD p (to_size (- H_IS))) <? n); [|done].
    destruct (hmalloc_quiet s n Hq Hok) as (H1 & Hq1 & H2 & H3 & H4 & Hframe).
    destruct (hmalloc im s n) as [s1 q]. cbn [fst snd] in *.
    destruct Hok as (Hn & Hint & _). rewrite to_size_id by range_solve.
    cbv zeta. set (s2 := with_mem _ _).
    assert (quiet im s2) as Hq2.
    { apply (quiet_frame s1); [done|done|done|done|].
      intros a Ha. cbn [mem with_mem emit]. apply load8_memcpy_out; lia. }
    assert (chunk_of p = p - 4) as Ec.
    { unfold chunk_of, H_IS. rewrite PTR_ADD_to_size. apply to_size_id. range_solve. }
    assert (load_info (mem s2) (header_of (chunk_of p)) <> 0) as Htag2.
    { intros E. apply Htag. rewrite <- E. unfold load_info, header_of. f_equal.
      rewrite Ec. symmetry. apply loadN_same_bytes. intros b Hb. simpl in Hb.
      unfold s2. cbn [mem with_mem emit]. rewrite load8_memcpy_out by lia.
      apply Hframe; unfold prev_of, next_of; lia. }
    rewrite (hfree_nonzero_header im s2 p); [|apply Hq2|exact Htag2].
    split; [by apply quiet_emit|]. done.
  - rewrite (hfree_nonzero_header im s p Hlive Hok).
    split; [by apply quiet_emit|]. done.
  - unfold hstrdup. destruct (strlen_spec (mem s) str) as (Hn0 & _).
    pose proof Hok as (_ & Hint & _).
    rewrite to_int_id by range_solve.
    destruct (hmalloc_quiet s (strlen (mem s) str) Hq Hok) as (H1 & Hq1 & H2 & H3 & H4 & _).
    destruct (hmalloc im s (strlen (mem s) str)) as [s1 q]. cbn [fst snd] in *.
    split; [|done].
    apply (quiet_frame s1); [done|done|done|done|].
    intros a Ha. cbn [mem with_mem emit]. unfold strcpy.
    destruct (strlen_spec (mem s1) str) as (Hn1 & _).
    apply load8_memcpy_out; lia.
Qed.

End Quiet.

(** X23. Through the public interface the free list stays empty for
    ever.  From an initialised heap with an empty list, after any sequence
    of calls of [hmalloc], [hcalloc], [hrealloc], [hfree] and [hstrdup]
    whose sizes are in range and whose released pointers carry a non-zero
    tag, the heap is again initialised with an empty list, and the break
    has not gone down: every request is served by new pages. *)
Theorem public_calls_keep_list_empty (im : image) (cs : list call) (s : state) :
  quiet im s -> calls_ok im s cs ->
  quiet im (run_calls im s cs) /\
  brk s <= brk (run_calls im s cs) /\
  BASE (run_calls im s cs) = BASE s.
Proof.
  revert s. induction cs as [|c r IH]; intros s Hq Hok; cbn [run_calls fold_left].
  - done.
  - destruct Hok as [Hc Hr].
    destruct (run_call_quiet im s c Hq Hc) as (Hq1 & Hb1 & EB1).
    destruct (IH (run_call im s c) Hq1 Hr) as (Hq2 & Hb2 & EB2).
    unfold run_calls in Hq2, Hb2, EB2.
    split; [done|]. split; [lia|]. by rewrite EB2.
Qed.

Section CallWitnesses.

Import Scenario.

Lemma arena_quiet : quiet im0 arena.
Proof.
  split; [|vm_compute; reflexivity].
  repeat split; try (vm_compute; (reflexivity || discriminate));
    [exists 512; vm_compute; reflexivity | left; vm_compute; reflexivity].
Defined.

Lemma hmalloc_leaves_earlier_bytes_witness :
  let r := hmalloc im0 arena 100 in
  load8 (mem (fst r)) 6299656 = load8 (mem arena) 6299656 /\
  snd r = brk arena + 8 /\
  snd r + 100 <= brk (fst r).
Proof.
  apply (hmalloc_leaves_earlier_bytes im0 arena 100 6299656).
  - exact (proj1 arena_quiet).
  - exact (proj2 arena_quiet).
  - lia.
  - vm_compute. reflexivity.
  - vm_compute. discriminate.
  - vm_compute. reflexivity.
  - right. vm_compute. discriminate.
Defined.

Lemma public_calls_keep_list_empty_witness :
  let cs := [Hmalloc 100; Hfree 6299656; Hcalloc 10 4;
             Hrealloc 6299656 5000; Hstrdup 6299656] in
  quiet im0 (run_calls im0 arena cs) /\
  brk arena <= brk (run_calls im0 arena cs) /\
  BASE (run_calls im0 arena cs) = BASE arena.
Proof.
  apply (public_calls_keep_list_empty im0
           [Hmalloc 100; Hfree 6299656; Hcalloc 10 4;
            Hrealloc 6299656 5000; Hstrdup 6299656] arena).
  - exact arena_quiet.
  - cbn [calls_ok call_ok]. unfold size_ok.
    repeat split; vm_compute; (reflexivity || discriminate).
Defined.

End CallWitnesses.
